(** * ChartGenerator: the candle generation engine of generator.js

    A shallow embedding of [class ChartGenerator] (src/generator.js) and the
    properties of its candle sequences.

    Conventions of the embedding.

    - JavaScript numbers are exact rationals ([Q]); rounding of IEEE doubles,
      NaN and the infinities are outside the model ([x / 0] is [0] in [Q]).
      Where JavaScript would read [undefined] from an array or throw, the
      run stops ([None]); either needs a draw outside [0,1) or an empty
      phase table, which a [ChartGenerator] never has.
    - The statements on the prices of candles are made where the doubles of
      the source stay finite numbers: for volatility names outside
      [inherited_keys] (for those [volMap[volatility]] is not a number) and
      for candles that open in range ([opens_in_range]), or segments that
      start there.  A bound that the source meets only up to rounding is
      stated with room for it, and a count that the source takes as the
      floor of a rounded product is stated as a range.
    - [this.rng] (the seeded seedrandom stream) and [Math.random] (the
      unseeded one) are two streams [nat -> Q], each read through a cursor
      kept in [RandomState]; the generator functions live in a state monad
      over the two cursors, with failure for a run that does not finish.
    - [Math.sin], [Math.cos], [Math.log], [Math.sqrt] and [Math.PI] are taken
      as a record [MathLib]: the general theorems hold whatever these
      compute, and the worked runs at the end use a table of their values.
    - The two [while] loops of [gaussianRandom] redraw at most [fuel] times.
    - [Date.now()] is the parameter [Date_now] (milliseconds).
    - [console.log] calls and locals that are never read ([requiredDrift],
      [isGreen], the [progress] of [generatePumpDump]) have no effect on the
      result and are left out. *)

From Stdlib Require Import QArith Qabs Qround Qminmax Lqa Lia ZArith Bool List String.
Import ListNotations.
Open Scope string_scope.
Open Scope list_scope.
Open Scope Q_scope.

(** ** Numbers *)

Definition Qlt_bool (x y : Q) : bool := negb (Qle_bool y x).

(** [Math.max(...xs)] and [Math.min(...xs)] on a non-empty array; the head
    is the seed of the fold. *)
Definition Math_max (x : Q) (xs : list Q) : Q := fold_left Qmax xs x.
Definition Math_min (x : Q) (xs : list Q) : Q := fold_left Qmin xs x.

(** [ss.mean] of simple-statistics. *)
Definition mean (xs : list Q) : Q :=
  fold_right Qplus 0 xs / inject_Z (Z.of_nat (List.length xs)).

Definition ofNat (i : nat) : Q := inject_Z (Z.of_nat i).

Record MathLib := {
  Math_sin : Q -> Q;
  Math_cos : Q -> Q;
  Math_log : Q -> Q;
  Math_sqrt : Q -> Q;
  Math_PI : Q
}.

(** ** Data *)

Record Candle := {
  open : Q;
  high : Q;
  low : Q;
  close : Q;
  volume : Q
}.

Record TimedCandle := {
  time : Z;
  candle : Candle
}.

Record Metadata := {
  startMcap : Q;
  finalMcap : Q;
  peakMcap : Q;
  minMcap : Q;
  totalCandles : nat
}.

(** The [id] string is [chart_<Date.now()>_<base-36 digits of a Math.random
    draw>]; its two ingredients are kept instead of the formatted text. *)
Record ChartId := {
  id_now : Z;
  id_draw : Q
}.

(** [metadata = None] is the empty object [{}]. *)
Record ChartResult := {
  id : ChartId;
  scenario : string;
  data : list TimedCandle;
  metadata : option Metadata
}.

Record Options := {
  chartType : string;
  opt_scenario : string;
  volatility : string
}.

(** [options = {}]: the defaults of the destructuring in [generate]. *)
Definition default_options : Options :=
  {| chartType := "full"; opt_scenario := "random"; volatility := "medium" |}.

Record Phase := {
  name : string;
  phase_start : Q;
  phase_end : Q;
  bias : Q;
  volMult : Q
}.

(** [this.marketPhases], as the constructor fills it. *)
Definition marketPhases : list Phase := [
  {| name := "early_accumulation"; phase_start := 0.0; phase_end := 0.15;
     bias := 0.002; volMult := 0.6 |};
  {| name := "consolidation"; phase_start := 0.15; phase_end := 0.35;
     bias := 0.0; volMult := 0.4 |};
  {| name := "pullback"; phase_start := 0.35; phase_end := 0.45;
     bias := -0.003; volMult := 1.3 |};
  {| name := "recovery"; phase_start := 0.45; phase_end := 0.65;
     bias := 0.001; volMult := 1.1 |};
  {| name := "breakout"; phase_start := 0.65; phase_end := 0.8;
     bias := 0.003; volMult := 1.4 |};
  {| name := "final_push"; phase_start := 0.8; phase_end := 1.0;
     bias := 0.008; volMult := 1.5 |}
].

Definition INITIAL_MCAP : Q := 5000.
Definition BONDING_MCAP : Q := 100000.

(** [tbl[key] || dflt] for an object literal of non-zero numbers. *)
Fixpoint lookup (key : string) (tbl : list (string * Q)) : option Q :=
  match tbl with
  | [] => None
  | (k, v) :: rest => if String.eqb key k then Some v else lookup key rest
  end.

Definition or_default (o : option Q) (dflt : Q) : Q :=
  match o with Some v => v | None => dflt end.

(** ** The generation monad *)

Record RandomState := {
  rng_pos : nat;
  random_pos : nat
}.

Definition M (A : Type) : Type := RandomState -> option (A * RandomState).

Definition ret {A : Type} (a : A) : M A := fun w => Some (a, w).

Definition bind {A B : Type} (m : M A) (f : A -> M B) : M B :=
  fun w => match m w with
           | Some (a, w') => f a w'
           | None => None
           end.

Definition fail {A : Type} : M A := fun _ => None.

Definition liftO {A : Type} (o : option A) : M A :=
  match o with Some a => ret a | None => fail end.

Notation "x <- m ;; k" := (bind m (fun x => k))
  (at level 61, m at next level, right associativity).
Notation "' pat <- m ;; k" := (bind m (fun x => match x with pat => k end))
  (at level 61, pat pattern, m at next level, right associativity).

(** [for (let i = i0; i < i0 + n; i++) { ...; candles.push(c); }] with the
    loop-carried locals as [s]. *)
Fixpoint for_loop {St : Type} (body : nat -> St -> M (Candle * St))
    (n i : nat) (s : St) : M (list Candle * St) :=
  match n with
  | O => ret ([], s)
  | S n' =>
      '(c, s1) <- body i s ;;
      '(cs, s2) <- for_loop body n' (S i) s1 ;;
      ret (c :: cs, s2)
  end.

(** ** Concrete inputs

    Streams, a math library and a start state on which the generators are
    run in the examples below. *)

Definition start_state : RandomState := {| rng_pos := 0; random_pos := 0 |}.

(** A stream that always delivers one half. *)
Definition half_stream : nat -> Q := fun _ => 0.5.

(** A math library whose trigonometric and logarithmic functions are
    constant; enough wherever a theorem holds for every library. *)
Definition flat_math : MathLib :=
  {| Math_sin := fun _ => 0; Math_cos := fun _ => 1; Math_log := fun _ => 0;
     Math_sqrt := fun _ => 0; Math_PI := 3.141592653589793 |}.

(** A stream that always delivers one quarter. *)
Definition quarter_stream : nat -> Q := fun _ => 0.25.

(** One half everywhere but at position [k]. *)
Definition half_but (k : nat) (x : Q) : nat -> Q :=
  fun n => if Nat.eqb n k then x else 0.5.

(** The seeded stream of a chart whose second draw is 0.01: after the candle
    count, the first Gaussian sample is built from [u = 0.01], [v = 0.5]. *)
Definition crash_stream : nat -> Q := half_but 1 0.01.

(** The seeded stream of a pre-bonding run of 150 candles whose first
    Gaussian sample is built from [u = 0.0000001], [v = 0.5]: about -5.68
    standard deviations. *)
Definition plunge_stream : nat -> Q :=
  fun n => match n with
           | 0%nat => 0.001
           | 1%nat => 0.0000001
           | _ => 0.5
           end.

(** The seeded stream whose first draw asks for 501 post-bonding candles:
    [floor(0.0015 * 1001) + 500]. *)
Definition count501_stream : nat -> Q := half_but 0 0.0015.


(** Seeded streams whose first Gaussian sample of a post-bonding
    "slow_bleed", respectively "consolidation", chart is built from
    [u = 0.5], [v = 1/6]: about +0.59 standard deviations. *)
Definition bleed_up_stream : nat -> Q := half_but 3 (1 # 6).
Definition range_up_stream : nat -> Q := half_but 2 (1 # 6).

(** The seeded stream of a pre-bonding run of 150 candles whose first three
    shocks are about +2.84, 0 and +0.59 standard deviations. *)
Definition flip_stream : nat -> Q :=
  fun n => match n with
           | 0%nat => 0.001
           | 1%nat => 0.0000001
           | 2%nat => 1 # 6
           | 7%nat => 0.25
           | 12%nat => 1 # 6
           | _ => 0.5
           end.

(** A function given by a table of its values, [dflt] elsewhere. *)
Definition tabulated (entries : list (Q * Q)) (dflt : Q) (x : Q) : Q :=
  match find (fun e => Qeq_bool (fst e) x) entries with
  | Some e => snd e
  | None => dflt
  end.

(** The values of [Math.sin], [Math.cos], [Math.log] and [Math.sqrt] at the
    arguments the examples reach, to eight decimals. *)
Definition table_math : MathLib :=
  let pi := 3.141592653589793 in
  let ln_1em7 := -16.11809565 in
  let ln_001 := -4.60517019 in
  let ln_05 := -0.69314718 in
  let ln_015 := -1.89711998 in
  {| Math_sin := tabulated [(0, 0); (0.05, 0.04997917); (0.1, 0.09983342);
                            (0.15, 0.14943813)] 0;
     Math_cos := tabulated [(2.0 * pi * (1 # 6), 0.5); (2.0 * pi * 0.25, 0);
                            (2.0 * pi * 0.5, -1)] 1;
     Math_log := tabulated [(0.0000001, ln_1em7); (0.01, ln_001);
                            (0.15, ln_015); (0.5, ln_05)] 0;
     Math_sqrt := tabulated [(-2.0 * ln_1em7, 5.67769243);
                             (-2.0 * ln_001, 3.03485426);
                             (-2.0 * ln_05, 1.17741002)] 0;
     Math_PI := pi |}.

(** A seeded stream with zeros in it: two zeros before every non-zero
    number. *)
Definition sparse_stream : nat -> Q :=
  fun n => if Nat.eqb (n mod 3) 2 then 0.5 else 0.

(** The seeded stream of a pre-bonding run whose first Gaussian sample is
    built from [u = 0.5], [v = 0.25]: [cos(2 PI v)] is 0, and so is the
    sample. *)
Definition still_stream : nat -> Q := half_but 2 0.25.

(** The seeded stream of the deepest instant rug: the rug index is 30,
    every candle before it takes the lowest return there is, and the rug
    candle the smallest drop, 85%. *)
Definition worst_rug_stream : nat -> Q :=
  fun n => match n with
           | 0%nat => 0.5
           | 1%nat => 0.99
           | _ => 0
           end.

(** [marketPhases] with every [bias] set to zero. *)
Definition unbiasedPhases : list Phase :=
  map (fun p => {| name := name p; phase_start := phase_start p;
                   phase_end := phase_end p; bias := 0;
                   volMult := volMult p |}) marketPhases.

Definition post_options (scenario volatility : string) : Options :=
  {| chartType := "post"; opt_scenario := scenario;
     volatility := volatility |}.

(** Options with a chart type that [generate] does not know, and options
    with a volatility that no [volMap] lists. *)
Definition stray_options : Options :=
  {| chartType := "both"; opt_scenario := "organic"; volatility := "medium" |}.

Definition wild_options : Options :=
  {| chartType := "full"; opt_scenario := "organic"; volatility := "wild" |}.

(** A state whose [Math.random] cursor has moved on. *)
Definition later_state : RandomState := {| rng_pos := 0; random_pos := 7 |}.

Section Generator.

Set Default Proof Using "Type".

Variable math : MathLib.
Variable rng_stream : nat -> Q.
Variable random_stream : nat -> Q.
Variable fuel : nat.
Variable Date_now : Z.

(** [this.rng()] *)
Definition rng : M Q :=
  fun w => Some (rng_stream (rng_pos w),
                 {| rng_pos := S (rng_pos w); random_pos := random_pos w |}).

(** [Math.random()] *)
Definition Math_random : M Q :=
  fun w => Some (random_stream (random_pos w),
                 {| rng_pos := rng_pos w; random_pos := S (random_pos w) |}).

Definition random (min max : Q) : M Q :=
  r <- rng ;; ret (r * (max - min) + min).

Definition randomInt (min max : Z) : M Z :=
  r <- rng ;;
  ret (Qfloor (r * inject_Z (max - min + 1)) + min)%Z.

(** [let u = 0; while (u === 0) u = this.rng();] *)
Fixpoint rng_nonzero (n : nat) : M Q :=
  match n with
  | O => fail
  | S n' => u <- rng ;; if Qeq_bool u 0 then rng_nonzero n' else ret u
  end.

Definition gaussianRandom : M Q :=
  u <- rng_nonzero fuel ;;
  v <- rng_nonzero fuel ;;
  ret (Math_sqrt math (-2.0 * Math_log math u)
       * Math_cos math (2.0 * Math_PI math * v)).

(** *** Pre-bonding *)

Record PreState := {
  pre_currentMcap : Q;
  pre_volumeAvg : Q;
  shortTermMomentum : Q;
  longTermMemory : Q
}.

(** [phases.find(p => progress >= p.start && progress < p.end)
     || phases[phases.length - 1]] *)
Definition currentPhaseOf (phases : list Phase) (progress : Q) : option Phase :=
  match find (fun p => Qle_bool (phase_start p) progress
                       && Qlt_bool progress (phase_end p)) phases with
  | Some p => Some p
  | None => last (map Some phases) None
  end.

Definition expectedMcap (numCandles : Z) (i : nat) : Q :=
  let expectedProgress := ofNat i / inject_Z (numCandles - 1) in
  let zonePeak := BONDING_MCAP * 0.4 in
  let zoneProgress := Qmin (expectedProgress * 1.0) 1.0 in
  INITIAL_MCAP + (zonePeak - INITIAL_MCAP) * zoneProgress.

Definition hasBrokenOut (numCandles : Z) (i : nat) (currentMcap : Q) : bool :=
  let breakoutThreshold := expectedMcap numCandles i * 1.5 in
  Qlt_bool breakoutThreshold currentMcap.

Definition marketMemory (numCandles : Z) (i : nat) (currentMcap : Q) : Q :=
  if negb (hasBrokenOut numCandles i currentMcap) then
    let deviationPercent :=
      (expectedMcap numCandles i - currentMcap)
      / Qabs (if Qeq_bool currentMcap 0 then 1 else currentMcap) in
    deviationPercent * 0.008
  else 0.

(** The return of one pre-bonding candle, given the Gaussian draw. *)
Definition totalChangePercent (vol : Q) (phase : Phase) (numCandles : Z)
    (i : nat) (s : PreState) (gaussian : Q) : Q :=
  let baseVolatility := vol * volMult phase in
  let randomShock := gaussian * baseVolatility in
  let momentumInfluence := shortTermMomentum s * 0.2 in
  let memoryInfluence := longTermMemory s * 0.05 in
  let cyclePosition := Math_sin math (ofNat i * 0.05) * 0.5 in
  let cycleInfluence := cyclePosition * baseVolatility * 0.2 in
  randomShock + momentumInfluence + memoryInfluence + cycleInfluence
  + marketMemory numCandles i (pre_currentMcap s).

Definition preBondingStep (phases : list Phase) (vol : Q) (numCandles : Z)
    (i : nat) (s : PreState) : M (Candle * PreState) :=
  let currentMcap := pre_currentMcap s in
  let progress := ofNat i / inject_Z (numCandles - 1) in
  currentPhase <- liftO (currentPhaseOf phases progress) ;;
  g <- gaussianRandom ;;
  let total := totalChangePercent vol currentPhase numCandles i s g in
  let shortTermMomentum' := shortTermMomentum s * 0.85 + total * 0.15 in
  let longTermMemory' := longTermMemory s * 0.97 + total * 0.03 in
  let open := currentMcap in
  let close := open * (1 + total) in
  let preBondingCeiling := BONDING_MCAP * 1000 in
  let close := if Qlt_bool preBondingCeiling close
               then preBondingCeiling else close in
  let bodySize := Qabs (close - open) in
  r <- rng ;;
  let wickMultiplier := 0.5 + r * 0.8 in
  let highWick := bodySize * wickMultiplier in
  let lowWick := bodySize * wickMultiplier * 0.85 in
  let high := Qmax open close + highWick in
  let low := Qmin open close - lowWick in
  let maxSwing := Qmax (bodySize * 1.5) (currentMcap * 0.05) in
  let high := Qmin high (open + maxSwing) in
  let low := Qmax low (open - maxSwing) in
  let high := Qmin high preBondingCeiling in
  let low := Qmax low 0 in
  let baseVolume := pre_volumeAvg s in
  let volumeMultiplier := 1 + Qabs total * 3 in
  g2 <- gaussianRandom ;;
  let volumeNoise := g2 * 0.3 in
  let volume := baseVolume * volumeMultiplier * (1 + volumeNoise) in
  let volume := Qmax 10000 volume in
  let volumeAvg' := pre_volumeAvg s * 0.98 + volume * 0.02 in
  ret ({| open := open; high := high; low := low; close := close;
          volume := volume |},
       {| pre_currentMcap := close; pre_volumeAvg := volumeAvg';
          shortTermMomentum := shortTermMomentum';
          longTermMemory := longTermMemory' |}).

Definition preVolMap : list (string * Q) :=
  [("low", 0.08); ("medium", 0.15); ("high", 0.25); ("extreme", 0.35)].

(** The locals of [generatePreBonding] before its loop. *)
Definition preBondingStart : PreState :=
  {| pre_currentMcap := INITIAL_MCAP;
     pre_volumeAvg := mean [50000; 150000];
     shortTermMomentum := 0;
     longTermMemory := 0 |}.

Definition generatePreBonding (phases : list Phase) (volatility : string)
    : M (list Candle) :=
  numCandles <- randomInt 150 400 ;;
  let vol := or_default (lookup volatility preVolMap) 0.15 in
  '(candles, _) <- for_loop (preBondingStep phases vol numCandles)
                            (Z.to_nat numCandles) 0 preBondingStart ;;
  ret candles.

(** *** Post-bonding: organic *)

Record PostState := {
  post_currentMcap : Q;
  post_volumeAvg : Q
}.

(** [xs[idx]]; an index outside the array gives [undefined]. *)
Definition array_get {A : Type} (xs : list A) (idx : Z) : option A :=
  if (idx <? 0)%Z then None else nth_error xs (Z.to_nat idx).

Definition organicVolMap : list (string * Q) :=
  [("low", 0.012); ("medium", 0.02); ("high", 0.03); ("extreme", 0.04)].

Definition organicStep (vol : Q) (i : nat) (s : PostState)
    : M (Candle * PostState) :=
  let currentMcap := post_currentMcap s in
  let meanReversionLevel := BONDING_MCAP in
  let meanReversionSpeed := 0.05 in
  let deviation := (currentMcap - meanReversionLevel) / meanReversionLevel in
  let meanReversionForce := - deviation * meanReversionSpeed in
  g <- gaussianRandom ;;
  let diffusion := g * vol in
  let organicDrift := 0.0005 in
  let cycle := Math_sin math (ofNat i * 0.02) * vol * 0.2 in
  let change := meanReversionForce + diffusion + organicDrift + cycle in
  let open := currentMcap in
  let close := open * (1 + change) in
  let close := if Qlt_bool BONDING_MCAP close then BONDING_MCAP else close in
  let bodySize := Qabs (close - open) in
  let wickMultipliers := [0.2; 0.4; 0.6; 0.8] in
  r <- rng ;;
  wickMultiplier <- liftO (array_get wickMultipliers
                             (Qfloor (r * ofNat (List.length wickMultipliers)))) ;;
  r1 <- rng ;;
  let high := Qmax open close + bodySize * wickMultiplier * r1 in
  r2 <- rng ;;
  let low := Qmin open close - bodySize * wickMultiplier * r2 * 0.7 in
  let high := Qmin high (BONDING_MCAP * 1.005) in
  let low := Qmax low (currentMcap * 0.9) in
  let baseVolume := post_volumeAvg s in
  let volumeMultiplier := 1 + Qabs change * 2 in
  g2 <- gaussianRandom ;;
  let volumeNoise := g2 * 0.25 in
  let volume := baseVolume * volumeMultiplier * (1 + volumeNoise) in
  let volume := Qmax 15000 volume in
  let volumeAvg' := post_volumeAvg s * 0.99 + volume * 0.01 in
  ret ({| open := open; high := high; low := low; close := close;
          volume := volume |},
       {| post_currentMcap := close; post_volumeAvg := volumeAvg' |}).

Definition generateOrganic (startMcap : Q) (numCandles : Z)
    (volatility : string) : M (list Candle) :=
  let vol := or_default (lookup volatility organicVolMap) 0.02 in
  let s0 := {| post_currentMcap := startMcap;
               post_volumeAvg := mean [80000; 120000] |} in
  '(candles, _) <- for_loop (organicStep vol) (Z.to_nat numCandles) 0 s0 ;;
  ret candles.

(** *** Post-bonding: pump and dump *)

Record PumpPhase := {
  pd_name : string;
  duration : Z;
  drift : Q;
  pd_volMult : Q
}.

Record PumpState := {
  pd_currentMcap : Q;
  pd_volumeAvg : Q;
  candleCount : Z
}.

Definition pumpVolMap : list (string * Q) :=
  [("low", 0.025); ("medium", 0.035); ("high", 0.045); ("extreme", 0.055)].

Definition pumpPhases (numCandles : Z) : list PumpPhase := [
  {| pd_name := "accumulation";
     duration := Qfloor (inject_Z numCandles * 0.25);
     drift := 0.002; pd_volMult := 0.8 |};
  {| pd_name := "pump";
     duration := Qfloor (inject_Z numCandles * 0.25);
     drift := 0.008; pd_volMult := 2.0 |};
  {| pd_name := "distribution";
     duration := Qfloor (inject_Z numCandles * 0.15);
     drift := -0.001; pd_volMult := 1.5 |};
  {| pd_name := "dump";
     duration := Qfloor (inject_Z numCandles * 0.35);
     drift := -0.015; pd_volMult := 2.5 |}
].

Definition pumpDumpStep (vol : Q) (phase : PumpPhase) (i : nat)
    (s : PumpState) : M (Candle * PumpState) :=
  let currentMcap := pd_currentMcap s in
  let phaseDrift := drift phase in
  let phaseDrift :=
    if String.eqb (pd_name phase) "pump" then
      let distanceToCeiling := (BONDING_MCAP - currentMcap) / currentMcap in
      if Qlt_bool distanceToCeiling 0.05 then phaseDrift * 0.3 else phaseDrift
    else phaseDrift in
  g <- gaussianRandom ;;
  let noise := g * vol * pd_volMult phase in
  let change := phaseDrift + noise in
  let open := currentMcap in
  let close := open * (1 + change) in
  close <- (if Qlt_bool BONDING_MCAP close then
              if String.eqb (pd_name phase) "pump" then
                r <- rng ;; ret (BONDING_MCAP * (0.995 + r * 0.01))
              else ret BONDING_MCAP
            else ret close) ;;
  let bodySize := Qabs (close - open) in
  let wickMultiplier := pd_volMult phase * 0.8 in
  r1 <- rng ;;
  let high := Qmax open close + bodySize * wickMultiplier * r1 in
  r2 <- rng ;;
  let low := Qmin open close - bodySize * wickMultiplier * r2 * 0.6 in
  let high := Qmin high (BONDING_MCAP * 1.01) in
  let low := Qmax low (currentMcap * 0.85) in
  let baseVolume := pd_volumeAvg s * pd_volMult phase in
  let volumeMultiplier := 1 + Qabs change * 4 in
  g2 <- gaussianRandom ;;
  let volumeNoise := g2 * 0.4 in
  let volume := baseVolume * volumeMultiplier * (1 + volumeNoise) in
  let volume := Qmax 20000 volume in
  let volumeAvg' := pd_volumeAvg s * 0.98 + volume * 0.02 in
  ret ({| open := open; high := high; low := low; close := close;
          volume := volume |},
       {| pd_currentMcap := close; pd_volumeAvg := volumeAvg';
          candleCount := (candleCount s + 1)%Z |}).

(** [for (let i = i0; i < phase.duration && candleCount < numCandles; i++)],
    with [n] the iterations left before [i] reaches [phase.duration]. *)
Fixpoint pumpPhaseLoop (vol : Q) (numCandles : Z) (phase : PumpPhase)
    (n i : nat) (s : PumpState) : M (list Candle * PumpState) :=
  match n with
  | O => ret ([], s)
  | S n' =>
      if (candleCount s <? numCandles)%Z then
        '(c, s1) <- pumpDumpStep vol phase i s ;;
        '(cs, s2) <- pumpPhaseLoop vol numCandles phase n' (S i) s1 ;;
        ret (c :: cs, s2)
      else ret ([], s)
  end.

(** [for (const phase of phases) { ... }] *)
Fixpoint pumpPhasesLoop (vol : Q) (numCandles : Z) (phases : list PumpPhase)
    (s : PumpState) : M (list Candle * PumpState) :=
  match phases with
  | [] => ret ([], s)
  | phase :: rest =>
      '(cs1, s1) <- pumpPhaseLoop vol numCandles phase
                      (Z.to_nat (duration phase)) 0 s ;;
      '(cs2, s2) <- pumpPhasesLoop vol numCandles rest s1 ;;
      ret (cs1 ++ cs2, s2)
  end.

Definition generatePumpDump (startMcap : Q) (numCandles : Z)
    (volatility : string) : M (list Candle) :=
  let vol := or_default (lookup volatility pumpVolMap) 0.035 in
  let s0 := {| pd_currentMcap := startMcap;
               pd_volumeAvg := mean [100000; 150000];
               candleCount := 0 |} in
  '(candles, _) <- pumpPhasesLoop vol numCandles (pumpPhases numCandles) s0 ;;
  ret candles.

(** *** Post-bonding: instant rug *)

Definition rugVolMap : list (string * Q) :=
  [("low", 0.01); ("medium", 0.02); ("high", 0.03); ("extreme", 0.04)].

Definition instantRugStep (vol : Q) (rugPoint : Z) (i : nat) (currentMcap : Q)
    : M (Candle * Q) :=
  '(change, volume) <-
    (if (Z.of_nat i <? rugPoint)%Z then
       change <- random (- vol * 0.5) (vol * 1.5) ;;
       m <- Math_random ;;
       ret (change, 100000 + m * 50000)
     else if (Z.of_nat i =? rugPoint)%Z then
       r <- random 0.85 0.95 ;;
       m <- Math_random ;;
       ret (- r, 500000 + m * 500000)
     else
       change <- random (-0.001) 0.001 ;;
       m <- Math_random ;;
       ret (change, 1000 + m * 5000)) ;;
  let open := currentMcap in
  let close := Qmax (INITIAL_MCAP * 0.1) (open * (1 + change)) in
  let wickFactor := if (Z.of_nat i =? rugPoint)%Z then 0.2 else 0.5 in
  let wickSize := vol * currentMcap * wickFactor in
  m1 <- Math_random ;;
  let high := Qmax open close + m1 * wickSize in
  m2 <- Math_random ;;
  let low := Qmin open close - m2 * wickSize * 2 in
  ret ({| open := open; high := high; low := low; close := close;
          volume := volume |}, close).

Definition generateInstantRug (startMcap : Q) (numCandles : Z)
    (volatility : string) : M (list Candle) :=
  rugPoint <- randomInt 10 30 ;;
  let vol := or_default (lookup volatility rugVolMap) 0.02 in
  '(candles, _) <- for_loop (instantRugStep vol rugPoint)
                            (Z.to_nat numCandles) 0 startMcap ;;
  ret candles.

(** *** Post-bonding: slow bleed *)

Definition bleedVolMap : list (string * Q) :=
  [("low", 0.01); ("medium", 0.015); ("high", 0.02); ("extreme", 0.025)].

Definition slowBleedStep (vol baseDecline : Q) (numCandles : Z) (i : nat)
    (currentMcap : Q) : M (Candle * Q) :=
  let progress := ofNat i / inject_Z numCandles in
  let decline := baseDecline * (1 + progress * 2) in
  m <- Math_random ;;
  let hasRally := Qlt_bool m 0.08 in
  rally <- (if hasRally then
              g <- gaussianRandom ;; ret (Qabs g * vol * 2)
            else ret 0) ;;
  g <- gaussianRandom ;;
  let noise := g * vol in
  let change := decline + noise + rally in
  let open := currentMcap in
  let close := Qmax (INITIAL_MCAP * 0.5) (open * (1 + change)) in
  let wickSize := vol * currentMcap * 0.5 in
  m1 <- Math_random ;;
  let high := Qmax open close + m1 * wickSize in
  m2 <- Math_random ;;
  let low := Qmin open close - m2 * wickSize in
  m3 <- Math_random ;;
  let volume := 100000 - progress * 70000 + m3 * 30000 in
  ret ({| open := open; high := high; low := low; close := close;
          volume := volume |}, close).

Definition generateSlowBleed (startMcap : Q) (numCandles : Z)
    (volatility : string) : M (list Candle) :=
  let vol := or_default (lookup volatility bleedVolMap) 0.015 in
  r <- random 0.1 0.2 ;;
  let targetMcap := startMcap * r in
  let totalDecline := Math_log math (targetMcap / startMcap) in
  let baseDecline := totalDecline / inject_Z numCandles in
  '(candles, _) <- for_loop (slowBleedStep vol baseDecline numCandles)
                            (Z.to_nat numCandles) 0 startMcap ;;
  ret candles.

(** *** Post-bonding: consolidation and breakout *)

Definition consolidationVolMap : list (string * Q) :=
  [("low", 0.008); ("medium", 0.012); ("high", 0.016); ("extreme", 0.02)].

Definition consolidationStep (vol : Q) (numCandles consolidationEnd : Z)
    (breakoutUp : bool) (rangeCenter : Q) (i : nat) (currentMcap : Q)
    : M (Candle * Q) :=
  '(change, volume) <-
    (if (Z.of_nat i <? consolidationEnd)%Z then
       let rangeProgress := ofNat i / inject_Z consolidationEnd in
       let rangeTightening := 1 - rangeProgress * 0.5 in
       let distFromCenter := (currentMcap - rangeCenter) / rangeCenter in
       let pullToCenter := - distFromCenter * 0.1 in
       g <- gaussianRandom ;;
       let change := pullToCenter
                     + Math_sin math (ofNat i * 0.15) * vol * rangeTightening
                     + g * vol * 0.5 in
       m <- Math_random ;;
       ret (change, 60000 + m * 40000)
     else
       let breakoutProgress :=
         (ofNat i - inject_Z consolidationEnd)
         / inject_Z (numCandles - consolidationEnd) in
       let breakoutStrength :=
         (if breakoutUp then 0.008 else -0.008) * (1 + breakoutProgress) in
       g <- gaussianRandom ;;
       let change := breakoutStrength + g * vol in
       m <- Math_random ;;
       ret (change, 150000 + m * 100000)) ;;
  let open := currentMcap in
  let close := open * (1 + change) in
  let wickSize := vol * currentMcap * 0.3 in
  m1 <- Math_random ;;
  let high := Qmax open close + m1 * wickSize in
  m2 <- Math_random ;;
  let low := Qmin open close - m2 * wickSize in
  ret ({| open := open; high := high; low := low; close := close;
          volume := volume |}, close).

Definition generateConsolidation (startMcap : Q) (numCandles : Z)
    (volatility : string) : M (list Candle) :=
  let vol := or_default (lookup volatility consolidationVolMap) 0.012 in
  let consolidationEnd := Qfloor (inject_Z numCandles * 0.7) in
  m <- Math_random ;;
  let breakoutUp := Qlt_bool 0.5 m in
  let rangeHigh := startMcap * 1.1 in
  let rangeLow := startMcap * 0.9 in
  let rangeCenter := (rangeHigh + rangeLow) / 2 in
  '(candles, _) <- for_loop (consolidationStep vol numCandles consolidationEnd
                               breakoutUp rangeCenter)
                            (Z.to_nat numCandles) 0 startMcap ;;
  ret candles.

(** *** Dispatch, metadata and the entry point *)

(** The [switch (scenario)] of [generatePostBonding] after the count is
    drawn. *)
Definition scenarioGenerator (scenario : string)
    : Q -> Z -> string -> M (list Candle) :=
  if String.eqb scenario "organic" then generateOrganic
  else if String.eqb scenario "pump_dump" then generatePumpDump
  else if String.eqb scenario "instant_rug" then generateInstantRug
  else if String.eqb scenario "slow_bleed" then generateSlowBleed
  else if String.eqb scenario "consolidation" then generateConsolidation
  else generateOrganic.

Definition generatePostBonding (startMcap : Q) (scenario volatility : string)
    : M (list Candle) :=
  numCandles <- randomInt 500 1500 ;;
  scenarioGenerator scenario startMcap numCandles volatility.

Definition calculateMetadata (data : list Candle) : option Metadata :=
  match map close data with
  | [] => None
  | first :: rest =>
      Some {| startMcap := first;
              finalMcap := last rest first;
              peakMcap := Math_max first rest;
              minMcap := Math_min first rest;
              totalCandles := List.length data |}
  end.

Definition scenarios : list string :=
  ["organic"; "pump_dump"; "instant_rug"; "slow_bleed"; "consolidation"].

(** [data.map((candle, i) => ({time: now - (data.length - i) * 60, ...}))] *)
Fixpoint stamp (now : Z) (len : nat) (i : nat) (data : list Candle)
    : list TimedCandle :=
  match data with
  | [] => []
  | c :: rest =>
      {| time := (now - (Z.of_nat len - Z.of_nat i) * 60)%Z; candle := c |}
      :: stamp now len (S i) rest
  end.

(** [data.length > 0 ? data[data.length - 1].close : dflt] *)
Definition lastClose (dflt : Q) (data : list Candle) : Q :=
  match data with
  | [] => dflt
  | c :: rest => close (last rest c)
  end.

Definition postStartMcap (data : list Candle) : Q :=
  lastClose BONDING_MCAP data.

(** [scenario === "random"
      ? scenarios[Math.floor(Math.random() * scenarios.length)] : scenario] *)
Definition finalScenario (scenario : string) : M string :=
  if String.eqb scenario "random" then
    m <- Math_random ;;
    liftO (array_get scenarios (Qfloor (m * ofNat (List.length scenarios))))
  else ret scenario.

Definition generate (phases : list Phase) (options : Options)
    : M ChartResult :=
  finalScenario <- finalScenario (opt_scenario options) ;;
  m_id <- Math_random ;;
  let data := [] in
  data <-
    (if String.eqb (chartType options) "full"
        || String.eqb (chartType options) "pre" then
       preBonding <- generatePreBonding phases (volatility options) ;;
       ret (data ++ preBonding)
     else ret data) ;;
  data <-
    (if String.eqb (chartType options) "full"
        || String.eqb (chartType options) "post" then
       postBonding <- generatePostBonding (postStartMcap data) finalScenario
                        (volatility options) ;;
       ret (data ++ postBonding)
     else ret data) ;;
  let now := Qfloor (inject_Z Date_now / 1000) in
  ret {| id := {| id_now := Date_now; id_draw := m_id |};
         scenario := finalScenario;
         data := stamp now (List.length data) 0 data;
         metadata := calculateMetadata data |}.

(** ** Predicates of the statements *)

(** A computation that returns from every state. *)
Definition total {A : Type} (m : M A) : Prop :=
  forall w, exists r, m w = Some r.

(** Every candle opens where the one before closed, the first at [start]. *)
Fixpoint chained (start : Q) (cs : list Candle) : Prop :=
  match cs with
  | [] => True
  | c :: rest => open c = start /\ chained (close c) rest
  end.

(** What the [for ... of phases] loop emits when the [candleCount] guard
    never fires. *)
Definition phaseCandles (phases : list PumpPhase) : nat :=
  fold_right (fun ph acc => (Z.to_nat (duration ph) + acc)%nat) 0%nat phases.

(** The two tests of [generate] on [chartType]. *)
Definition wantsPre (options : Options) : bool :=
  String.eqb (chartType options) "full" || String.eqb (chartType options) "pre".

Definition wantsPost (options : Options) : bool :=
  String.eqb (chartType options) "full" || String.eqb (chartType options) "post".

(** Two phase tables that differ at most in their [bias] fields. *)
Definition agree_but_bias (p q : Phase) : Prop :=
  name p = name q /\ phase_start p = phase_start q
  /\ phase_end p = phase_end q /\ volMult p = volMult q.

(** One of the five names of the [switch] in [generatePostBonding]. *)
Definition known_scenario (sc : string) : bool :=
  existsb (String.eqb sc) scenarios.




(** A candle that opens at a capitalization the generators are written for:
    above zero and not above the pre-bonding ceiling.  At a capitalization
    of zero or below, or beyond every ceiling, the formulas of the source
    divide by zero or leave the finite doubles; the statements on the
    prices of a candle are made for the candles that open in this range. *)
Definition opens_in_range (c : Candle) : Prop :=
  0 < open c /\ open c <= BONDING_MCAP * 1000.

(** The state [w] with the [Math.random] cursor at [p]. *)
Definition with_random_pos (p : nat) (w : RandomState) : RandomState :=
  {| rng_pos := rng_pos w; random_pos := p |}.

(** A computation that reads the seeded stream only: moving the
    [Math.random] cursor changes nothing but that cursor. *)
Definition seeded {A : Type} (m : M A) : Prop :=
  forall w p,
    m (with_random_pos p w)
    = match m w with
      | Some (a, w') => Some (a, with_random_pos p w')
      | None => None
      end.

(** Options under which [generate] takes its candles from the seeded
    stream alone: the scenario is given by name, and the post-bonding
    segment, if there is one, is made by [generateOrganic] or
    [generatePumpDump]. *)
Definition seeded_run (options : Options) : bool :=
  negb (String.eqb (opt_scenario options) "random")
  && (negb (wantsPost options)
      || negb (existsb (String.eqb (opt_scenario options))
                 ["instant_rug"; "slow_bleed"; "consolidation"])).

(** The keys of every [volMap] literal, and the property names an object
    literal inherits from [Object.prototype]: for those [volMap[key]] is a
    function or an object, not [undefined]. *)
Definition volatility_levels : list string :=
  ["low"; "medium"; "high"; "extreme"].

Definition inherited_keys : list string :=
  ["constructor"; "hasOwnProperty"; "isPrototypeOf"; "propertyIsEnumerable";
   "toLocaleString"; "toString"; "valueOf"; "__proto__";
   "__defineGetter__"; "__defineSetter__"; "__lookupGetter__";
   "__lookupSetter__"].

(** ** Reasoning about runs *)

Lemma Qlt_bool_iff (x y : Q) : Qlt_bool x y = true <-> x < y.
Proof.
  unfold Qlt_bool. rewrite negb_true_iff.
  destruct (Qle_bool y x) eqn:E.
  - apply Qle_bool_iff in E. split; [discriminate | intro; lra].
  - split; [intros _ | reflexivity].
    apply Qnot_le_lt. intro H. apply Qle_bool_iff in H. congruence.
Qed.

Lemma Qlt_bool_false (x y : Q) : Qlt_bool x y = false <-> y <= x.
Proof.
  unfold Qlt_bool. rewrite negb_false_iff. apply Qle_bool_iff.
Qed.

Lemma bind_inv {A B : Type} (m : M A) (f : A -> M B) w r :
  bind m f w = Some r ->
  exists a w1, m w = Some (a, w1) /\ f a w1 = Some r.
Proof.
  unfold bind. destruct (m w) as [[a w1]|]; [|discriminate].
  intros H. exists a, w1. auto.
Qed.

Lemma Some_eq_inv {A : Type} (a b : A) : Some a = Some b -> a = b.
Proof. intros H. now inversion H. Qed.

Lemma ret_inv {A : Type} (a : A) w r : ret a w = Some r -> r = (a, w).
Proof. unfold ret. congruence. Qed.

Lemma liftO_inv {A : Type} (o : option A) w r :
  liftO o w = Some r -> exists a, o = Some a /\ r = (a, w).
Proof.
  destruct o as [a|]; simpl; [|discriminate].
  intros H. apply ret_inv in H. eauto.
Qed.

(** Decompose a successful run of a monadic term into its steps. *)
Ltac minv H :=
  let a := fresh "v" in
  let w := fresh "w" in
  let H1 := fresh "Hrun" in
  cbv beta zeta in H;
  lazymatch type of H with
  | bind _ _ _ = Some _ =>
      apply bind_inv in H; destruct H as (a & w & H1 & H); minv H1; minv H
  | ret _ _ = Some _ => apply ret_inv in H
  | liftO _ _ = Some _ =>
      apply liftO_inv in H; destruct H as (a & H1 & H)
  | (match ?p with pair _ _ => _ end) _ = Some _ =>
      destruct p; minv H
  | _ => idtac
  end.

Ltac pair_inv H :=
  repeat match type of H with
  | (_, _) = (_, _) =>
      let H' := fresh in
      apply pair_equal_spec in H; destruct H as [H H']; try subst
  end; try subst.

Lemma total_ret {A : Type} (a : A) : total (ret a).
Proof. intros w. eexists. reflexivity. Qed.

Lemma total_bind {A B : Type} (m : M A) (f : A -> M B) :
  total m -> (forall a, total (f a)) -> total (bind m f).
Proof.
  intros Hm Hf w. destruct (Hm w) as [[a w1] E].
  unfold bind. rewrite E. apply Hf.
Qed.

Lemma total_rng : total rng.
Proof. intros w. eexists. reflexivity. Qed.

Lemma total_Math_random : total Math_random.
Proof. intros w. eexists. reflexivity. Qed.

Lemma total_random (lo hi : Q) : total (random lo hi).
Proof.
  apply total_bind; [apply total_rng | intros; apply total_ret].
Qed.

Lemma total_randomInt (lo hi : Z) : total (randomInt lo hi).
Proof.
  apply total_bind; [apply total_rng | intros; apply total_ret].
Qed.

Lemma for_loop_total {St : Type} (body : nat -> St -> M (Candle * St)) :
  (forall i s, total (body i s)) ->
  forall n i s, total (for_loop body n i s).
Proof.
  intros Hb n. induction n as [|n IH]; intros i s; simpl.
  - apply total_ret.
  - apply total_bind; [apply Hb|]. intros [c s1].
    apply total_bind; [apply IH|]. intros [cs s2]. apply total_ret.
Qed.

Lemma for_loop_O_inv {St : Type} (body : nat -> St -> M (Candle * St))
    i s w cs s' w' :
  for_loop body 0 i s w = Some (cs, s', w') -> cs = [] /\ s' = s /\ w' = w.
Proof. simpl. intros H. apply ret_inv in H. now inversion H. Qed.

Lemma for_loop_S_inv {St : Type} (body : nat -> St -> M (Candle * St))
    n i s w cs s' w' :
  for_loop body (S n) i s w = Some (cs, s', w') ->
  exists c s1 w1 cs1,
    body i s w = Some (c, s1, w1)
    /\ for_loop body n (S i) s1 w1 = Some (cs1, s', w')
    /\ cs = c :: cs1.
Proof.
  simpl. intros H.
  apply bind_inv in H. destruct H as ([c s1] & w1 & Hb & H).
  apply bind_inv in H. destruct H as ([cs1 s2] & w2 & Hl & H).
  apply ret_inv in H. inversion H; subst.
  exists c, s1, w1, cs1. auto.
Qed.

Lemma for_loop_length {St : Type} (body : nat -> St -> M (Candle * St)) :
  forall n i s w cs s' w',
    for_loop body n i s w = Some (cs, s', w') -> List.length cs = n.
Proof.
  induction n as [|n IH]; intros i s w cs s' w' H.
  - apply for_loop_O_inv in H. now destruct H as (-> & _).
  - apply for_loop_S_inv in H.
    destruct H as (c & s1 & w1 & cs1 & _ & Hl & ->).
    simpl. f_equal. eauto.
Qed.

(** A step that keeps [I] and gives its candle [P] does so along the whole
    loop. *)
Lemma for_loop_nth {St : Type} (body : nat -> St -> M (Candle * St))
    (I : nat -> St -> Prop) (P : nat -> Candle -> Prop) :
  (forall i s w c s' w',
      I i s -> body i s w = Some (c, s', w') -> P i c /\ I (S i) s') ->
  forall n i s w cs s' w',
    I i s -> for_loop body n i s w = Some (cs, s', w') ->
    I (i + n)%nat s' /\
    forall k c, nth_error cs k = Some c -> P (i + k)%nat c.
Proof.
  intros Hstep n. induction n as [|n IH]; intros i s w cs s' w' HI H.
  - apply for_loop_O_inv in H. destruct H as (-> & -> & _).
    rewrite Nat.add_0_r.
    split; [assumption|]. intros [|k] c Hk; discriminate.
  - apply for_loop_S_inv in H.
    destruct H as (c & s1 & w1 & cs1 & Hrun & Hrun0 & ->).
    destruct (Hstep _ _ _ _ _ _ HI Hrun) as [Hc HI1].
    destruct (IH _ _ _ _ _ _ HI1 Hrun0) as [HI2 Hrest].
    rewrite Nat.add_succ_r. split; [assumption|].
    intros [|k] c0 Hk; simpl in Hk.
    + inversion Hk; subst. now rewrite Nat.add_0_r.
    + rewrite Nat.add_succ_r. apply (Hrest k c0 Hk).
Qed.

Lemma for_loop_Forall {St : Type} (body : nat -> St -> M (Candle * St))
    (P : Candle -> Prop) :
  (forall i s w c s' w', body i s w = Some (c, s', w') -> P c) ->
  forall n i s w cs s' w',
    for_loop body n i s w = Some (cs, s', w') -> Forall P cs.
Proof.
  intros Hstep n i s w cs s' w' H.
  destruct (for_loop_nth body (fun _ _ => True) (fun _ => P)) with
    (n := n) (i := i) (s := s) (w := w) (cs := cs) (s' := s') (w' := w')
    as [_ Hn]; auto.
  - intros. split; eauto.
  - apply Forall_forall. intros c Hin.
    apply In_nth_error in Hin. destruct Hin as [k Hk]. eauto.
Qed.

Lemma for_loop_ext {St : Type} (body1 body2 : nat -> St -> M (Candle * St)) :
  (forall i s w, body1 i s w = body2 i s w) ->
  forall n i s w, for_loop body1 n i s w = for_loop body2 n i s w.
Proof.
  intros Hb n. induction n as [|n IH]; intros i s w; simpl; [reflexivity|].
  unfold bind. rewrite Hb. destruct (body2 i s w) as [[[c s1] w1]|];
    [|reflexivity].
  rewrite IH. reflexivity.
Qed.

(** *** Continuity of a candle sequence *)

Lemma last_cons_default {A : Type} (l : list A) (x d : A) :
  last (x :: l) d = last l x.
Proof.
  revert x d. induction l as [|y l IH]; intros x d; [reflexivity|].
  change (last (x :: y :: l) d) with (last (y :: l) d).
  now rewrite !IH.
Qed.

Lemma lastClose_cons (d : Q) (c : Candle) (cs : list Candle) :
  lastClose d (c :: cs) = lastClose (close c) cs.
Proof.
  destruct cs as [|c1 cs]; [reflexivity|].
  unfold lastClose. now rewrite last_cons_default.
Qed.

Lemma chained_app (a : Q) (xs ys : list Candle) :
  chained a (xs ++ ys) <-> chained a xs /\ chained (lastClose a xs) ys.
Proof.
  revert a. induction xs as [|c xs IH]; intros a.
  - simpl. split; [intros H; split; [exact I | exact H] | intros [_ H]; exact H].
  - rewrite lastClose_cons. simpl. split.
    + intros (Ho & H). apply IH in H. destruct H as [Hx Hy].
      repeat split; assumption.
    + intros ((Ho & Hx) & Hy). split; [assumption|]. apply IH.
      split; assumption.
Qed.

Lemma lastClose_app (a : Q) (xs ys : list Candle) :
  lastClose a (xs ++ ys) = lastClose (lastClose a xs) ys.
Proof.
  revert a. induction xs as [|c xs IH]; intros a; [reflexivity|].
  change ((c :: xs) ++ ys) with (c :: (xs ++ ys)).
  now rewrite !lastClose_cons, IH.
Qed.

Lemma chained_nth (a : Q) (cs : list Candle) :
  chained a cs ->
  forall i c1 c2,
    nth_error cs i = Some c1 -> nth_error cs (S i) = Some c2 ->
    open c2 = close c1.
Proof.
  revert a. induction cs as [|c cs IH]; intros a Hc i c1 c2 H1 H2.
  - destruct i; discriminate.
  - destruct Hc as [_ Hc]. destruct i as [|i].
    + simpl in H1, H2. inversion H1; subst c1.
      destruct cs as [|c' cs]; [discriminate|].
      simpl in H2. inversion H2; subst. apply Hc.
    + simpl in H1. change (nth_error cs (S i) = Some c2) in H2. eauto.
Qed.

Lemma for_loop_chained {St : Type} (body : nat -> St -> M (Candle * St))
    (cur : St -> Q) :
  (forall i s w c s' w',
      body i s w = Some (c, s', w') -> open c = cur s /\ close c = cur s') ->
  forall n i s w cs s' w',
    for_loop body n i s w = Some (cs, s', w') ->
    chained (cur s) cs /\ cur s' = lastClose (cur s) cs.
Proof.
  intros Hstep n. induction n as [|n IH]; intros i s w cs s' w' H.
  - apply for_loop_O_inv in H. destruct H as (-> & -> & _). simpl. auto.
  - apply for_loop_S_inv in H.
    destruct H as (c & s1 & w1 & cs1 & Hrun & Hrun0 & ->).
    destruct (Hstep _ _ _ _ _ _ Hrun) as [Ho Hc].
    destruct (IH _ _ _ _ _ _ Hrun0) as [Hch Hl].
    rewrite lastClose_cons, Hc. simpl. rewrite Hc. auto.
Qed.

(** *** Each step opens at the current capitalization and hands its close
    to the next one *)

Lemma preBondingStep_link phases vol numCandles i s w c s' w' :
  preBondingStep phases vol numCandles i s w = Some (c, s', w') ->
  open c = pre_currentMcap s /\ close c = pre_currentMcap s'.
Proof.
  unfold preBondingStep. intros H. minv H.
  inversion H; subst. split; reflexivity.
Qed.

Lemma organicStep_link vol i s w c s' w' :
  organicStep vol i s w = Some (c, s', w') ->
  open c = post_currentMcap s /\ close c = post_currentMcap s'.
Proof.
  unfold organicStep. intros H. minv H.
  inversion H; subst. split; reflexivity.
Qed.

Lemma pumpDumpStep_link vol phase i s w c s' w' :
  pumpDumpStep vol phase i s w = Some (c, s', w') ->
  open c = pd_currentMcap s /\ close c = pd_currentMcap s'.
Proof.
  unfold pumpDumpStep. intros H. minv H.
  inversion H; subst. split; reflexivity.
Qed.

Lemma instantRugStep_link vol rugPoint i s w c s' w' :
  instantRugStep vol rugPoint i s w = Some (c, s', w') ->
  open c = s /\ close c = s'.
Proof.
  unfold instantRugStep. intros H. minv H.
  inversion H; subst. split; reflexivity.
Qed.

Lemma slowBleedStep_link vol baseDecline numCandles i s w c s' w' :
  slowBleedStep vol baseDecline numCandles i s w = Some (c, s', w') ->
  open c = s /\ close c = s'.
Proof.
  unfold slowBleedStep. intros H. minv H.
  inversion H; subst. split; reflexivity.
Qed.

Lemma consolidationStep_link vol numCandles cEnd up center i s w c s' w' :
  consolidationStep vol numCandles cEnd up center i s w = Some (c, s', w') ->
  open c = s /\ close c = s'.
Proof.
  unfold consolidationStep. intros H. minv H.
  inversion H; subst. split; reflexivity.
Qed.

(** *** Draws from well-formed streams *)

(** Both generators deliver numbers in [0,1), and the seeded one delivers a
    non-zero number within [fuel] draws from any position. *)
Hypothesis rng_range : forall n, 0 <= rng_stream n /\ rng_stream n < 1.
Hypothesis random_range : forall n, 0 <= random_stream n /\ random_stream n < 1.
Hypothesis rng_productive :
  forall n, exists k, (k < fuel)%nat /\ ~ rng_stream (n + k)%nat == 0.

Lemma rng_inv w r w' :
  rng w = Some (r, w') ->
  r = rng_stream (rng_pos w) /\ 0 <= r /\ r < 1.
Proof using Type rng_range.
  unfold rng. intros H. inversion H; subst.
  destruct (rng_range (rng_pos w)). auto.
Qed.

Lemma Math_random_inv w r w' :
  Math_random w = Some (r, w') ->
  r = random_stream (random_pos w) /\ 0 <= r /\ r < 1.
Proof using Type random_range.
  unfold Math_random. intros H. inversion H; subst.
  destruct (random_range (random_pos w)). auto.
Qed.

Lemma floor_index (r : Q) (n : nat) :
  0 <= r -> r < 1 -> (0 < n)%nat ->
  (0 <= Qfloor (r * ofNat n) < Z.of_nat n)%Z.
Proof.
  intros H0 H1 Hn.
  assert (Hn' : 0 < ofNat n).
  { unfold ofNat. change 0 with (inject_Z 0). rewrite <- Zlt_Qlt. lia. }
  split.
  - change 0%Z with (Qfloor (inject_Z 0)).
    apply Qfloor_resp_le. change (inject_Z 0) with 0. nra.
  - rewrite Zlt_Qlt. fold (ofNat n).
    apply Qle_lt_trans with (r * ofNat n); [apply Qfloor_le | nra].
Qed.

Lemma array_get_in_range {A : Type} (xs : list A) (idx : Z) :
  (0 <= idx < Z.of_nat (List.length xs))%Z ->
  exists x, array_get xs idx = Some x.
Proof.
  intros [H0 H1]. unfold array_get.
  destruct (Z.ltb_spec idx 0); [lia|].
  destruct (nth_error xs (Z.to_nat idx)) as [x|] eqn:E; [eauto|].
  apply nth_error_None in E. lia.
Qed.

Lemma randomInt_inv (lo hi : Z) w n w' :
  (lo <= hi)%Z -> randomInt lo hi w = Some (n, w') -> (lo <= n <= hi)%Z.
Proof using Type rng_range.
  intros Hle H. unfold randomInt in H. minv H.
  apply rng_inv in Hrun. destruct Hrun as (_ & H0 & H1).
  apply pair_equal_spec in H. destruct H as [-> ->].
  assert (Hpos : (0 < Z.to_nat (hi - lo + 1))%nat) by lia.
  pose proof (floor_index v (Z.to_nat (hi - lo + 1)) H0 H1 Hpos) as Hf.
  unfold ofNat in Hf. rewrite Z2Nat.id in Hf by lia. lia.
Qed.

Lemma rng_nonzero_total : forall n w,
  (exists k, (k < n)%nat /\ ~ rng_stream (rng_pos w + k)%nat == 0) ->
  exists r, rng_nonzero n w = Some r.
Proof.
  induction n as [|n IH]; intros w (k & Hk & Hnz); [lia|].
  simpl. unfold bind. simpl.
  destruct (Qeq_bool (rng_stream (rng_pos w)) 0) eqn:E.
  - apply IH. simpl. destruct k as [|k].
    + rewrite Nat.add_0_r in Hnz. apply Qeq_bool_iff in E. contradiction.
    + exists k. split; [lia|]. now rewrite Nat.add_succ_r in Hnz.
  - eexists. reflexivity.
Qed.

Lemma total_gaussianRandom : total gaussianRandom.
Proof using Type rng_productive.
  unfold gaussianRandom.
  apply total_bind; [intros w; apply rng_nonzero_total, rng_productive|].
  intros u.
  apply total_bind; [intros w; apply rng_nonzero_total, rng_productive|].
  intros v. apply total_ret.
Qed.

(** *** Every generator returns *)

Lemma total_bind_with {A B : Type} (P : A -> Prop) (m : M A) (f : A -> M B) :
  (forall w, exists a w1, m w = Some (a, w1) /\ P a) ->
  (forall a, P a -> total (f a)) -> total (bind m f).
Proof.
  intros Hm Hf w. destruct (Hm w) as (a & w1 & E & Ha).
  unfold bind. rewrite E. now apply Hf.
Qed.

Lemma rng_in_range w :
  exists a w1, rng w = Some (a, w1) /\ (0 <= a /\ a < 1).
Proof using Type rng_range.
  eexists _, _. split; [reflexivity | apply rng_range].
Qed.

Lemma Math_random_in_range w :
  exists a w1, Math_random w = Some (a, w1) /\ (0 <= a /\ a < 1).
Proof using Type random_range.
  eexists _, _. split; [reflexivity | apply random_range].
Qed.

Lemma total_array_draw {A : Type} (xs : list A) (r : Q) :
  xs <> [] -> 0 <= r -> r < 1 ->
  total (liftO (array_get xs (Qfloor (r * ofNat (List.length xs))))).
Proof.
  intros Hne H0 H1.
  destruct (array_get_in_range xs (Qfloor (r * ofNat (List.length xs))))
    as [x E].
  - apply floor_index; auto. destruct xs; [congruence | simpl; lia].
  - rewrite E. apply total_ret.
Qed.

Lemma last_map_Some {A : Type} (x : A) (l : list A) :
  last (map Some (x :: l)) None = Some (last l x).
Proof.
  revert x. induction l as [|y l IH]; intros x; [reflexivity|].
  change (last (map Some (x :: y :: l)) None)
    with (last (map Some (y :: l)) None).
  now rewrite IH, last_cons_default.
Qed.

Lemma currentPhaseOf_nonempty (phases : list Phase) (progress : Q) :
  phases <> [] -> exists ph, currentPhaseOf phases progress = Some ph.
Proof.
  intros Hne. unfold currentPhaseOf.
  destruct (find _ phases) as [ph|]; [eauto|].
  destruct phases as [|x l]; [congruence|].
  rewrite last_map_Some. eauto.
Qed.

Ltac total_steps :=
  repeat first
    [ apply total_ret
    | apply total_gaussianRandom
    | apply total_random
    | apply total_randomInt
    | apply total_Math_random
    | apply total_rng
    | apply total_bind; [|intros ?] ].

Lemma total_preBondingStep phases vol numCandles i s :
  phases <> [] -> total (preBondingStep phases vol numCandles i s).
Proof using Type rng_productive.
  intros Hne. unfold preBondingStep. cbv zeta.
  destruct (currentPhaseOf_nonempty phases
              (ofNat i / inject_Z (numCandles - 1)) Hne) as [ph E].
  rewrite E. total_steps.
Qed.

Lemma total_organicStep vol i s : total (organicStep vol i s).
Proof using Type rng_productive rng_range.
  unfold organicStep. cbv zeta.
  apply total_bind; [apply total_gaussianRandom | intros g].
  apply (total_bind_with (fun r => 0 <= r /\ r < 1)); [apply rng_in_range|].
  intros r [H0 H1].
  apply total_bind; [apply total_array_draw; [discriminate|assumption..]|].
  intros wm. total_steps.
Qed.

Lemma total_pumpDumpStep vol phase i s : total (pumpDumpStep vol phase i s).
Proof using Type rng_productive.
  unfold pumpDumpStep. cbv zeta.
  apply total_bind; [apply total_gaussianRandom | intros g].
  apply total_bind; [|intros cl; total_steps].
  destruct (Qlt_bool _ _); [|apply total_ret].
  destruct (String.eqb _ _); total_steps.
Qed.

Lemma total_instantRugStep vol rugPoint i s :
  total (instantRugStep vol rugPoint i s).
Proof.
  unfold instantRugStep. cbv zeta.
  apply total_bind; [|intros [ch vo]; total_steps].
  destruct (_ <? _)%Z; [total_steps|].
  destruct (_ =? _)%Z; total_steps.
Qed.

Lemma total_slowBleedStep vol baseDecline numCandles i s :
  total (slowBleedStep vol baseDecline numCandles i s).
Proof using Type rng_productive.
  unfold slowBleedStep. cbv zeta.
  apply total_bind; [apply total_Math_random | intros m].
  apply total_bind; [|intros rally; total_steps].
  destruct (Qlt_bool _ _); total_steps.
Qed.

Lemma total_consolidationStep vol numCandles cEnd up center i s :
  total (consolidationStep vol numCandles cEnd up center i s).
Proof using Type rng_productive.
  unfold consolidationStep. cbv zeta.
  apply total_bind; [|intros [ch vo]; total_steps].
  destruct (_ <? _)%Z; total_steps.
Qed.

Lemma total_pumpPhaseLoop vol numCandles phase :
  forall n i s, total (pumpPhaseLoop vol numCandles phase n i s).
Proof using Type rng_productive.
  induction n as [|n IH]; intros i s; simpl; [apply total_ret|].
  destruct (_ <? _)%Z; [|apply total_ret].
  apply total_bind; [apply total_pumpDumpStep | intros [c s1]].
  apply total_bind; [apply IH | intros [cs s2]]. apply total_ret.
Qed.

Lemma total_pumpPhasesLoop vol numCandles :
  forall phases s, total (pumpPhasesLoop vol numCandles phases s).
Proof using Type rng_productive.
  induction phases as [|ph phases IH]; intros s; simpl; [apply total_ret|].
  apply total_bind; [apply total_pumpPhaseLoop | intros [cs1 s1]].
  apply total_bind; [apply IH | intros [cs2 s2]]. apply total_ret.
Qed.

Lemma total_generatePreBonding phases volatility :
  phases <> [] -> total (generatePreBonding phases volatility).
Proof using Type rng_productive.
  intros Hne. unfold generatePreBonding.
  apply total_bind; [apply total_randomInt | intros n]. cbv zeta.
  apply total_bind; [|intros [cs s]; apply total_ret].
  apply for_loop_total. intros. now apply total_preBondingStep.
Qed.

Lemma total_generateOrganic startMcap numCandles volatility :
  total (generateOrganic startMcap numCandles volatility).
Proof using Type rng_productive rng_range.
  unfold generateOrganic. cbv zeta.
  apply total_bind; [|intros [cs s]; apply total_ret].
  apply for_loop_total. intros. apply total_organicStep.
Qed.

Lemma total_generatePumpDump startMcap numCandles volatility :
  total (generatePumpDump startMcap numCandles volatility).
Proof using Type rng_productive.
  unfold generatePumpDump. cbv zeta.
  apply total_bind; [|intros [cs s]; apply total_ret].
  apply total_pumpPhasesLoop.
Qed.

Lemma total_generateInstantRug startMcap numCandles volatility :
  total (generateInstantRug startMcap numCandles volatility).
Proof.
  unfold generateInstantRug.
  apply total_bind; [apply total_randomInt | intros rp]. cbv zeta.
  apply total_bind; [|intros [cs s]; apply total_ret].
  apply for_loop_total. intros. apply total_instantRugStep.
Qed.

Lemma total_generateSlowBleed startMcap numCandles volatility :
  total (generateSlowBleed startMcap numCandles volatility).
Proof using Type rng_productive.
  unfold generateSlowBleed. cbv zeta.
  apply total_bind; [apply total_random | intros r].
  apply total_bind; [|intros [cs s]; apply total_ret].
  apply for_loop_total. intros. apply total_slowBleedStep.
Qed.

Lemma total_generateConsolidation startMcap numCandles volatility :
  total (generateConsolidation startMcap numCandles volatility).
Proof using Type rng_productive.
  unfold generateConsolidation. cbv zeta.
  apply total_bind; [apply total_Math_random | intros m].
  apply total_bind; [|intros [cs s]; apply total_ret].
  apply for_loop_total. intros. apply total_consolidationStep.
Qed.

Lemma total_scenarioGenerator scenario startMcap numCandles volatility :
  total (scenarioGenerator scenario startMcap numCandles volatility).
Proof using Type rng_productive rng_range.
  unfold scenarioGenerator.
  repeat (destruct (String.eqb scenario _);
          [first [ apply total_generateOrganic | apply total_generatePumpDump
                 | apply total_generateInstantRug
                 | apply total_generateSlowBleed
                 | apply total_generateConsolidation ]|]).
  apply total_generateOrganic.
Qed.

Lemma total_generatePostBonding startMcap scenario volatility :
  total (generatePostBonding startMcap scenario volatility).
Proof using Type rng_productive rng_range.
  unfold generatePostBonding.
  apply total_bind; [apply total_randomInt | intros n].
  apply total_scenarioGenerator.
Qed.

Lemma total_generate phases options :
  phases <> [] -> total (generate phases options).
Proof using Type random_range rng_productive rng_range.
  intros Hne. unfold generate. cbv zeta.
  apply total_bind.
  { unfold finalScenario. destruct (String.eqb _ _); [|apply total_ret].
    apply (total_bind_with (fun r => 0 <= r /\ r < 1));
      [apply Math_random_in_range|].
    intros m [H0 H1]. apply total_array_draw; [discriminate|assumption..]. }
  intros sc. apply total_bind; [apply total_Math_random | intros mid].
  apply total_bind.
  { destruct (_ || _); [|apply total_ret].
    apply total_bind; [now apply total_generatePreBonding | intros pre].
    apply total_ret. }
  intros d1. apply total_bind; [|intros d2; apply total_ret].
  destruct (_ || _); [|apply total_ret].
  apply total_bind; [apply total_generatePostBonding | intros post].
  apply total_ret.
Qed.

(** *** Shape of the generated segments *)

Lemma pumpDumpStep_count vol phase i s w c s' w' :
  pumpDumpStep vol phase i s w = Some (c, s', w') ->
  candleCount s' = (candleCount s + 1)%Z.
Proof.
  unfold pumpDumpStep. intros H. minv H.
  inversion H; subst. reflexivity.
Qed.

Lemma pumpPhaseLoop_inv vol numCandles phase n i s w cs s' w' :
  pumpPhaseLoop vol numCandles phase (S n) i s w = Some (cs, s', w') ->
  (candleCount s <? numCandles)%Z = true ->
  exists c s1 w1 cs1,
    pumpDumpStep vol phase i s w = Some (c, s1, w1)
    /\ pumpPhaseLoop vol numCandles phase n (S i) s1 w1 = Some (cs1, s', w')
    /\ cs = c :: cs1.
Proof.
  simpl. intros H Hlt. rewrite Hlt in H.
  apply bind_inv in H. destruct H as ([c s1] & w1 & Hb & H).
  apply bind_inv in H. destruct H as ([cs1 s2] & w2 & Hl & H).
  apply ret_inv in H. inversion H; subst.
  exists c, s1, w1, cs1. auto.
Qed.

Lemma pumpPhaseLoop_chained vol numCandles phase :
  forall n i s w cs s' w',
    pumpPhaseLoop vol numCandles phase n i s w = Some (cs, s', w') ->
    chained (pd_currentMcap s) cs
    /\ pd_currentMcap s' = lastClose (pd_currentMcap s) cs.
Proof.
  induction n as [|n IH]; intros i s w cs s' w' H.
  - simpl in H. apply ret_inv in H. inversion H; subst. simpl. auto.
  - destruct (candleCount s <? numCandles)%Z eqn:E.
    + apply pumpPhaseLoop_inv in H; [|assumption].
      destruct H as (c & s1 & w1 & cs1 & Hb & Hl & ->).
      apply pumpDumpStep_link in Hb. destruct Hb as [Ho Hc].
      destruct (IH _ _ _ _ _ _ Hl) as [Hch Hlast].
      rewrite lastClose_cons, Hc. simpl. rewrite Hc. auto.
    + simpl in H. rewrite E in H. apply ret_inv in H.
      inversion H; subst. simpl. auto.
Qed.

Lemma pumpPhaseLoop_length vol numCandles phase :
  forall n i s w cs s' w',
    pumpPhaseLoop vol numCandles phase n i s w = Some (cs, s', w') ->
    (candleCount s + Z.of_nat n <= numCandles)%Z ->
    List.length cs = n /\ candleCount s' = (candleCount s + Z.of_nat n)%Z.
Proof.
  induction n as [|n IH]; intros i s w cs s' w' H Hle.
  - simpl in H. apply ret_inv in H. inversion H; subst. simpl.
    split; [reflexivity | lia].
  - apply pumpPhaseLoop_inv in H; [|apply Z.ltb_lt; lia].
    destruct H as (c & s1 & w1 & cs1 & Hb & Hl & ->).
    apply pumpDumpStep_count in Hb.
    destruct (IH _ _ _ _ _ _ Hl) as [Hlen Hcnt]; [lia|].
    simpl List.length. split; [congruence | lia].
Qed.

Lemma pumpPhasesLoop_inv vol numCandles phase rest s w cs s' w' :
  pumpPhasesLoop vol numCandles (phase :: rest) s w = Some (cs, s', w') ->
  exists cs1 s1 w1 cs2,
    pumpPhaseLoop vol numCandles phase (Z.to_nat (duration phase)) 0 s w
      = Some (cs1, s1, w1)
    /\ pumpPhasesLoop vol numCandles rest s1 w1 = Some (cs2, s', w')
    /\ cs = cs1 ++ cs2.
Proof.
  simpl. intros H.
  apply bind_inv in H. destruct H as ([cs1 s1] & w1 & Hb & H).
  apply bind_inv in H. destruct H as ([cs2 s2] & w2 & Hl & H).
  apply ret_inv in H. inversion H; subst.
  exists cs1, s1, w1, cs2. auto.
Qed.

Lemma pumpPhasesLoop_chained vol numCandles :
  forall phases s w cs s' w',
    pumpPhasesLoop vol numCandles phases s w = Some (cs, s', w') ->
    chained (pd_currentMcap s) cs
    /\ pd_currentMcap s' = lastClose (pd_currentMcap s) cs.
Proof.
  induction phases as [|ph phases IH]; intros s w cs s' w' H.
  - simpl in H. apply ret_inv in H. inversion H; subst. simpl. auto.
  - apply pumpPhasesLoop_inv in H.
    destruct H as (cs1 & s1 & w1 & cs2 & H1 & H2 & ->).
    apply pumpPhaseLoop_chained in H1. destruct H1 as [Hc1 Hl1].
    apply IH in H2. destruct H2 as [Hc2 Hl2].
    rewrite chained_app, lastClose_app, <- Hl1. auto.
Qed.

Lemma pumpPhasesLoop_length vol numCandles :
  forall phases s w cs s' w',
    pumpPhasesLoop vol numCandles phases s w = Some (cs, s', w') ->
    (candleCount s + Z.of_nat (phaseCandles phases) <= numCandles)%Z ->
    List.length cs = phaseCandles phases.
Proof.
  induction phases as [|ph phases IH]; intros s w cs s' w' H Hle.
  - simpl in H. apply ret_inv in H. inversion H; subst. reflexivity.
  - apply pumpPhasesLoop_inv in H.
    destruct H as (cs1 & s1 & w1 & cs2 & H1 & H2 & ->).
    simpl in Hle.
    apply pumpPhaseLoop_length in H1; [|lia]. destruct H1 as [Hlen Hcnt].
    apply IH in H2; [|lia].
    rewrite length_app. simpl. lia.
Qed.

(** The four floors never add up to more than the request. *)
Lemma phaseCandles_le (numCandles : Z) :
  (0 <= numCandles)%Z ->
  (Z.of_nat (phaseCandles (pumpPhases numCandles)) <= numCandles)%Z.
Proof.
  intros Hn. unfold phaseCandles, pumpPhases.
  cbn [fold_right duration]. rewrite Zle_Qle.
  set (n := inject_Z numCandles).
  assert (Hq : 0 <= n).
  { unfold n. change 0 with (inject_Z 0). now rewrite <- Zle_Qle. }
  assert (F : forall x, 0 <= x ->
                inject_Z (Z.of_nat (Z.to_nat (Qfloor x))) <= x).
  { intros x Hx. rewrite Z2Nat.id; [apply Qfloor_le|].
    change 0%Z with (Qfloor (inject_Z 0)). now apply Qfloor_resp_le. }
  clearbody n.
  assert (F1 := F (n * 0.25)). assert (F2 := F (n * 0.15)).
  assert (F3 := F (n * 0.35)).
  assert (H1 : 0 <= n * 0.25) by lra. assert (H2 : 0 <= n * 0.15) by lra.
  assert (H3 : 0 <= n * 0.35) by lra.
  specialize (F1 H1). specialize (F2 H2). specialize (F3 H3).
  rewrite !Nat2Z.inj_add, !inject_Z_plus. simpl (Z.of_nat 0).
  change (inject_Z 0) with 0. lra.
Qed.

Ltac loop_shape cur link Hch Hlen :=
  match goal with
  | H : for_loop ?body _ _ _ _ = Some _ |- _ =>
      pose proof (for_loop_length _ _ _ _ _ _ _ _ H) as Hlen;
      apply (for_loop_chained body cur) in H;
      [|intros; eapply link; eassumption];
      rename H into Hch
  end.

Lemma generatePreBonding_inv phases volatility w cs w' :
  generatePreBonding phases volatility w = Some (cs, w') ->
  exists n w1 s',
    randomInt 150 400 w = Some (n, w1)
    /\ for_loop (preBondingStep phases
                   (or_default (lookup volatility preVolMap) 0.15) n)
         (Z.to_nat n) 0 preBondingStart w1 = Some (cs, s', w').
Proof.
  unfold generatePreBonding. intros H.
  apply bind_inv in H. destruct H as (n & w1 & Hn & H). cbv zeta in H.
  apply bind_inv in H. destruct H as ([cs0 s'] & w2 & Hl & H).
  apply ret_inv in H. pair_inv H. eauto.
Qed.

Lemma generatePreBonding_shape phases volatility w cs w' :
  generatePreBonding phases volatility w = Some (cs, w') ->
  chained INITIAL_MCAP cs /\ (150 <= List.length cs <= 400)%nat.
Proof using Type rng_range.
  unfold generatePreBonding. intros H. minv H.
  apply randomInt_inv in Hrun; [|lia].
  loop_shape pre_currentMcap preBondingStep_link Hch Hlen.
  apply pair_equal_spec in H. destruct H as [-> ->].
  split; [apply Hch | lia].
Qed.

Lemma generateOrganic_shape startMcap numCandles volatility w cs w' :
  generateOrganic startMcap numCandles volatility w = Some (cs, w') ->
  chained startMcap cs /\ List.length cs = Z.to_nat numCandles.
Proof.
  unfold generateOrganic. intros H. minv H.
  loop_shape post_currentMcap organicStep_link Hch Hlen.
  apply pair_equal_spec in H. destruct H as [-> ->].
  split; [apply Hch | assumption].
Qed.

Lemma generateInstantRug_shape startMcap numCandles volatility w cs w' :
  generateInstantRug startMcap numCandles volatility w = Some (cs, w') ->
  chained startMcap cs /\ List.length cs = Z.to_nat numCandles.
Proof.
  unfold generateInstantRug. intros H. minv H.
  loop_shape (fun q : Q => q) instantRugStep_link Hch Hlen.
  apply pair_equal_spec in H. destruct H as [-> ->].
  split; [apply Hch | assumption].
Qed.

Lemma generateSlowBleed_shape startMcap numCandles volatility w cs w' :
  generateSlowBleed startMcap numCandles volatility w = Some (cs, w') ->
  chained startMcap cs /\ List.length cs = Z.to_nat numCandles.
Proof.
  unfold generateSlowBleed. intros H. minv H.
  loop_shape (fun q : Q => q) slowBleedStep_link Hch Hlen.
  apply pair_equal_spec in H. destruct H as [-> ->].
  split; [apply Hch | assumption].
Qed.

Lemma generateConsolidation_shape startMcap numCandles volatility w cs w' :
  generateConsolidation startMcap numCandles volatility w = Some (cs, w') ->
  chained startMcap cs /\ List.length cs = Z.to_nat numCandles.
Proof.
  unfold generateConsolidation. intros H. minv H.
  loop_shape (fun q : Q => q) consolidationStep_link Hch Hlen.
  apply pair_equal_spec in H. destruct H as [-> ->].
  split; [apply Hch | assumption].
Qed.

Lemma generatePumpDump_shape startMcap numCandles volatility w cs w' :
  generatePumpDump startMcap numCandles volatility w = Some (cs, w') ->
  chained startMcap cs
  /\ ((0 <= numCandles)%Z ->
      List.length cs = phaseCandles (pumpPhases numCandles)).
Proof.
  unfold generatePumpDump. intros H. minv H.
  apply pair_equal_spec in H. destruct H as [-> ->].
  split.
  - apply pumpPhasesLoop_chained in Hrun. apply Hrun.
  - intros Hn. apply pumpPhasesLoop_length in Hrun; [assumption|].
    simpl candleCount. apply phaseCandles_le. assumption.
Qed.

(** *** The entry point, taken apart *)

Lemma generate_inv phases options w r w' :
  generate phases options w = Some (r, w') ->
  exists sc w0 mid w1 pre w2 post,
    finalScenario (opt_scenario options) w = Some (sc, w0)
    /\ Math_random w0 = Some (mid, w1)
    /\ (if wantsPre options
        then generatePreBonding phases (volatility options) w1 = Some (pre, w2)
        else pre = [] /\ w2 = w1)
    /\ (if wantsPost options
        then generatePostBonding (postStartMcap pre) sc (volatility options) w2
             = Some (post, w')
        else post = [] /\ w' = w2)
    /\ r = {| id := {| id_now := Date_now; id_draw := mid |};
              scenario := sc;
              data := stamp (Qfloor (inject_Z Date_now / 1000))
                        (List.length (pre ++ post)) 0 (pre ++ post);
              metadata := calculateMetadata (pre ++ post) |}.
Proof.
  unfold generate, wantsPre, wantsPost. cbv zeta. intros H.
  apply bind_inv in H. destruct H as (sc & w0 & Hsc & H).
  apply bind_inv in H. destruct H as (mid & w1 & Hid & H).
  apply bind_inv in H. destruct H as (d1 & w2 & Hpre & H).
  apply bind_inv in H. destruct H as (d2 & w3 & Hpost & H).
  apply ret_inv in H. apply pair_equal_spec in H. destruct H as [-> ->].
  assert (Hd1 : exists pre,
             d1 = pre /\
             if String.eqb (chartType options) "full"
                || String.eqb (chartType options) "pre"
             then generatePreBonding phases (volatility options) w1
                  = Some (pre, w2)
             else pre = [] /\ w2 = w1).
  { destruct (_ || _).
    - apply bind_inv in Hpre. destruct Hpre as (pre & w2' & Hg & Hr).
      apply ret_inv in Hr. apply pair_equal_spec in Hr.
      destruct Hr as [-> ->]. exists pre. auto.
    - apply ret_inv in Hpre. apply pair_equal_spec in Hpre.
      destruct Hpre as [-> ->]. exists []. auto. }
  destruct Hd1 as (pre & -> & Hpre').
  assert (Hd2 : exists post,
             d2 = pre ++ post /\
             if String.eqb (chartType options) "full"
                || String.eqb (chartType options) "post"
             then generatePostBonding (postStartMcap pre) sc
                    (volatility options) w2 = Some (post, w3)
             else post = [] /\ w3 = w2).
  { destruct (_ || _) in Hpost |- *.
    - apply bind_inv in Hpost. destruct Hpost as (post & w3' & Hg & Hr).
      apply ret_inv in Hr. apply pair_equal_spec in Hr.
      destruct Hr as [-> ->]. exists post. auto.
    - apply ret_inv in Hpost. apply pair_equal_spec in Hpost.
      destruct Hpost as [-> ->]. exists []. rewrite app_nil_r. auto. }
  destruct Hd2 as (post & -> & Hpost').
  exists sc, w0, mid, w1, pre, w2, post. auto.
Qed.

Lemma map_candle_stamp now len : forall cs i,
  map candle (stamp now len i cs) = cs.
Proof.
  induction cs as [|c cs IH]; intros i; simpl; [reflexivity|].
  now rewrite IH.
Qed.

Lemma scenarioGenerator_chained scenario startMcap numCandles volatility
    w cs w' :
  scenarioGenerator scenario startMcap numCandles volatility w = Some (cs, w') ->
  chained startMcap cs.
Proof.
  unfold scenarioGenerator.
  repeat (destruct (String.eqb scenario _);
          [intros H;
           first [ apply generateOrganic_shape in H
                 | apply generatePumpDump_shape in H
                 | apply generateInstantRug_shape in H
                 | apply generateSlowBleed_shape in H
                 | apply generateConsolidation_shape in H ];
           apply H|]).
  intros H. apply generateOrganic_shape in H. apply H.
Qed.

(** 125 + 125 + 75 + 175: what a request of 500 or more always yields. *)
Lemma phaseCandles_pos (numCandles : Z) :
  (500 <= numCandles)%Z -> (0 < phaseCandles (pumpPhases numCandles))%nat.
Proof.
  intros Hn. unfold phaseCandles, pumpPhases. cbn [fold_right duration].
  assert (H : (125 <= Qfloor (inject_Z numCandles * 0.25))%Z).
  { change 125%Z with (Qfloor (inject_Z 125)). apply Qfloor_resp_le.
    assert (Hq : inject_Z 500 <= inject_Z numCandles)
      by now rewrite <- Zle_Qle.
    change (inject_Z 500) with 500 in Hq. change (inject_Z 125) with 125.
    lra. }
  lia.
Qed.

Lemma generatePostBonding_shape startMcap scenario volatility w cs w' :
  generatePostBonding startMcap scenario volatility w = Some (cs, w') ->
  chained startMcap cs /\ cs <> [].
Proof using Type rng_range.
  unfold generatePostBonding. intros H.
  apply bind_inv in H. destruct H as (n & w1 & Hn & H).
  apply randomInt_inv in Hn; [|lia].
  split; [eapply scenarioGenerator_chained; eassumption|].
  assert (Hlen : (0 < List.length cs)%nat).
  { revert H. unfold scenarioGenerator.
    repeat (destruct (String.eqb scenario _);
            [intros H;
             first [ apply generateOrganic_shape in H
                   | apply generatePumpDump_shape in H
                   | apply generateInstantRug_shape in H
                   | apply generateSlowBleed_shape in H
                   | apply generateConsolidation_shape in H ];
             destruct H as [_ H];
             first [ rewrite H by lia; apply phaseCandles_pos; lia
                   | rewrite H; lia ]|]).
    intros H. apply generateOrganic_shape in H. destruct H as [_ H].
    rewrite H. lia. }
  destruct cs; [simpl in Hlen; lia | discriminate].
Qed.

Lemma lastClose_nonempty (d d' : Q) (cs : list Candle) :
  cs <> [] -> lastClose d cs = lastClose d' cs.
Proof. destruct cs; [congruence | reflexivity]. Qed.

Lemma chained_hd (a : Q) (cs : list Candle) :
  chained a cs -> cs <> [] -> exists c, hd_error cs = Some c /\ open c = a.
Proof.
  destruct cs as [|c cs]; [congruence|]. intros [Ho _] _. exists c. auto.
Qed.

(** ** Continuity *)

(** C4. Every chart [generate] returns is continuous: each candle opens at
    the close of the one before it.  The chart is the pre-bonding segment
    followed by the post-bonding one; when a pre-bonding segment is asked
    for it has 150 to 400 candles and the chart opens at [INITIAL_MCAP]
    (5000); when a post-bonding segment is asked for it is not empty and
    opens at the last pre-bonding close, or at [BONDING_MCAP] (100000) when
    there is no pre-bonding segment (chartType "post"). *)
Theorem generate_continuity (phases : list Phase) (options : Options)
    (w : RandomState) :
  phases <> [] ->
  exists r w',
    generate phases options w = Some (r, w')
    /\ exists pre post,
         map candle (data r) = pre ++ post
         /\ (forall i c1 c2,
               nth_error (pre ++ post) i = Some c1 ->
               nth_error (pre ++ post) (S i) = Some c2 ->
               open c2 = close c1)
         /\ (if wantsPre options
             then (150 <= List.length pre <= 400)%nat
                  /\ exists c, hd_error (pre ++ post) = Some c
                               /\ open c = INITIAL_MCAP
             else pre = [])
         /\ (if wantsPost options
             then exists c, hd_error post = Some c
                            /\ open c = lastClose BONDING_MCAP pre
             else post = []).
Proof using Type random_range rng_productive rng_range.
  intros Hne. destruct (total_generate phases options Hne w) as [[r w'] Hg].
  exists r, w'. split; [assumption|].
  apply generate_inv in Hg.
  destruct Hg as (sc & w0 & mid & w1 & pre & w2 & post
                  & _ & _ & Hpre & Hpost & ->).
  exists pre, post. cbn [data]. rewrite map_candle_stamp.
  split; [reflexivity|].
  assert (Hp : chained INITIAL_MCAP pre
               /\ (if wantsPre options
                   then (150 <= List.length pre <= 400)%nat else pre = [])).
  { destruct (wantsPre options).
    - now apply generatePreBonding_shape in Hpre.
    - destruct Hpre as [-> _]. simpl. auto. }
  destruct Hp as [Hcp Hlp].
  assert (Hq : chained (lastClose BONDING_MCAP pre) post
               /\ (if wantsPost options then post <> [] else post = [])).
  { destruct (wantsPost options).
    - now apply generatePostBonding_shape in Hpost.
    - destruct Hpost as [-> _]. simpl. auto. }
  destruct Hq as [Hcq Hlq].
  assert (Hall : exists a, chained a (pre ++ post)).
  { destruct pre as [|c pre].
    - exists BONDING_MCAP. exact Hcq.
    - exists INITIAL_MCAP. apply chained_app. split; [assumption|].
      rewrite (lastClose_nonempty _ BONDING_MCAP); [assumption|discriminate]. }
  destruct Hall as [a Hall].
  split; [apply (chained_nth a); assumption|].
  split.
  - destruct (wantsPre options); [|assumption].
    split; [assumption|].
    destruct pre as [|c pre]; [simpl in Hlp; lia|].
    exists c. split; [reflexivity | apply Hcp].
  - destruct (wantsPost options); [|assumption].
    now apply chained_hd.
Qed.

(** ** The phase bias is dead *)

Lemma find_phase_agree (progress : Q) (ps qs : list Phase) :
  Forall2 agree_but_bias ps qs ->
  let test := fun p => Qle_bool (phase_start p) progress
                       && Qlt_bool progress (phase_end p) in
  match find test ps, find test qs with
  | Some p, Some q => agree_but_bias p q
  | None, None => True
  | _, _ => False
  end.
Proof.
  intros H. induction H as [|p q ps qs Hpq _ IH]; simpl; [exact I|].
  destruct Hpq as (Hn & Hs & He & Hv). rewrite Hs, He.
  destruct (_ && _); [|exact IH]. repeat split; assumption.
Qed.

Lemma last_phase_agree (ps qs : list Phase) :
  Forall2 agree_but_bias ps qs ->
  match last (map Some ps) None, last (map Some qs) None with
  | Some p, Some q => agree_but_bias p q
  | None, None => True
  | _, _ => False
  end.
Proof.
  intros H. induction H as [|p q ps qs Hpq Hrest IH]; simpl; [exact I|].
  destruct Hrest as [|p' q' ps' qs' Hpq' Hrest']; [exact Hpq|].
  exact IH.
Qed.

Lemma currentPhaseOf_agree (progress : Q) (ps qs : list Phase) :
  Forall2 agree_but_bias ps qs ->
  match currentPhaseOf ps progress, currentPhaseOf qs progress with
  | Some p, Some q => agree_but_bias p q
  | None, None => True
  | _, _ => False
  end.
Proof.
  intros H. unfold currentPhaseOf.
  pose proof (find_phase_agree progress ps qs H) as Hf. simpl in Hf.
  destruct (find _ ps) as [p|], (find _ qs) as [q|]; try contradiction.
  - exact Hf.
  - now apply last_phase_agree.
Qed.

Lemma preBondingStep_agree ps qs vol numCandles i s w :
  Forall2 agree_but_bias ps qs ->
  preBondingStep ps vol numCandles i s w
  = preBondingStep qs vol numCandles i s w.
Proof.
  intros H. unfold preBondingStep. cbv zeta.
  pose proof (currentPhaseOf_agree
                (ofNat i / inject_Z (numCandles - 1)) ps qs H) as Hc.
  destruct (currentPhaseOf ps _) as [p|], (currentPhaseOf qs _) as [q|];
    try contradiction; [|reflexivity].
  destruct Hc as (_ & _ & _ & Hv).
  unfold liftO, bind at 1 3, ret at 1 3, totalChangePercent.
  rewrite Hv. reflexivity.
Qed.

Lemma generatePreBonding_agree ps qs volatility w :
  Forall2 agree_but_bias ps qs ->
  generatePreBonding ps volatility w = generatePreBonding qs volatility w.
Proof.
  intros H. unfold generatePreBonding, bind.
  destruct (randomInt 150 400 w) as [[n w1]|]; [|reflexivity].
  cbv zeta. set (vol := or_default _ _).
  rewrite (for_loop_ext (preBondingStep ps vol n) (preBondingStep qs vol n));
    [reflexivity|].
  intros. now apply preBondingStep_agree.
Qed.

(** C10. The [bias] fields of the market phases never reach a candle.  The
    return of a pre-bonding step is the sum of the shock, momentum, memory,
    cycle and reversion terms only, the phase entering through [volMult]
    alone; and [generate] run on two phase tables that agree on everything
    but [bias] gives the same result from the same state. *)
Theorem bias_never_used (ps qs : list Phase) :
  Forall2 agree_but_bias ps qs ->
  (forall vol phase numCandles i s g,
      totalChangePercent vol phase numCandles i s g
      = g * (vol * volMult phase)
        + shortTermMomentum s * 0.2
        + longTermMemory s * 0.05
        + Math_sin math (ofNat i * 0.05) * 0.5 * (vol * volMult phase) * 0.2
        + marketMemory numCandles i (pre_currentMcap s))
  /\ (forall options w, generate ps options w = generate qs options w).
Proof.
  intros H. split; [reflexivity|].
  intros options w. unfold generate, bind.
  destruct (finalScenario _ w) as [[sc w0]|]; [|reflexivity].
  destruct (Math_random w0) as [[mid w1]|]; [|reflexivity].
  destruct (_ || _); [|reflexivity].
  now rewrite (generatePreBonding_agree ps qs).
Qed.

(** ** Metadata *)

Lemma Qmax_cases (x y : Q) : Qmax x y = x \/ Qmax x y = y.
Proof.
  unfold Qmax, GenericMinMax.gmax. destruct (x ?= y); auto.
Qed.

Lemma Qmin_cases (x y : Q) : Qmin x y = x \/ Qmin x y = y.
Proof.
  unfold Qmin, GenericMinMax.gmin. destruct (x ?= y); auto.
Qed.

Lemma Math_max_spec : forall xs x,
  In (Math_max x xs) (x :: xs)
  /\ forall y, In y (x :: xs) -> y <= Math_max x xs.
Proof.
  unfold Math_max. induction xs as [|z xs IH]; intros x.
  - simpl. split; [auto|]. intros y [<-|[]]. apply Qle_refl.
  - cbn [fold_left]. destruct (IH (Qmax x z)) as [Hin Hle]. split.
    + destruct Hin as [E|Hin]; [|right; right; exact Hin].
      rewrite <- E. destruct (Qmax_cases x z) as [->| ->]; simpl; auto.
    + intros y [<-|[<-|Hy]].
      * apply Qle_trans with (Qmax x z); [apply Q.le_max_l|].
        apply Hle. left. reflexivity.
      * apply Qle_trans with (Qmax x z); [apply Q.le_max_r|].
        apply Hle. left. reflexivity.
      * apply Hle. right. exact Hy.
Qed.

Lemma Math_min_spec : forall xs x,
  In (Math_min x xs) (x :: xs)
  /\ forall y, In y (x :: xs) -> Math_min x xs <= y.
Proof.
  unfold Math_min. induction xs as [|z xs IH]; intros x.
  - simpl. split; [auto|]. intros y [<-|[]]. apply Qle_refl.
  - cbn [fold_left]. destruct (IH (Qmin x z)) as [Hin Hle]. split.
    + destruct Hin as [E|Hin]; [|right; right; exact Hin].
      rewrite <- E. destruct (Qmin_cases x z) as [->| ->]; simpl; auto.
    + intros y [<-|[<-|Hy]].
      * apply Qle_trans with (Qmin x z); [|apply Q.le_min_l].
        apply Hle. left. reflexivity.
      * apply Qle_trans with (Qmin x z); [|apply Q.le_min_r].
        apply Hle. left. reflexivity.
      * apply Hle. right. exact Hy.
Qed.

Lemma last_map {A B : Type} (f : A -> B) (l : list A) (d : A) :
  last (map f l) (f d) = f (last l d).
Proof.
  induction l as [|x l IH]; [reflexivity|].
  simpl. destruct l; [reflexivity | exact IH].
Qed.

Lemma calculateMetadata_spec (c0 : Candle) (rest : list Candle) :
  exists m,
    calculateMetadata (c0 :: rest) = Some m
    /\ startMcap m = close c0
    /\ finalMcap m = close (last rest c0)
    /\ In (peakMcap m) (map close (c0 :: rest))
    /\ (forall c, In c (c0 :: rest) -> close c <= peakMcap m)
    /\ In (minMcap m) (map close (c0 :: rest))
    /\ (forall c, In c (c0 :: rest) -> minMcap m <= close c)
    /\ totalCandles m = List.length (c0 :: rest).
Proof.
  unfold calculateMetadata. cbn [map]. eexists. split; [reflexivity|].
  cbn [startMcap finalMcap peakMcap minMcap totalCandles].
  destruct (Math_max_spec (map close rest) (close c0)) as [Hxi Hxl].
  destruct (Math_min_spec (map close rest) (close c0)) as [Hni Hnl].
  repeat split; try assumption.
  - apply last_map.
  - intros c Hc. apply Hxl. change (In (close c) (map close (c0 :: rest))).
    now apply in_map.
  - intros c Hc. apply Hnl. change (In (close c) (map close (c0 :: rest))).
    now apply in_map.
Qed.

(** C9 (as the code has it). For a volatility name that is not a property
    every object inherits, the metadata [generate] returns is
    [calculateMetadata] of the candles it returns.  For an empty sequence
    it is the empty object; for a sequence [c0 :: rest], [startMcap] is the
    close of the first candle, whatever that candle opened at, [finalMcap]
    the close of the last, [peakMcap] one of the closes and no close is
    above it, [minMcap] one of the closes and no close is below it, and
    [totalCandles] the length.  Nothing is said on how [startMcap] compares
    with the initial capitalization: the first close equals it in some
    charts and differs from it in others. *)
Theorem generate_metadata (phases : list Phase) (options : Options)
    (w : RandomState) :
  phases <> [] -> ~ In (volatility options) inherited_keys ->
  exists r w',
    generate phases options w = Some (r, w')
    /\ metadata r = calculateMetadata (map candle (data r))
    /\ match map candle (data r) with
       | [] => metadata r = None
       | c0 :: rest =>
           exists m,
             metadata r = Some m
             /\ startMcap m = close c0
             /\ finalMcap m = close (last rest c0)
             /\ In (peakMcap m) (map close (c0 :: rest))
             /\ (forall c, In c (c0 :: rest) -> ~ peakMcap m < close c)
             /\ In (minMcap m) (map close (c0 :: rest))
             /\ (forall c, In c (c0 :: rest) -> ~ close c < minMcap m)
             /\ totalCandles m = List.length (c0 :: rest)
       end.
Proof using Type random_range rng_productive rng_range.
  intros Hne _. destruct (total_generate phases options Hne w) as [[r w'] Hg].
  exists r, w'. split; [assumption|].
  apply generate_inv in Hg.
  destruct Hg as (sc & w0 & mid & w1 & pre & w2 & post & _ & _ & _ & _ & ->).
  cbn [data metadata]. rewrite map_candle_stamp. split; [reflexivity|].
  destruct (pre ++ post) as [|c0 rest]; [reflexivity|].
  destruct (calculateMetadata_spec c0 rest)
    as (m & Hm & Hs & Hf & Hpi & Hp & Hni & Hn & Ht).
  exists m. repeat (split; [assumption|]).
  split; [intros c Hc; apply Qle_not_lt, Hp, Hc|].
  split; [assumption|].
  split; [intros c Hc; apply Qle_not_lt, Hn, Hc | assumption].
Qed.

(** ** Unrecognized scenario names *)

Lemma scenarioGenerator_organic : scenarioGenerator "organic" = generateOrganic.
Proof. reflexivity. Qed.

Lemma scenarioGenerator_pump_dump :
  scenarioGenerator "pump_dump" = generatePumpDump.
Proof. reflexivity. Qed.

Lemma scenarioGenerator_instant_rug :
  scenarioGenerator "instant_rug" = generateInstantRug.
Proof. reflexivity. Qed.

Lemma scenarioGenerator_slow_bleed :
  scenarioGenerator "slow_bleed" = generateSlowBleed.
Proof. reflexivity. Qed.

Lemma scenarioGenerator_consolidation :
  scenarioGenerator "consolidation" = generateConsolidation.
Proof. reflexivity. Qed.

Lemma generatePostBonding_inv startMcap sc volatility w cs w' :
  generatePostBonding startMcap sc volatility w = Some (cs, w') ->
  exists n w1,
    randomInt 500 1500 w = Some (n, w1)
    /\ (500 <= n <= 1500)%Z
    /\ scenarioGenerator sc startMcap n volatility w1 = Some (cs, w').
Proof using Type rng_range.
  unfold generatePostBonding. intros H.
  apply bind_inv in H. destruct H as (n & w1 & Hn & H).
  exists n, w1. split; [assumption|]. split; [|assumption].
  apply randomInt_inv in Hn; lia.
Qed.

Lemma for_loop_app {St : Type} (body : nat -> St -> M (Candle * St)) :
  forall a b i s w cs s' w',
    for_loop body (a + b) i s w = Some (cs, s', w') ->
    exists cs1 s1 w1 cs2,
      for_loop body a i s w = Some (cs1, s1, w1)
      /\ for_loop body b (i + a) s1 w1 = Some (cs2, s', w')
      /\ cs = cs1 ++ cs2.
Proof.
  induction a as [|a IH]; intros b i s w cs s' w' H.
  - exists [], s, w, cs. rewrite Nat.add_0_r. auto.
  - change (S a + b)%nat with (S (a + b)) in H.
    apply for_loop_S_inv in H.
    destruct H as (c & s1 & w1 & cs1 & Hb & Hl & ->).
    apply IH in Hl. destruct Hl as (l1 & s2 & w2 & l2 & H1 & H2 & ->).
    exists (c :: l1), s2, w2, l2.
    rewrite Nat.add_succ_r. split; [|split; [assumption | reflexivity]].
    simpl. unfold bind. rewrite Hb, H1. reflexivity.
Qed.

Lemma for_loop_first {St : Type} (body : nat -> St -> M (Candle * St))
    n i s w cs s' w' c s1 w1 :
  for_loop body n i s w = Some (cs, s', w') -> (0 < n)%nat ->
  body i s w = Some (c, s1, w1) -> hd_error cs = Some c.
Proof.
  intros H Hn Hb. destruct n as [|n]; [lia|].
  apply for_loop_S_inv in H.
  destruct H as (c' & s1' & w1' & cs1 & Hb' & _ & ->).
  rewrite Hb in Hb'. now inversion Hb'.
Qed.

Lemma generateOrganic_first startMcap numCandles volatility w cs w' c s1 w1 :
  generateOrganic startMcap numCandles volatility w = Some (cs, w') ->
  (0 < numCandles)%Z ->
  organicStep (or_default (lookup volatility organicVolMap) 0.02) 0
    {| post_currentMcap := startMcap;
       post_volumeAvg := mean [80000; 120000] |} w = Some (c, s1, w1) ->
  hd_error cs = Some c.
Proof.
  unfold generateOrganic. cbv zeta. intros H Hn Hb.
  apply bind_inv in H. destruct H as ([cs0 s2] & w2 & Hl & H).
  apply ret_inv in H. pair_inv H.
  eapply for_loop_first; [exact Hl | lia | exact Hb].
Qed.

Lemma generateInstantRug_first startMcap numCandles volatility w cs w'
    rugPoint w0 c s1 w1 :
  generateInstantRug startMcap numCandles volatility w = Some (cs, w') ->
  (0 < numCandles)%Z ->
  randomInt 10 30 w = Some (rugPoint, w0) ->
  instantRugStep (or_default (lookup volatility rugVolMap) 0.02) rugPoint 0
    startMcap w0 = Some (c, s1, w1) ->
  hd_error cs = Some c.
Proof.
  unfold generateInstantRug. intros H Hn Hr Hb.
  apply bind_inv in H. destruct H as (rp & w2 & Hr' & H).
  rewrite Hr in Hr'. pair_inv Hr'. inversion Hr'; subst.
  cbv zeta in H.
  apply bind_inv in H. destruct H as ([cs0 s2] & w3 & Hl & H).
  apply ret_inv in H. pair_inv H.
  eapply for_loop_first; [exact Hl | lia | exact Hb].
Qed.

Lemma generateInstantRug_prefix startMcap numCandles volatility w cs w'
    rugPoint w0 a cs1 s1 w1 :
  generateInstantRug startMcap numCandles volatility w = Some (cs, w') ->
  randomInt 10 30 w = Some (rugPoint, w0) ->
  (Z.of_nat a <= numCandles)%Z ->
  for_loop (instantRugStep (or_default (lookup volatility rugVolMap) 0.02)
              rugPoint) a 0 startMcap w0 = Some (cs1, s1, w1) ->
  exists cs2, cs = cs1 ++ cs2.
Proof.
  unfold generateInstantRug. intros H Hr Ha Hp.
  apply bind_inv in H. destruct H as (rp & w2 & Hr' & H).
  rewrite Hr in Hr'. apply Some_eq_inv in Hr'. pair_inv Hr'.
  cbv zeta in H.
  apply bind_inv in H. destruct H as ([cs0 s2] & w3 & Hl & H).
  apply ret_inv in H. pair_inv H.
  replace (Z.to_nat numCandles) with (a + (Z.to_nat numCandles - a))%nat
    in Hl by lia.
  apply for_loop_app in Hl.
  destruct Hl as (l1 & t1 & v1 & l2 & H1 & _ & ->).
  rewrite Hp in H1. apply Some_eq_inv in H1. pair_inv H1.
  exists l2. reflexivity.
Qed.

Lemma generatePostBonding_intro startMcap sc volatility w n w1 r :
  randomInt 500 1500 w = Some (n, w1) ->
  scenarioGenerator sc startMcap n volatility w1 = Some r ->
  generatePostBonding startMcap sc volatility w = Some r.
Proof.
  intros Hn Hs. unfold generatePostBonding, bind. rewrite Hn. exact Hs.
Qed.

Lemma generateSlowBleed_first startMcap numCandles volatility w cs w'
    r w0 c s1 w1 :
  generateSlowBleed startMcap numCandles volatility w = Some (cs, w') ->
  (0 < numCandles)%Z ->
  random 0.1 0.2 w = Some (r, w0) ->
  slowBleedStep (or_default (lookup volatility bleedVolMap) 0.015)
    (Math_log math (startMcap * r / startMcap) / inject_Z numCandles)
    numCandles 0 startMcap w0 = Some (c, s1, w1) ->
  hd_error cs = Some c.
Proof.
  unfold generateSlowBleed. cbv zeta. intros H Hn Hr Hb.
  apply bind_inv in H. destruct H as (r' & w2 & Hr' & H).
  rewrite Hr in Hr'. apply Some_eq_inv in Hr'. pair_inv Hr'.
  apply bind_inv in H. destruct H as ([cs0 s2] & w3 & Hl & H).
  apply ret_inv in H. pair_inv H.
  eapply for_loop_first; [exact Hl | lia | exact Hb].
Qed.

Lemma generateConsolidation_first startMcap numCandles volatility w cs w'
    m w0 c s1 w1 :
  generateConsolidation startMcap numCandles volatility w = Some (cs, w') ->
  (0 < numCandles)%Z ->
  Math_random w = Some (m, w0) ->
  consolidationStep (or_default (lookup volatility consolidationVolMap) 0.012)
    numCandles (Qfloor (inject_Z numCandles * 0.7)) (Qlt_bool 0.5 m)
    ((startMcap * 1.1 + startMcap * 0.9) / 2) 0 startMcap w0
  = Some (c, s1, w1) ->
  hd_error cs = Some c.
Proof.
  unfold generateConsolidation. cbv zeta. intros H Hn Hr Hb.
  apply bind_inv in H. destruct H as (m' & w2 & Hr' & H).
  rewrite Hr in Hr'. apply Some_eq_inv in Hr'. pair_inv Hr'.
  apply bind_inv in H. destruct H as ([cs0 s2] & w3 & Hl & H).
  apply ret_inv in H. pair_inv H.
  eapply for_loop_first; [exact Hl | lia | exact Hb].
Qed.

Lemma scenarioGenerator_unknown (sc : string) :
  known_scenario sc = false -> scenarioGenerator sc = generateOrganic.
Proof.
  unfold known_scenario, scenarios. cbn [existsb]. intros H.
  repeat (apply orb_false_iff in H; destruct H as [? H]).
  unfold scenarioGenerator.
  repeat match goal with E : String.eqb sc _ = false |- _ =>
    rewrite E; clear E end.
  reflexivity.
Qed.

Lemma generatePostBonding_unknown (sc : string) startMcap volatility w :
  known_scenario sc = false ->
  generatePostBonding startMcap sc volatility w
  = generatePostBonding startMcap "organic" volatility w.
Proof.
  intros H. unfold generatePostBonding.
  now rewrite (scenarioGenerator_unknown sc H).
Qed.

Lemma finalScenario_given (sc : string) w :
  sc <> "random" -> finalScenario sc w = Some (sc, w).
Proof.
  intros H. unfold finalScenario.
  apply String.eqb_neq in H. now rewrite H.
Qed.

(** C7 (as the code has it). A scenario name that is none of organic,
    pump_dump, instant_rug, slow_bleed, consolidation and random is not
    rejected: [generatePostBonding] takes the [default] branch, so
    [generate] returns, labelled with the name as given, exactly the chart
    it returns for "organic" from the same state. *)
Theorem unknown_scenario_is_organic (sc : string) :
  known_scenario sc = false -> sc <> "random" ->
  forall phases options w,
    phases <> [] -> opt_scenario options = sc ->
    exists r w',
      generate phases options w = Some (r, w')
      /\ scenario r = sc
      /\ generate phases
           {| chartType := chartType options; opt_scenario := "organic";
              volatility := volatility options |} w
         = Some ({| id := id r; scenario := "organic"; data := data r;
                    metadata := metadata r |}, w').
Proof using Type random_range rng_productive rng_range.
  intros Hunk Hnr phases options w Hne Hsc.
  destruct (total_generate phases options Hne w) as [[r w'] Hg].
  exists r, w'. split; [assumption|].
  revert Hg. unfold generate, bind. cbn [chartType opt_scenario volatility].
  rewrite Hsc, (finalScenario_given sc w Hnr).
  rewrite (finalScenario_given "organic" w) by discriminate.
  destruct (Math_random w) as [[mid w1]|]; [|discriminate].
  destruct (if _ || _ then _ else _) as [[d1 w2]|]; [|discriminate].
  destruct (String.eqb (chartType options) "full"
            || String.eqb (chartType options) "post").
  - rewrite (generatePostBonding_unknown sc) by assumption.
    destruct (generatePostBonding _ "organic" _ w2) as [[post w3]|];
      [|discriminate].
    unfold ret. intros H. inversion H; subst. split; reflexivity.
  - unfold ret. intros H. inversion H; subst. split; reflexivity.
Qed.

(** ** The bonding ceiling after bonding *)

Lemma organicStep_ceiling vol i s w c s' w' :
  organicStep vol i s w = Some (c, s', w') ->
  close c <= BONDING_MCAP /\ high c <= BONDING_MCAP * 1.005.
Proof.
  unfold organicStep. intros H. minv H. pair_inv H.
  cbn [close high]. split.
  - destruct (Qlt_bool BONDING_MCAP _) eqn:E; [apply Qle_refl|].
    now apply Qlt_bool_false in E.
  - apply Q.le_min_r.
Qed.


Lemma pumpPhaseLoop_Forall vol numCandles phase (P : Candle -> Prop) :
  (forall i s w c s' w',
      pumpDumpStep vol phase i s w = Some (c, s', w') -> P c) ->
  forall n i s w cs s' w',
    pumpPhaseLoop vol numCandles phase n i s w = Some (cs, s', w') ->
    Forall P cs.
Proof.
  intros Hstep. induction n as [|n IH]; intros i s w cs s' w' H.
  - simpl in H. apply ret_inv in H. pair_inv H. constructor.
  - destruct (candleCount s <? numCandles)%Z eqn:E.
    + apply pumpPhaseLoop_inv in H; [|assumption].
      destruct H as (c & s1 & w1 & cs1 & Hb & Hl & ->).
      constructor; eauto.
    + simpl in H. rewrite E in H. apply ret_inv in H. pair_inv H.
      constructor.
Qed.


(** An organic segment that starts above the wick allowance opens its
    first candle above that candle's own high. *)
Lemma organic_high_below_open startMcap numCandles volatility w cs w' :
  generateOrganic startMcap numCandles volatility w = Some (cs, w') ->
  BONDING_MCAP * 1.005 < startMcap -> (0 < numCandles)%Z ->
  exists c, hd_error cs = Some c /\ open c = startMcap /\ high c < open c.
Proof.
  intros H Hstart Hn. pose proof H as Hshape.
  apply generateOrganic_shape in Hshape. destruct Hshape as [Hch Hlen].
  unfold generateOrganic in H. cbv zeta in H.
  apply bind_inv in H. destruct H as ([cs0 s2] & w2 & Hl & H).
  apply ret_inv in H. apply pair_equal_spec in H. destruct H as [<- <-].
  assert (Hall : Forall (fun c => high c <= BONDING_MCAP * 1.005) cs).
  { eapply for_loop_Forall; [|exact Hl].
    intros i s w3 c s' w4 Hstep. now apply organicStep_ceiling in Hstep. }
  destruct cs as [|c cs]; [simpl in Hlen; lia|].
  destruct Hch as [Ho _]. inversion Hall; subst.
  exists c. split; [reflexivity|]. split; [reflexivity|]. lra.
Qed.

Lemma floor_quarter (n : Z) : Qfloor (inject_Z n * 0.25) = (n / 4)%Z.
Proof.
  change (Qfloor (inject_Z n * 0.25)) with (n * 25 / 100)%Z.
  Z.to_euclidean_division_equations. lia.
Qed.


(** ** Volume, and the clamps on the low *)

Lemma preBondingStep_volume phases vol numCandles i s w c s' w' :
  preBondingStep phases vol numCandles i s w = Some (c, s', w') ->
  0 < volume c.
Proof.
  unfold preBondingStep. intros H. minv H. pair_inv H. cbn [volume].
  apply Qlt_le_trans with 10000; [reflexivity | apply Q.le_max_l].
Qed.

Lemma organicStep_volume vol i s w c s' w' :
  organicStep vol i s w = Some (c, s', w') ->
  0 < volume c /\ open c * 0.9 <= low c.
Proof.
  unfold organicStep. intros H. minv H. pair_inv H. cbn [volume low open].
  split; [|apply Q.le_max_r].
  apply Qlt_le_trans with 15000; [reflexivity | apply Q.le_max_l].
Qed.

Lemma pumpDumpStep_volume vol phase i s w c s' w' :
  pumpDumpStep vol phase i s w = Some (c, s', w') ->
  0 < volume c /\ open c * 0.85 <= low c.
Proof.
  unfold pumpDumpStep. intros H. minv H. pair_inv H. cbn [volume low open].
  split; [|apply Q.le_max_r].
  apply Qlt_le_trans with 20000; [reflexivity | apply Q.le_max_l].
Qed.

Lemma instantRugStep_volume vol rugPoint i s w c s' w' :
  instantRugStep vol rugPoint i s w = Some (c, s', w') -> 0 < volume c.
Proof using Type random_range.
  unfold instantRugStep. intros H. minv H. pair_inv H. cbn [volume].
  destruct (Z.of_nat i <? rugPoint)%Z; [|destruct (Z.of_nat i =? rugPoint)%Z];
    minv Hrun; pair_inv Hrun;
    repeat match goal with
    | Hm : Math_random _ = Some _ |- _ =>
        apply Math_random_inv in Hm; destruct Hm as (_ & ? & _)
    end; lra.
Qed.

Lemma slowBleedStep_volume vol baseDecline numCandles i s w c s' w' :
  slowBleedStep vol baseDecline numCandles i s w = Some (c, s', w') ->
  (Z.of_nat i < numCandles)%Z -> 0 < volume c.
Proof using Type random_range.
  unfold slowBleedStep. intros H Hi. minv H. pair_inv H. cbn [volume].
  repeat match goal with
  | Hm : Math_random _ = Some _ |- _ =>
      apply Math_random_inv in Hm; destruct Hm as (_ & ? & _)
  end.
  assert (Hp : ofNat i / inject_Z numCandles <= 1).
  { apply Qle_shift_div_r.
    - change 0 with (inject_Z 0). rewrite <- Zlt_Qlt. lia.
    - unfold ofNat. rewrite Qmult_1_l, <- Zle_Qle. lia. }
  lra.
Qed.

Lemma consolidationStep_volume vol numCandles cEnd up center i s w c s' w' :
  consolidationStep vol numCandles cEnd up center i s w = Some (c, s', w') ->
  0 < volume c.
Proof using Type random_range.
  unfold consolidationStep. intros H. minv H. pair_inv H. cbn [volume].
  destruct (Z.of_nat i <? cEnd)%Z; minv Hrun; pair_inv Hrun;
    repeat match goal with
    | Hm : Math_random _ = Some _ |- _ =>
        apply Math_random_inv in Hm; destruct Hm as (_ & ? & _)
    end; lra.
Qed.

Lemma pumpPhasesLoop_Forall vol numCandles (P : Candle -> Prop) :
  (forall phase i s w c s' w',
      pumpDumpStep vol phase i s w = Some (c, s', w') -> P c) ->
  forall phases s w cs s' w',
    pumpPhasesLoop vol numCandles phases s w = Some (cs, s', w') ->
    Forall P cs.
Proof.
  intros Hstep. induction phases as [|ph phases IH]; intros s w cs s' w' H.
  - simpl in H. apply ret_inv in H. pair_inv H. constructor.
  - apply pumpPhasesLoop_inv in H.
    destruct H as (cs1 & s1 & w1 & cs2 & H1 & H2 & ->).
    apply Forall_app. split; [|eauto].
    eapply pumpPhaseLoop_Forall; [|exact H1]. intros. eapply Hstep. eassumption.
Qed.

Lemma scenarioGenerator_volume scenario startMcap numCandles volatility
    w cs w' :
  scenarioGenerator scenario startMcap numCandles volatility w = Some (cs, w') ->
  Forall (fun c => 0 < volume c) cs.
Proof using Type random_range.
  assert (Ho : forall w cs w',
             generateOrganic startMcap numCandles volatility w = Some (cs, w') ->
             Forall (fun c => 0 < volume c) cs).
  { clear. intros w cs w' H. unfold generateOrganic in H. cbv zeta in H.
    apply bind_inv in H. destruct H as ([cs0 s2] & w2 & Hl & H).
    apply ret_inv in H. pair_inv H.
    eapply for_loop_Forall; [|exact Hl].
    intros i s w3 c s' w4 Hstep. now apply organicStep_volume in Hstep. }
  unfold scenarioGenerator.
  destruct (String.eqb scenario "organic"); [apply Ho|].
  destruct (String.eqb scenario "pump_dump").
  { intros H. unfold generatePumpDump in H. cbv zeta in H.
    apply bind_inv in H. destruct H as ([cs0 s2] & w2 & Hl & H).
    apply ret_inv in H. pair_inv H.
    eapply pumpPhasesLoop_Forall; [|exact Hl].
    intros ph i s w3 c s' w4 Hstep. now apply pumpDumpStep_volume in Hstep. }
  destruct (String.eqb scenario "instant_rug").
  { intros H. unfold generateInstantRug in H.
    apply bind_inv in H. destruct H as (rp & w1 & Hr & H). cbv zeta in H.
    apply bind_inv in H. destruct H as ([cs0 s2] & w2 & Hl & H).
    apply ret_inv in H. pair_inv H.
    eapply for_loop_Forall; [|exact Hl].
    intros i s w3 c s' w4 Hstep. now apply instantRugStep_volume in Hstep. }
  destruct (String.eqb scenario "slow_bleed").
  { intros H. pose proof H as Hshape.
    apply generateSlowBleed_shape in Hshape. destruct Hshape as [_ Hlen].
    unfold generateSlowBleed in H. cbv zeta in H.
    apply bind_inv in H. destruct H as (r & w1 & Hr & H).
    apply bind_inv in H. destruct H as ([cs0 s2] & w2 & Hl & H).
    apply ret_inv in H. pair_inv H.
    apply (for_loop_nth _ (fun _ _ => True)
             (fun i c => (Z.of_nat i < numCandles)%Z -> 0 < volume c)) in Hl;
      [|intros i s w3 c s' w4 _ Hstep; split; [|exact I]; intros Hi;
        now apply slowBleedStep_volume in Hstep | exact I].
    destruct Hl as [_ Hall]. apply Forall_forall. intros c Hin.
    apply In_nth_error in Hin. destruct Hin as [k Hk].
    apply (Hall k c Hk). simpl.
    assert (Hlt : (k < List.length cs0)%nat)
      by (apply nth_error_Some; congruence).
    lia. }
  destruct (String.eqb scenario "consolidation"); [|apply Ho].
  intros H. unfold generateConsolidation in H. cbv zeta in H.
  apply bind_inv in H. destruct H as (m & w1 & Hr & H).
  apply bind_inv in H. destruct H as ([cs0 s2] & w2 & Hl & H).
  apply ret_inv in H. pair_inv H.
  eapply for_loop_Forall; [|exact Hl].
  intros i s w3 c s' w4 Hstep. now apply consolidationStep_volume in Hstep.
Qed.

(** The part of the candle invariant that every chart does satisfy: the
    volume of every candle is positive. *)
Lemma generate_volume_positive phases options w :
  phases <> [] ->
  exists r w',
    generate phases options w = Some (r, w')
    /\ Forall (fun c => 0 < volume c) (map candle (data r)).
Proof using Type rng_range random_range rng_productive.
  intros Hne. destruct (total_generate phases options Hne w) as [[r w'] Hg].
  exists r, w'. split; [assumption|].
  apply generate_inv in Hg.
  destruct Hg as (sc & w0 & mid & w1 & pre & w2 & post
                  & _ & _ & Hpre & Hpost & ->).
  cbn [data]. rewrite map_candle_stamp. apply Forall_app. split.
  - destruct (wantsPre options); [|destruct Hpre as [-> _]; constructor].
    apply generatePreBonding_inv in Hpre.
    destruct Hpre as (n & w3 & s' & _ & Hl).
    eapply for_loop_Forall; [|exact Hl].
    intros i s w4 c s1 w5 Hstep. now apply preBondingStep_volume in Hstep.
  - destruct (wantsPost options); [|destruct Hpost as [-> _]; constructor].
    apply generatePostBonding_inv in Hpost.
    destruct Hpost as (n & w3 & _ & _ & Hs).
    now apply scenarioGenerator_volume in Hs.
Qed.

(** ** The instant rug *)

Lemma random_inv (lo hi : Q) w x w' :
  random lo hi w = Some (x, w') ->
  exists r, 0 <= r /\ r < 1 /\ x = r * (hi - lo) + lo.
Proof using Type rng_range.
  unfold random. intros H. minv H. apply rng_inv in Hrun.
  destruct Hrun as (_ & H0 & H1). pair_inv H. eauto.
Qed.






Lemma rugVol_range (volatility : string) :
  let vol := or_default (lookup volatility rugVolMap) 0.02 in
  0 < vol /\ vol <= 0.04.
Proof.
  unfold rugVolMap. cbn [lookup].
  repeat (destruct (String.eqb volatility _); [cbn; split; lra|]).
  cbn. split; lra.
Qed.





(** ** Zone-aware mean reversion *)








(** ** Charts of one stage alone *)

Lemma generatePreBonding_first phases volatility w cs w' n w0 c s1 w1 :
  generatePreBonding phases volatility w = Some (cs, w') ->
  randomInt 150 400 w = Some (n, w0) ->
  preBondingStep phases (or_default (lookup volatility preVolMap) 0.15) n 0
    preBondingStart w0 = Some (c, s1, w1) ->
  hd_error cs = Some c.
Proof using Type rng_range.
  intros H Hn Hb. apply generatePreBonding_inv in H.
  destruct H as (n' & w2 & s' & Hn' & Hl).
  rewrite Hn in Hn'. apply Some_eq_inv in Hn'. pair_inv Hn'.
  apply randomInt_inv in Hn; [|lia].
  eapply for_loop_first; [exact Hl | lia | exact Hb].
Qed.

Lemma generate_pre_only phases options w r w' :
  chartType options = "pre" -> opt_scenario options <> "random" ->
  generate phases options w = Some (r, w') ->
  exists mid w1 pre,
    Math_random w = Some (mid, w1)
    /\ generatePreBonding phases (volatility options) w1 = Some (pre, w')
    /\ map candle (data r) = pre
    /\ metadata r = calculateMetadata pre.
Proof.
  intros Hct Hsc H. apply generate_inv in H.
  destruct H as (sc & w0 & mid & w1 & pre & w2 & post
                 & Hfs & Hid & Hpre & Hpost & ->).
  rewrite (finalScenario_given _ w Hsc) in Hfs. pair_inv Hfs.
  inversion Hfs; subst sc w0. clear Hfs.
  unfold wantsPre, wantsPost in *. rewrite Hct in *.
  cbn [String.eqb Ascii.eqb Bool.eqb orb andb] in Hpre, Hpost.
  destruct Hpost as [-> ->].
  exists mid, w1, pre. cbn [data metadata].
  rewrite map_candle_stamp, app_nil_r. repeat split; assumption.
Qed.

Lemma generate_post_only phases options w r w' :
  chartType options = "post" -> opt_scenario options <> "random" ->
  generate phases options w = Some (r, w') ->
  exists mid w1 post,
    Math_random w = Some (mid, w1)
    /\ generatePostBonding BONDING_MCAP (opt_scenario options)
         (volatility options) w1 = Some (post, w')
    /\ map candle (data r) = post
    /\ scenario r = opt_scenario options.
Proof.
  intros Hct Hsc H. apply generate_inv in H.
  destruct H as (sc & w0 & mid & w1 & pre & w2 & post
                 & Hfs & Hid & Hpre & Hpost & ->).
  rewrite (finalScenario_given _ w Hsc) in Hfs. pair_inv Hfs.
  inversion Hfs; subst sc w0. clear Hfs.
  unfold wantsPre, wantsPost in *. rewrite Hct in *.
  cbn [String.eqb Ascii.eqb Bool.eqb orb andb] in Hpre, Hpost.
  destruct Hpre as [-> ->].
  exists mid, w1, post. cbn [data scenario]. rewrite map_candle_stamp.
  repeat split; assumption.
Qed.

(** ** The random utilities *)

Lemma rng_step w r w' :
  rng w = Some (r, w') ->
  r = rng_stream (rng_pos w)
  /\ rng_pos w' = S (rng_pos w) /\ random_pos w' = random_pos w.
Proof. unfold rng. intros H. inversion H; subst. auto. Qed.

Lemma Math_random_step w r w' :
  Math_random w = Some (r, w') ->
  r = random_stream (random_pos w)
  /\ rng_pos w' = rng_pos w /\ random_pos w' = S (random_pos w).
Proof. unfold Math_random. intros H. inversion H; subst. auto. Qed.

(** X1. [randomInt(min, max)], for integer bounds [min <= max] that a double
    holds exactly (at most [2 ^ 51] in size), reads exactly one number [r]
    of the seeded stream and none of [Math.random], and returns an integer
    between [min] and [max] with both ends included: it is [min] when the
    draw is 0, and [max] as soon as [r * (max - min + 1)] reaches
    [max - min]. *)
Theorem randomInt_inclusive_range (ilo ihi : Z) (w : RandomState) :
  (- 2 ^ 51 <= ilo)%Z -> (ilo <= ihi)%Z -> (ihi <= 2 ^ 51)%Z ->
  exists n w',
    randomInt ilo ihi w = Some (n, w')
    /\ (ilo <= n <= ihi)%Z
    /\ (rng_stream (rng_pos w) == 0 -> n = ilo)
    /\ (inject_Z (ihi - ilo)
        <= rng_stream (rng_pos w) * inject_Z (ihi - ilo + 1) -> n = ihi)
    /\ rng_pos w' = S (rng_pos w) /\ random_pos w' = random_pos w.
Proof using Type rng_range.
  intros _ Hz _. destruct (rng_range (rng_pos w)) as [H0 H1].
  eexists _, _. split; [reflexivity|].
  split; [eapply randomInt_inv; [exact Hz | reflexivity]|].
  split; [|split; [|split; reflexivity]].
  - intros E. rewrite E, Qmult_0_l. reflexivity.
  - intros Hr.
    assert (Hf : (ihi - ilo <= Qfloor (rng_stream (rng_pos w)
                                        * inject_Z (ihi - ilo + 1)))%Z).
    { apply Z.le_trans with (Qfloor (inject_Z (ihi - ilo)));
        [rewrite Qfloor_Z; lia | apply Qfloor_resp_le; exact Hr]. }
    assert (Hb : (ilo <= Qfloor (rng_stream (rng_pos w)
                                  * inject_Z (ihi - ilo + 1)) + ilo <= ihi)%Z)
      by (eapply randomInt_inv; [exact Hz | reflexivity]).
    lia.
Qed.

Lemma rng_nonzero_inv : forall n w u w',
  rng_nonzero n w = Some (u, w') ->
  exists j,
    (j < n)%nat
    /\ (forall m, (m < j)%nat -> rng_stream (rng_pos w + m) == 0)
    /\ ~ rng_stream (rng_pos w + j) == 0
    /\ u = rng_stream (rng_pos w + j)
    /\ rng_pos w' = (rng_pos w + j + 1)%nat
    /\ random_pos w' = random_pos w.
Proof.
  induction n as [|n IH]; intros w u w' H; [discriminate|].
  simpl in H. apply bind_inv in H. destruct H as (u0 & w1 & Hr & H).
  apply rng_step in Hr. destruct Hr as (-> & Hp & Hq).
  destruct (Qeq_bool (rng_stream (rng_pos w)) 0) eqn:E.
  - apply IH in H. destruct H as (j & Hj & Hz & Hnz & Hu & Hp' & Hq').
    rewrite Hp in Hz, Hnz, Hu, Hp'.
    exists (S j). split; [lia|]. split.
    + intros [|m] Hm.
      * rewrite Nat.add_0_r. now apply Qeq_bool_iff.
      * rewrite Nat.add_succ_r. apply (Hz m). lia.
    + rewrite Nat.add_succ_r.
      repeat split; first [assumption | lia | congruence].
  - apply ret_inv in H. pair_inv H.
    exists 0%nat. rewrite Nat.add_0_r. split; [lia|].
    split; [intros m Hm; lia|]. split.
    + intros Hz. apply Qeq_bool_iff in Hz. congruence.
    + repeat split; first [assumption | lia].
Qed.

(** X2. On a seeded stream of numbers in [0,1) that delivers a non-zero
    number within [fuel] draws of every position, [gaussianRandom] returns
    from every state.  It skips the zeros of the stream: [u] is the first
    non-zero draw, [v] the first non-zero draw after it, both strictly
    between 0 and 1, so [Math.log] is never applied to 0.  The sample is
    [sqrt(-2 log u) * cos(2 PI v)]; the seeded cursor advances by two plus
    the zeros skipped, and [Math.random] is not read. *)
Theorem gaussianRandom_skips_zeros (w : RandomState) :
  exists g w' j k,
    gaussianRandom w = Some (g, w')
    /\ (forall m, (m < j)%nat -> rng_stream (rng_pos w + m) == 0)
    /\ (forall m, (m < k)%nat -> rng_stream (rng_pos w + j + 1 + m) == 0)
    /\ (let u := rng_stream (rng_pos w + j) in
        let v := rng_stream (rng_pos w + j + 1 + k) in
        0 < u /\ u < 1 /\ 0 < v /\ v < 1
        /\ g = Math_sqrt math (-2.0 * Math_log math u)
               * Math_cos math (2.0 * Math_PI math * v))
    /\ rng_pos w' = (rng_pos w + j + k + 2)%nat
    /\ random_pos w' = random_pos w.
Proof using Type rng_productive rng_range.
  destruct (total_gaussianRandom w) as [[g w'] Hg].
  pose proof Hg as H. unfold gaussianRandom in H.
  apply bind_inv in H. destruct H as (u & w1 & Hu & H).
  apply bind_inv in H. destruct H as (v & w2 & Hv & H).
  apply ret_inv in H. pair_inv H.
  apply rng_nonzero_inv in Hu.
  destruct Hu as (j & _ & Hzu & Hnu & Eu & Hp1 & Hq1).
  apply rng_nonzero_inv in Hv.
  destruct Hv as (k & _ & Hzv & Hnv & Ev & Hp2 & Hq2).
  rewrite Hp1 in Hzv, Hnv, Ev, Hp2.
  eexists _, _, j, k. split; [exact Hg|].
  split; [exact Hzu|]. split; [exact Hzv|]. split.
  - cbv zeta. rewrite <- Eu, <- Ev.
    destruct (rng_range (rng_pos w + j)) as [U0 U1].
    destruct (rng_range (rng_pos w + j + 1 + k)) as [V0 V1].
    rewrite <- Eu in U0, U1, Hnu. rewrite <- Ev in V0, V1, Hnv.
    repeat split; try assumption.
    + destruct (Qlt_le_dec 0 u); [assumption|]. exfalso. apply Hnu. lra.
    + destruct (Qlt_le_dec 0 v); [assumption|]. exfalso. apply Hnv. lra.
  - split; [lia | congruence].
Qed.

(** ** The chart record *)

Lemma floor_seconds (ms : Z) : Qfloor (inject_Z ms / 1000) = (ms / 1000)%Z.
Proof.
  unfold Qfloor, Qdiv, Qmult, Qinv, inject_Z. simpl. f_equal. lia.
Qed.

Lemma stamp_length now len : forall cs i,
  List.length (stamp now len i cs) = List.length cs.
Proof.
  induction cs as [|c cs IH]; intros i; simpl; [reflexivity|].
  now rewrite IH.
Qed.

Lemma stamp_nth now len : forall cs i k tc,
  nth_error (stamp now len i cs) k = Some tc ->
  time tc = (now - (Z.of_nat len - Z.of_nat (i + k)) * 60)%Z.
Proof.
  induction cs as [|c cs IH]; intros i k tc H.
  - destruct k; discriminate.
  - destruct k as [|k]; simpl in H.
    + apply Some_eq_inv in H. subst tc. cbn [time].
      now rewrite Nat.add_0_r.
    + apply IH in H. rewrite H. f_equal. f_equal. lia.
Qed.

(** X3. The candles of a chart are stamped one minute apart, in ascending
    order, and all in the past: with [now = floor(Date.now() / 1000)] and
    [n] candles, candle [k] carries [now - (n - k) * 60], so each candle is
    60 seconds after the one before it and the last one is at
    [now - 60]. *)
Theorem generate_timestamps (phases : list Phase) (options : Options)
    (w : RandomState) :
  phases <> [] ->
  exists r w',
    generate phases options w = Some (r, w')
    /\ let now := (Date_now / 1000)%Z in
       let n := Z.of_nat (List.length (data r)) in
       (forall k tc, nth_error (data r) k = Some tc ->
                     time tc = (now - (n - Z.of_nat k) * 60)%Z)
       /\ (forall k t1 t2,
             nth_error (data r) k = Some t1 ->
             nth_error (data r) (S k) = Some t2 ->
             time t2 = (time t1 + 60)%Z)
       /\ (forall tc, In tc (data r) -> (time tc <= now - 60)%Z)
       /\ (forall tc, nth_error (data r) (List.length (data r) - 1) = Some tc ->
                      time tc = (now - 60)%Z).
Proof using Type random_range rng_productive rng_range.
  intros Hne. destruct (total_generate phases options Hne w) as [[r w'] Hg].
  exists r, w'. split; [assumption|].
  apply generate_inv in Hg.
  destruct Hg as (sc & w0 & mid & w1 & pre & w2 & post & _ & _ & _ & _ & ->).
  cbn [data]. rewrite floor_seconds, stamp_length. cbv zeta.
  set (cs := pre ++ post). set (now := (Date_now / 1000)%Z).
  assert (F : forall k tc,
             nth_error (stamp now (List.length cs) 0 cs) k = Some tc ->
             time tc = (now - (Z.of_nat (List.length cs) - Z.of_nat k) * 60)%Z).
  { intros k tc H. apply stamp_nth in H. exact H. }
  assert (B : forall k tc,
             nth_error (stamp now (List.length cs) 0 cs) k = Some tc ->
             (k < List.length cs)%nat).
  { intros k tc H. rewrite <- (stamp_length now (List.length cs) cs 0).
    apply nth_error_Some. congruence. }
  split; [exact F|]. split; [|split].
  - intros k t1 t2 H1 H2. rewrite (F _ _ H1), (F _ _ H2). lia.
  - intros tc Hin. apply In_nth_error in Hin. destruct Hin as [k Hk].
    rewrite (F _ _ Hk). specialize (B _ _ Hk). lia.
  - intros tc Hk. rewrite (F _ _ Hk). specialize (B _ _ Hk). lia.
Qed.

Lemma finalScenario_spec (s : string) w :
  exists sc w0,
    finalScenario s w = Some (sc, w0)
    /\ rng_pos w0 = rng_pos w
    /\ (if String.eqb s "random"
        then nth_error scenarios
               (Z.to_nat (Qfloor (random_stream (random_pos w) * 5))) = Some sc
             /\ random_pos w0 = S (random_pos w)
        else sc = s /\ w0 = w).
Proof using Type random_range.
  unfold finalScenario. destruct (String.eqb s "random").
  - destruct (random_range (random_pos w)) as [H0 H1].
    pose proof (floor_index _ (List.length scenarios) H0 H1) as Hf.
    destruct (array_get_in_range scenarios
                (Qfloor (random_stream (random_pos w)
                         * ofNat (List.length scenarios)))) as [sc Hsc].
    { apply Hf. simpl. lia. }
    exists sc. eexists. unfold bind, Math_random. rewrite Hsc.
    split; [reflexivity|]. split; [reflexivity|].
    split; [|reflexivity].
    unfold array_get in Hsc.
    destruct (Z.ltb_spec (Qfloor (random_stream (random_pos w)
                                  * ofNat (List.length scenarios))) 0);
      [discriminate | exact Hsc].
  - exists s, w. auto.
Qed.

Lemma known_scenario_In (sc : string) :
  In sc scenarios -> known_scenario sc = true /\ sc <> "random".
Proof.
  unfold scenarios. intros H. simpl in H.
  repeat (destruct H as [<-|H]; [split; [reflexivity | discriminate]|]).
  contradiction.
Qed.

(** X4. The [scenario] field of a chart.  A scenario other than "random"
    is copied to the result as given, recognized or not, and the one
    [Math.random] draw of the call goes to the chart id.  For "random" the
    first [Math.random] draw picks one of the five names, so the chart
    never reports "random" itself, and the second draw goes to the id. *)
Theorem generate_scenario_field (phases : list Phase) (options : Options)
    (w : RandomState) :
  phases <> [] ->
  exists r w',
    generate phases options w = Some (r, w')
    /\ if String.eqb (opt_scenario options) "random"
       then In (scenario r) scenarios
            /\ known_scenario (scenario r) = true
            /\ scenario r <> "random"
            /\ id_draw (id r) = random_stream (S (random_pos w))
       else scenario r = opt_scenario options
            /\ id_draw (id r) = random_stream (random_pos w).
Proof using Type random_range rng_productive rng_range.
  intros Hne. destruct (total_generate phases options Hne w) as [[r w'] Hg].
  exists r, w'. split; [assumption|].
  apply generate_inv in Hg.
  destruct Hg as (sc & w0 & mid & w1 & pre & w2 & post
                  & Hfs & Hid & _ & _ & ->).
  destruct (finalScenario_spec (opt_scenario options) w)
    as (sc' & w0' & Hfs' & _ & Hcase).
  rewrite Hfs in Hfs'. apply Some_eq_inv in Hfs'. pair_inv Hfs'.
  apply Math_random_step in Hid. destruct Hid as (-> & _ & _).
  cbn [scenario id id_draw].
  destruct (String.eqb (opt_scenario options) "random").
  - destruct Hcase as [Hn Hp]. rewrite Hp.
    apply nth_error_In in Hn. split; [exact Hn|].
    apply known_scenario_In in Hn. destruct Hn. auto.
  - destruct Hcase as [-> ->]. auto.
Qed.

(** X5. A [chartType] other than "full", "pre" and "post" is not rejected:
    neither segment is generated, so the chart has no candle and its
    metadata is the empty object; the seeded stream is not read at all. *)
Theorem generate_unknown_chartType (phases : list Phase) (options : Options)
    (w : RandomState) :
  chartType options <> "full" -> chartType options <> "pre" ->
  chartType options <> "post" ->
  exists r w',
    generate phases options w = Some (r, w')
    /\ data r = [] /\ metadata r = None
    /\ rng_pos w' = rng_pos w.
Proof using Type random_range.
  intros Hf Hp Hq. apply String.eqb_neq in Hf, Hp, Hq.
  destruct (finalScenario_spec (opt_scenario options) w)
    as (sc & w0 & Hfs & Hpos & _).
  unfold generate. cbv zeta. unfold bind at 1. rewrite Hfs.
  unfold bind at 1. unfold Math_random at 1. rewrite Hf, Hp, Hq.
  cbn [orb]. unfold bind, ret. eexists _, _. split; [reflexivity|].
  cbn [data metadata rng_pos]. auto.
Qed.

(** ** How many candles come out *)

Lemma floor_three_twentieths (n : Z) :
  Qfloor (inject_Z n * 0.15) = (3 * n / 20)%Z.
Proof.
  change (Qfloor (inject_Z n * 0.15)) with (n * 15 / 100)%Z.
  Z.to_euclidean_division_equations. lia.
Qed.

Lemma floor_seven_twentieths (n : Z) :
  Qfloor (inject_Z n * 0.35) = (7 * n / 20)%Z.
Proof.
  change (Qfloor (inject_Z n * 0.35)) with (n * 35 / 100)%Z.
  Z.to_euclidean_division_equations. lia.
Qed.

Lemma phaseCandles_pumpPhases (n : Z) :
  (0 <= n)%Z ->
  Z.of_nat (phaseCandles (pumpPhases n))
  = (n / 4 + n / 4 + 3 * n / 20 + 7 * n / 20)%Z.
Proof.
  intros Hn. unfold phaseCandles, pumpPhases. cbn [fold_right duration].
  rewrite floor_quarter, floor_three_twentieths, floor_seven_twentieths.
  assert (H1 : (0 <= n / 4)%Z) by (apply Z.div_pos; lia).
  assert (H2 : (0 <= 3 * n / 20)%Z) by (apply Z.div_pos; lia).
  assert (H3 : (0 <= 7 * n / 20)%Z) by (apply Z.div_pos; lia).
  lia.
Qed.

Lemma scenarioGenerator_length sc startMcap numCandles volatility w cs w' :
  sc <> "pump_dump" ->
  scenarioGenerator sc startMcap numCandles volatility w = Some (cs, w') ->
  List.length cs = Z.to_nat numCandles.
Proof.
  intros Hne. apply String.eqb_neq in Hne.
  unfold scenarioGenerator. rewrite Hne. clear Hne. cbv iota.
  repeat (destruct (String.eqb sc _);
          [intros H;
           first [ apply generateOrganic_shape in H
                 | apply generateInstantRug_shape in H
                 | apply generateSlowBleed_shape in H
                 | apply generateConsolidation_shape in H ];
           apply H|]).
  intros H. apply generateOrganic_shape in H. apply H.
Qed.


(** ** The shape of a candle *)

Lemma Qabs_lower (x : Q) : - x <= Qabs x.
Proof. rewrite <- Qabs_opp. apply Qle_Qabs. Qed.

(** Replace every [Qmax], [Qmin] and [Qabs] by a variable that keeps the
    bounds it is known by. *)
Ltac q_abstract :=
  repeat match goal with
  | |- _ <= Qmin _ _ => apply Q.min_glb
  | |- Qmax _ _ <= _ => apply Q.max_lub
  end;
  repeat first
    [ match goal with
      | |- context [Qmax ?a ?b] =>
          let x := fresh "x" in
          pose proof (Q.le_max_l a b); pose proof (Q.le_max_r a b);
          set (x := Qmax a b) in *; clearbody x
      | _ : context [Qmax ?a ?b] |- _ =>
          let x := fresh "x" in
          pose proof (Q.le_max_l a b); pose proof (Q.le_max_r a b);
          set (x := Qmax a b) in *; clearbody x
      end
    | match goal with
      | |- context [Qmin ?a ?b] =>
          let x := fresh "x" in
          pose proof (Q.le_min_l a b); pose proof (Q.le_min_r a b);
          set (x := Qmin a b) in *; clearbody x
      | _ : context [Qmin ?a ?b] |- _ =>
          let x := fresh "x" in
          pose proof (Q.le_min_l a b); pose proof (Q.le_min_r a b);
          set (x := Qmin a b) in *; clearbody x
      end
    | match goal with
      | |- context [Qabs ?a] =>
          let x := fresh "x" in
          pose proof (Qabs_nonneg a); pose proof (Qle_Qabs a);
          pose proof (Qabs_lower a);
          set (x := Qabs a) in *; clearbody x
      | _ : context [Qabs ?a] |- _ =>
          let x := fresh "x" in
          pose proof (Qabs_nonneg a); pose proof (Qle_Qabs a);
          pose proof (Qabs_lower a);
          set (x := Qabs a) in *; clearbody x
      end ].

(** A wick above [max(open, close)] cut at [cap], and one below
    [min(open, close)] raised to [floor]. *)
Lemma clamped_wicks (o c hw lw cap floor : Q) :
  0 <= hw -> 0 <= lw ->
  let high := Qmin (Qmax o c + hw) cap in
  let low := Qmax (Qmin o c - lw) floor in
  high <= cap /\ floor <= low
  /\ (o <= high /\ c <= high <-> o <= cap /\ c <= cap)
  /\ (low <= o /\ low <= c <-> floor <= o /\ floor <= c).
Proof.
  intros Hh Hl high low. unfold high, low.
  split; [apply Q.le_min_r|]. split; [apply Q.le_max_r|]. split; split.
  - intros [H1 H2]. pose proof (Q.le_min_r (Qmax o c + hw) cap). split; lra.
  - intros [H1 H2]. split; q_abstract; lra.
  - intros [H1 H2]. pose proof (Q.le_max_r (Qmin o c - lw) floor). split; lra.
  - intros [H1 H2]. split; q_abstract; lra.
Qed.

(** Wicks that are not cut. *)
Lemma free_wicks (o c hw lw : Q) :
  0 <= hw -> 0 <= lw ->
  o <= Qmax o c + hw /\ c <= Qmax o c + hw
  /\ Qmin o c - lw <= o /\ Qmin o c - lw <= c.
Proof. intros Hh Hl. repeat split; q_abstract; lra. Qed.

(** The wicks of a pre-bonding candle: sized by the body, held within
    [maxSwing] of the open, and cut at the ceiling and at zero. *)
Lemma preBonding_wicks (o c r cap : Q) :
  0 <= r -> o <= cap -> c <= cap ->
  let bodySize := Qabs (c - o) in
  let wickMultiplier := 0.5 + r * 0.8 in
  let highWick := bodySize * wickMultiplier in
  let lowWick := bodySize * wickMultiplier * 0.85 in
  let maxSwing := Qmax (bodySize * 1.5) (o * 0.05) in
  let high := Qmin (Qmin (Qmax o c + highWick) (o + maxSwing)) cap in
  let low := Qmax (Qmax (Qmin o c - lowWick) (o - maxSwing)) 0 in
  o <= high /\ c <= high /\ high <= cap /\ 0 <= low
  /\ (0 <= o -> 0 <= c -> low <= o /\ low <= c).
Proof.
  intros Hr Ho Hc. cbv zeta.
  assert (Hw : 0 <= Qabs (c - o) * (0.5 + r * 0.8)).
  { apply Qmult_le_0_compat; [apply Qabs_nonneg | lra]. }
  set (hw := Qabs (c - o) * (0.5 + r * 0.8)) in *.
  split; [|split; [|split; [|split]]].
  - q_abstract; lra.
  - q_abstract; lra.
  - apply Q.le_min_r.
  - apply Q.le_max_r.
  - intros Ho0 Hc0. split; q_abstract; lra.
Qed.
Lemma preBondingStep_bounds phases vol numCandles i s w c s' w' :
  pre_currentMcap s <= BONDING_MCAP * 1000 ->
  preBondingStep phases vol numCandles i s w = Some (c, s', w') ->
  (open c <= high c /\ close c <= high c /\ high c <= BONDING_MCAP * 1000
   /\ close c <= BONDING_MCAP * 1000 /\ 0 <= low c /\ 10000 <= volume c
   /\ (0 <= open c -> 0 <= close c -> low c <= open c /\ low c <= close c))
  /\ pre_currentMcap s' <= BONDING_MCAP * 1000.
Proof using Type rng_range.
  intros Hcur H. unfold preBondingStep in H. minv H. pair_inv H.
  cbn [open high low close volume pre_currentMcap].
  match goal with
  | Hr : rng _ = Some _ |- _ =>
      apply rng_inv in Hr; destruct Hr as (_ & Hr0 & _)
  end.
  match goal with
  | |- context [if Qlt_bool ?a ?b then _ else _] =>
      set (cl := if Qlt_bool a b then a else b) in *;
      assert (Hcl : cl <= a)
        by (unfold cl; destruct (Qlt_bool a b) eqn:E;
            [apply Qle_refl | now apply Qlt_bool_false in E]);
      clearbody cl
  end.
  destruct (preBonding_wicks (pre_currentMcap s) cl _ (BONDING_MCAP * 1000)
              Hr0 Hcur Hcl) as (H1 & H2 & H3 & H4 & H5).
  repeat split; try assumption; try apply Q.le_max_l.
  - now apply H5.
  - now apply H5.
Qed.

(** X7. The pre-bonding segment, 150 to 400 candles from 5000, for a
    volatility name that is not a property every object inherits.  Every
    candle that opens above zero has [high >= max(open, close)],
    [low >= 0], [volume >= 10000], and [close] and [high] at most the
    pre-bonding ceiling [BONDING_MCAP * 1000]; its low is at most
    [min(open, close)] whenever its close is not negative.  (Nothing keeps
    the close itself from going negative.) *)
Theorem preBonding_candle_bounds (phases : list Phase) (volatility : string)
    (w : RandomState) :
  phases <> [] -> ~ In volatility inherited_keys ->
  exists cs w',
    generatePreBonding phases volatility w = Some (cs, w')
    /\ (150 <= List.length cs <= 400)%nat
    /\ Forall (fun c =>
                 0 < open c ->
                 open c <= high c /\ close c <= high c
                 /\ high c <= BONDING_MCAP * 1000
                 /\ close c <= BONDING_MCAP * 1000
                 /\ 0 <= low c /\ 10000 <= volume c
                 /\ (0 <= close c ->
                     low c <= open c /\ low c <= close c)) cs.
Proof using Type rng_productive rng_range.
  intros Hne _.
  destruct (total_generatePreBonding phases volatility Hne w) as [[cs w'] Hg].
  exists cs, w'. split; [assumption|].
  split; [now apply generatePreBonding_shape in Hg|].
  apply generatePreBonding_inv in Hg. destruct Hg as (n & w1 & s' & _ & Hl).
  apply (for_loop_nth _ (fun _ s => pre_currentMcap s <= BONDING_MCAP * 1000)
           (fun _ c =>
              open c <= high c /\ close c <= high c
              /\ high c <= BONDING_MCAP * 1000
              /\ close c <= BONDING_MCAP * 1000
              /\ 0 <= low c /\ 10000 <= volume c
              /\ (0 <= open c -> 0 <= close c ->
                  low c <= open c /\ low c <= close c))) in Hl.
  - destruct Hl as [_ Hall]. apply Forall_forall. intros c Hin Ho.
    apply In_nth_error in Hin. destruct Hin as [k Hk].
    destruct (Hall k c Hk) as (A & B & C & D & E & F & G).
    repeat (split; [assumption|]). intros Hc. apply G; [lra | exact Hc].
  - intros i s w0 c s1 w2 HI Hstep.
    now apply (preBondingStep_bounds _ _ _ _ _ _ _ _ _ HI) in Hstep.
  - cbn [preBondingStart pre_currentMcap]. unfold INITIAL_MCAP, BONDING_MCAP.
    lra.
Qed.

Lemma array_get_In {A : Type} (xs : list A) (idx : Z) (x : A) :
  array_get xs idx = Some x -> In x xs.
Proof.
  unfold array_get. destruct (idx <? 0)%Z; [discriminate|].
  apply nth_error_In.
Qed.

Lemma organicStep_bounds vol i s w c s' w' :
  organicStep vol i s w = Some (c, s', w') ->
  close c <= BONDING_MCAP /\ high c <= BONDING_MCAP * 1.005
  /\ open c * 0.9 <= low c /\ 15000 <= volume c
  /\ (open c <= high c /\ close c <= high c
      <-> open c <= BONDING_MCAP * 1.005)
  /\ (low c <= open c /\ low c <= close c
      <-> 0 <= open c /\ open c * 0.9 <= close c).
Proof using Type rng_range.
  intros H. unfold organicStep in H. minv H. pair_inv H.
  match goal with Hp : (_, _) = (_, _) |- _ => pair_inv Hp end.
  cbn [open high low close volume].
  repeat match goal with
  | Hr : rng _ = Some _ |- _ =>
      apply rng_inv in Hr; destruct Hr as (_ & ? & _)
  end.
  match goal with
  | Ha : array_get _ _ = Some ?x |- _ =>
      apply array_get_In in Ha; assert (Hwm : 0 <= x)
        by (simpl in Ha;
            repeat (destruct Ha as [<-|Ha]; [lra|]); contradiction)
  end.
  match goal with
  | |- context [if Qlt_bool ?a ?b then _ else _] =>
      set (cl := if Qlt_bool a b then a else b) in *;
      assert (Hcl : cl <= a)
        by (unfold cl; destruct (Qlt_bool a b) eqn:E;
            [apply Qle_refl | now apply Qlt_bool_false in E]);
      clearbody cl
  end.
  set (o := post_currentMcap s) in *.
  match goal with
  | |- context [Qmin (Qmax o cl + ?hw) _] =>
      match goal with
      | |- context [Qmax (Qmin o cl - ?lw) _] =>
          assert (Hhw : 0 <= hw)
            by (repeat apply Qmult_le_0_compat;
                first [assumption | apply Qabs_nonneg | lra]);
          assert (Hlw : 0 <= lw)
            by (repeat apply Qmult_le_0_compat;
                first [assumption | apply Qabs_nonneg | lra]);
          destruct (clamped_wicks o cl hw lw (BONDING_MCAP * 1.005) (o * 0.9)
                      Hhw Hlw) as (Wcap & Wfloor & Whigh & Wlow)
      end
  end.
  split; [assumption|]. split; [assumption|]. split; [assumption|].
  split; [apply Q.le_max_l|]. split.
  - rewrite Whigh. unfold BONDING_MCAP in *.
    split; [intros [? ?] | intros ?; split]; lra.
  - rewrite Wlow. split; [intros [? ?]; split | intros [? ?]; split]; lra.
Qed.

(** X8. An "organic" segment, for a volatility name that is not a property
    every object inherits.  Every candle that opens in range has
    [close <= BONDING_MCAP], [high <= BONDING_MCAP * 1.005], [low > 0] and
    [volume >= 15000]; its high is at least [max(open, close)] when it
    opens at or below the bonding threshold, and its low is at most
    [min(open, close)] when its close is no more than 10% below its open.
    In a segment that starts at or below the bonding threshold every
    candle opens at or below it. *)
Theorem organic_candle_bounds (startMcap : Q) (numCandles : Z)
    (volatility : string) (w : RandomState) :
  ~ In volatility inherited_keys ->
  exists cs w',
    generateOrganic startMcap numCandles volatility w = Some (cs, w')
    /\ Forall (fun c =>
                 opens_in_range c ->
                 close c <= BONDING_MCAP /\ high c <= BONDING_MCAP * 1.005
                 /\ 0 < low c /\ 15000 <= volume c
                 /\ (open c <= BONDING_MCAP ->
                     open c <= high c /\ close c <= high c)
                 /\ (open c * 0.9 <= close c ->
                     low c <= open c /\ low c <= close c)) cs
    /\ (startMcap <= BONDING_MCAP ->
        Forall (fun c => open c <= BONDING_MCAP) cs).
Proof using Type rng_productive rng_range.
  intros _.
  destruct (total_generateOrganic startMcap numCandles volatility w)
    as [[cs w'] Hg].
  exists cs, w'. split; [assumption|].
  unfold generateOrganic in Hg. cbv zeta in Hg.
  apply bind_inv in Hg. destruct Hg as ([cs0 s2] & w2 & Hl & Hg).
  apply ret_inv in Hg. pair_inv Hg. split.
  - eapply for_loop_Forall; [|exact Hl].
    intros i s w3 c s' w4 Hstep [Ho0 Ho1].
    apply organicStep_bounds in Hstep.
    destruct Hstep as (Hclose & Hhigh & Hlow & Hvol & Wh & Wl).
    split; [assumption|]. split; [assumption|]. split; [lra|].
    split; [assumption|]. split.
    + intros Hb. apply Wh. unfold BONDING_MCAP in *. lra.
    + intros Hc. apply Wl. split; [lra | exact Hc].
  - intros Hstart.
    apply (for_loop_nth _
             (fun _ s => post_currentMcap s <= BONDING_MCAP)
             (fun _ c => open c <= BONDING_MCAP)) in Hl.
    + destruct Hl as [_ Hall]. apply Forall_forall. intros c Hin.
      apply In_nth_error in Hin. destruct Hin as [k Hk]. exact (Hall k c Hk).
    + intros i s w3 c s' w4 HI Hstep.
      pose proof (organicStep_link _ _ _ _ _ _ _ Hstep) as [Ho Hc].
      apply organicStep_bounds in Hstep.
      destruct Hstep as (Hclose & _).
      rewrite Ho, <- Hc. split; assumption.
    + exact Hstart.
Qed.

Lemma pumpDumpStep_bounds vol phase i s w c s' w' :
  0 <= pd_volMult phase ->
  pumpDumpStep vol phase i s w = Some (c, s', w') ->
  close c < BONDING_MCAP * 1.005 /\ high c <= BONDING_MCAP * 1.01
  /\ open c * 0.85 <= low c /\ 20000 <= volume c
  /\ (open c <= high c /\ close c <= high c
      <-> open c <= BONDING_MCAP * 1.01)
  /\ (low c <= open c /\ low c <= close c
      <-> 0 <= open c /\ open c * 0.85 <= close c).
Proof using Type rng_range.
  intros Hvm H. unfold pumpDumpStep in H. minv H. pair_inv H.
  cbn [open high low close volume].
  match goal with
  | Hc : (if Qlt_bool BONDING_MCAP ?raw then _ else _) _ = Some (?cl, _) |- _ =>
      assert (Hcl : cl < BONDING_MCAP * 1.005)
        by (destruct (Qlt_bool BONDING_MCAP raw) eqn:E;
            [destruct (String.eqb (pd_name phase) "pump");
             [minv Hc; pair_inv Hc;
              repeat match goal with
              | Hr : rng _ = Some _ |- _ =>
                  apply rng_inv in Hr; destruct Hr as (_ & _ & ?)
              end
             |apply ret_inv in Hc; pair_inv Hc]
            |apply ret_inv in Hc; pair_inv Hc; apply Qlt_bool_false in E];
            unfold BONDING_MCAP in *; lra);
      clear Hc
  end.
  repeat match goal with
  | Hr : rng _ = Some _ |- _ =>
      apply rng_inv in Hr; destruct Hr as (_ & ? & _)
  end.
  set (o := pd_currentMcap s) in *.
  match goal with
  | |- context [Qmin (Qmax o ?cl + ?hw) _] =>
      match goal with
      | |- context [Qmax (Qmin o cl - ?lw) _] =>
          assert (Hhw : 0 <= hw)
            by (repeat apply Qmult_le_0_compat;
                first [assumption | apply Qabs_nonneg | lra]);
          assert (Hlw : 0 <= lw)
            by (repeat apply Qmult_le_0_compat;
                first [assumption | apply Qabs_nonneg | lra]);
          destruct (clamped_wicks o cl hw lw (BONDING_MCAP * 1.01) (o * 0.85)
                      Hhw Hlw) as (Wcap & Wfloor & Whigh & Wlow)
      end
  end.
  split; [assumption|]. split; [assumption|]. split; [assumption|].
  split; [apply Q.le_max_l|]. split.
  - rewrite Whigh. unfold BONDING_MCAP in *.
    split; [intros [? ?] | intros ?; split]; lra.
  - rewrite Wlow. split; [intros [? ?]; split | intros [? ?]; split]; lra.
Qed.

Lemma pumpPhaseLoop_invariant vol numCandles phase
    (I : PumpState -> Prop) (P : Candle -> Prop) :
  (forall i s w c s' w',
      I s -> pumpDumpStep vol phase i s w = Some (c, s', w') -> P c /\ I s') ->
  forall n i s w cs s' w',
    I s -> pumpPhaseLoop vol numCandles phase n i s w = Some (cs, s', w') ->
    Forall P cs /\ I s'.
Proof.
  intros Hstep. induction n as [|n IH]; intros i s w cs s' w' HI H.
  - simpl in H. apply ret_inv in H. pair_inv H. split; [constructor | exact HI].
  - destruct (candleCount s <? numCandles)%Z eqn:E.
    + apply pumpPhaseLoop_inv in H; [|assumption].
      destruct H as (c & s1 & w1 & cs1 & Hb & Hl & ->).
      destruct (Hstep _ _ _ _ _ _ HI Hb) as [Hc HI1].
      destruct (IH _ _ _ _ _ _ HI1 Hl) as [Hcs HI2].
      split; [constructor; assumption | exact HI2].
    + simpl in H. rewrite E in H. apply ret_inv in H. pair_inv H.
      split; [constructor | exact HI].
Qed.

Lemma pumpPhasesLoop_invariant vol numCandles
    (I : PumpState -> Prop) (P : Candle -> Prop) (G : PumpPhase -> Prop) :
  (forall phase i s w c s' w',
      G phase -> I s -> pumpDumpStep vol phase i s w = Some (c, s', w') ->
      P c /\ I s') ->
  forall phases s w cs s' w',
    Forall G phases -> I s ->
    pumpPhasesLoop vol numCandles phases s w = Some (cs, s', w') ->
    Forall P cs /\ I s'.
Proof.
  intros Hstep. induction phases as [|ph phases IH];
    intros s w cs s' w' HG HI H.
  - simpl in H. apply ret_inv in H. pair_inv H. split; [constructor | exact HI].
  - apply pumpPhasesLoop_inv in H.
    destruct H as (cs1 & s1 & w1 & cs2 & H1 & H2 & ->).
    inversion HG as [|? ? Hph Hrest]; subst.
    apply (pumpPhaseLoop_invariant _ _ _ I P) in H1;
      [|intros; eapply Hstep; eassumption | exact HI].
    destruct H1 as [Hcs1 HI1].
    destruct (IH _ _ _ _ _ Hrest HI1 H2) as [Hcs2 HI2].
    split; [apply Forall_app; split; assumption | exact HI2].
Qed.

Lemma pumpPhases_volMult (numCandles : Z) :
  Forall (fun ph => 0 <= pd_volMult ph) (pumpPhases numCandles).
Proof. unfold pumpPhases. repeat constructor; cbn [pd_volMult]; lra. Qed.

(** X9. A "pump_dump" segment, for a volatility name that is not a
    property every object inherits.  Every candle that opens in range
    closes below [BONDING_MCAP * 1.005], the pump-phase rejection candles
    included (they close at [BONDING_MCAP * (0.995 + r * 0.01)] for a
    seeded draw [r]), and has [high <= BONDING_MCAP * 1.01], [low > 0] and
    [volume >= 20000]; its high is at least [max(open, close)] exactly when
    its open is at most [BONDING_MCAP * 1.01], and its low is at most
    [min(open, close)] when its close is no more than 15% below its open.
    In a segment that starts at or below [BONDING_MCAP * 1.01] every
    candle opens at or below it. *)
Theorem pumpDump_candle_bounds (startMcap : Q) (numCandles : Z)
    (volatility : string) (w : RandomState) :
  ~ In volatility inherited_keys ->
  exists cs w',
    generatePumpDump startMcap numCandles volatility w = Some (cs, w')
    /\ Forall (fun c =>
                 opens_in_range c ->
                 close c < BONDING_MCAP * 1.005
                 /\ high c <= BONDING_MCAP * 1.01
                 /\ 0 < low c /\ 20000 <= volume c
                 /\ (open c <= high c /\ close c <= high c
                     <-> open c <= BONDING_MCAP * 1.01)
                 /\ (open c * 0.85 <= close c ->
                     low c <= open c /\ low c <= close c)) cs
    /\ (startMcap <= BONDING_MCAP * 1.01 ->
        Forall (fun c => open c <= BONDING_MCAP * 1.01) cs).
Proof using Type rng_productive rng_range.
  intros _.
  destruct (total_generatePumpDump startMcap numCandles volatility w)
    as [[cs w'] Hg].
  exists cs, w'. split; [assumption|].
  unfold generatePumpDump in Hg. cbv zeta in Hg.
  apply bind_inv in Hg. destruct Hg as ([cs0 s2] & w2 & Hl & Hg).
  apply ret_inv in Hg. pair_inv Hg. split.
  - assert (Hs : forall ph i s w3 c s' w4,
               0 <= pd_volMult ph -> True ->
               pumpDumpStep (or_default (lookup volatility pumpVolMap) 0.035)
                 ph i s w3 = Some (c, s', w4) ->
               (fun c =>
                  opens_in_range c ->
                  close c < BONDING_MCAP * 1.005
                  /\ high c <= BONDING_MCAP * 1.01
                  /\ 0 < low c /\ 20000 <= volume c
                  /\ (open c <= high c /\ close c <= high c
                      <-> open c <= BONDING_MCAP * 1.01)
                  /\ (open c * 0.85 <= close c ->
                      low c <= open c /\ low c <= close c)) c
               /\ True).
    { intros ph i s w3 c s' w4 Hph _ Hstep. split; [|exact I].
      intros [Ho0 Ho1].
      apply pumpDumpStep_bounds in Hstep; [|assumption].
      destruct Hstep as (Hclose & Hhigh & Hlow & Hvol & Wh & Wl).
      split; [assumption|]. split; [assumption|]. split; [lra|].
      split; [assumption|]. split; [assumption|].
      intros Hc. apply Wl. split; [lra | exact Hc]. }
    exact (proj1 (pumpPhasesLoop_invariant _ _ (fun _ => True) _ _ Hs
                    _ _ _ _ _ _ (pumpPhases_volMult _) I Hl)).
  - intros Hstart.
    assert (Hs : forall ph i s w3 c s' w4,
               0 <= pd_volMult ph ->
               pd_currentMcap s <= BONDING_MCAP * 1.01 ->
               pumpDumpStep (or_default (lookup volatility pumpVolMap) 0.035)
                 ph i s w3 = Some (c, s', w4) ->
               open c <= BONDING_MCAP * 1.01
               /\ pd_currentMcap s' <= BONDING_MCAP * 1.01).
    { intros ph i s w3 c s' w4 Hph HI Hstep.
      pose proof (pumpDumpStep_link _ _ _ _ _ _ _ _ Hstep) as [Ho Hc].
      apply pumpDumpStep_bounds in Hstep; [|assumption].
      destruct Hstep as (Hclose & _).
      rewrite Ho, <- Hc.
      split; [assumption|]. unfold BONDING_MCAP in *. lra. }
    refine (proj1 (pumpPhasesLoop_invariant _ _
                     (fun s => pd_currentMcap s <= BONDING_MCAP * 1.01)
                     (fun c => open c <= BONDING_MCAP * 1.01)
                     _ Hs _ _ _ _ _ _ (pumpPhases_volMult _) _ Hl)).
    exact Hstart.
Qed.

Lemma instantRugStep_volume_profile vol rugPoint i cur w c s' w' :
  instantRugStep vol rugPoint i cur w = Some (c, s', w') ->
  ((Z.of_nat i < rugPoint)%Z -> 100000 <= volume c /\ volume c < 150000)
  /\ (Z.of_nat i = rugPoint -> 500000 <= volume c /\ volume c < 1000000)
  /\ ((rugPoint < Z.of_nat i)%Z -> 1000 <= volume c /\ volume c < 6000).
Proof using Type random_range.
  unfold instantRugStep. intros H. minv H. pair_inv H. cbn [volume].
  destruct (Z.ltb_spec (Z.of_nat i) rugPoint);
    [|destruct (Z.eqb_spec (Z.of_nat i) rugPoint)];
    minv Hrun; pair_inv Hrun;
    repeat match goal with
    | Hm : Math_random _ = Some _ |- _ =>
        apply Math_random_inv in Hm; destruct Hm as (_ & ? & ?)
    end;
    (split; [|split]); intros; first [lia | split; lra].
Qed.

Lemma instantRugStep_valid vol rugPoint i cur w c s' w' :
  0 < vol -> vol <= 0.04 -> 0 < cur ->
  instantRugStep vol rugPoint i cur w = Some (c, s', w') ->
  (0 < low c /\ low c <= open c /\ low c <= close c
   /\ open c <= high c /\ close c <= high c
   /\ INITIAL_MCAP * 0.1 <= close c)
  /\ 0 < s'.
Proof using Type random_range rng_range.
  intros Hv0 Hv1 Hcur H. unfold instantRugStep in H. minv H. pair_inv H.
  cbn [open high low close].
  match goal with
  | Hr : _ _ = Some (?q, _, _) |- _ =>
      assert (Hq : if (Z.of_nat i =? rugPoint)%Z then -0.95 < q
                   else -0.02 <= q);
      [ destruct (Z.ltb_spec (Z.of_nat i) rugPoint);
        [|destruct (Z.eqb_spec (Z.of_nat i) rugPoint)];
        minv Hr; pair_inv Hr;
        match goal with
        | Hd : random _ _ _ = Some _ |- _ =>
            apply random_inv in Hd; destruct Hd as (r & ? & ? & ->)
        end;
        [destruct (Z.eqb_spec (Z.of_nat i) rugPoint); [lia|] | |]; nra
      | clear Hr ]
  end.
  repeat match goal with
  | Hm : Math_random _ = Some _ |- _ =>
      apply Math_random_inv in Hm; destruct Hm as (_ & ? & ?)
  end.
  match goal with
  | |- context [Qmax (INITIAL_MCAP * 0.1) ?raw] =>
      pose proof (Q.le_max_l (INITIAL_MCAP * 0.1) raw) as Hfloor;
      pose proof (Q.le_max_r (INITIAL_MCAP * 0.1) raw) as Hraw;
      set (cl := Qmax (INITIAL_MCAP * 0.1) raw) in *; clearbody cl
  end.
  unfold INITIAL_MCAP in *.
  match goal with
  | |- context [Qmax cur cl + ?hw] =>
      match goal with
      | |- context [Qmin cur cl - ?lw] =>
          assert (Hhw : 0 <= hw)
            by (destruct (Z.of_nat i =? rugPoint)%Z;
                repeat apply Qmult_le_0_compat; lra);
          assert (Hlw : 0 <= lw /\ lw < cur /\ lw < cl)
            by (match lw with
                | ?m2 * _ * _ =>
                    assert (Ht : 0 <= m2 * vol /\ m2 * vol <= 0.04) by nra;
                    assert (Hu : 0 <= m2 * vol * cur
                                 /\ m2 * vol * cur <= 0.04 * cur) by nra
                end;
                match type of Hraw with
                | cur * (1 + ?q) <= _ =>
                    destruct (Z.of_nat i =? rugPoint)%Z;
                    [assert (Hcq : -0.95 * cur < cur * q) by nra
                    |assert (Hcq : -0.02 * cur <= cur * q) by nra]
                end; repeat split; lra);
          destruct Hlw as (Hlw & Hlo & Hlc);
          destruct (free_wicks cur cl hw lw Hhw Hlw) as (F1 & F2 & F3 & F4);
          set (W := lw) in *; clearbody W
      end
  end.
  split; [|lra]. repeat split; try assumption.
  apply (Qplus_lt_l _ _ W). ring_simplify.
  apply Q.min_glb_lt; assumption.
Qed.

(** X10. An "instant_rug" segment that starts at a capitalization above
    zero and not above the pre-bonding ceiling (the bonding threshold, for
    chartType "post"), for a volatility name that is not a property every
    object inherits, consists of well-formed candles only:
    [0 < low <= min(open, close)], [max(open, close) <= high],
    [close >= INITIAL_MCAP * 0.1] (500) and [volume >= 1000]. *)
Theorem instantRug_candles_valid (startMcap : Q) (numCandles : Z)
    (volatility : string) (w : RandomState) :
  0 < startMcap -> startMcap <= BONDING_MCAP * 1000 ->
  ~ In volatility inherited_keys ->
  exists cs w',
    generateInstantRug startMcap numCandles volatility w = Some (cs, w')
    /\ Forall (fun c =>
                 0 < low c /\ low c <= open c /\ low c <= close c
                 /\ open c <= high c /\ close c <= high c
                 /\ INITIAL_MCAP * 0.1 <= close c
                 /\ 1000 <= volume c) cs.
Proof using Type random_range rng_range.
  intros Hstart _ _.
  destruct (total_generateInstantRug startMcap numCandles volatility w)
    as [[cs w'] Hg].
  exists cs, w'. split; [assumption|].
  unfold generateInstantRug in Hg.
  apply bind_inv in Hg. destruct Hg as (rugPoint & w1 & _ & Hg).
  cbv zeta in Hg. apply bind_inv in Hg.
  destruct Hg as ([cs0 s1] & w2 & Hl & Hg). apply ret_inv in Hg. pair_inv Hg.
  destruct (rugVol_range volatility) as [Hv0 Hv1].
  apply (for_loop_nth _ (fun _ cur => 0 < cur)
           (fun _ c =>
              0 < low c /\ low c <= open c /\ low c <= close c
              /\ open c <= high c /\ close c <= high c
              /\ INITIAL_MCAP * 0.1 <= close c
              /\ 1000 <= volume c)) in Hl.
  - destruct Hl as [_ Hall]. apply Forall_forall. intros c Hin.
    apply In_nth_error in Hin. destruct Hin as [k Hk]. exact (Hall k c Hk).
  - intros i cur w0 c s' w3 HI Hstep.
    pose proof (instantRugStep_volume_profile _ _ _ _ _ _ _ _ Hstep)
      as (Vpre & Vrug & Vpost).
    apply instantRugStep_valid in Hstep; try assumption.
    destruct Hstep as ((L0 & L1 & L2 & H1 & H2 & Hc) & Hs).
    split; [|exact Hs]. repeat (split; [assumption|]).
    destruct (Z.lt_trichotomy (Z.of_nat i) rugPoint) as [Hlt|[Heq|Hgt]].
    + destruct (Vpre Hlt). lra.
    + destruct (Vrug Heq). lra.
    + destruct (Vpost Hgt). lra.
  - exact Hstart.
Qed.


Lemma bleedVol_range (volatility : string) :
  let vol := or_default (lookup volatility bleedVolMap) 0.015 in
  0 < vol /\ vol <= 0.025.
Proof.
  unfold bleedVolMap. cbn [lookup].
  repeat (destruct (String.eqb volatility _); [cbn; split; lra|]).
  cbn. split; lra.
Qed.

Lemma consolidationVol_range (volatility : string) :
  let vol := or_default (lookup volatility consolidationVolMap) 0.012 in
  0 < vol /\ vol <= 0.02.
Proof.
  unfold consolidationVolMap. cbn [lookup].
  repeat (destruct (String.eqb volatility _); [cbn; split; lra|]).
  cbn. split; lra.
Qed.

Lemma slowBleedStep_bounds vol baseDecline numCandles i cur w c s' w' :
  0 <= vol -> 0 <= cur ->
  slowBleedStep vol baseDecline numCandles i cur w = Some (c, s', w') ->
  (INITIAL_MCAP * 0.5 <= close c
   /\ low c <= open c /\ low c <= close c
   /\ open c <= high c /\ close c <= high c
   /\ (let progress := ofNat i / inject_Z numCandles in
       100000 - progress * 70000 <= volume c
       /\ volume c < 130000 - progress * 70000))
  /\ 0 <= s'.
Proof using Type random_range.
  intros Hv Hcur H. unfold slowBleedStep in H. minv H. pair_inv H.
  cbn [open high low close volume].
  repeat match goal with
  | Hm : Math_random _ = Some _ |- _ =>
      apply Math_random_inv in Hm; destruct Hm as (_ & ? & ?)
  end.
  match goal with
  | |- context [Qmax (INITIAL_MCAP * 0.5) ?raw] =>
      pose proof (Q.le_max_l (INITIAL_MCAP * 0.5) raw) as Hfloor;
      set (cl := Qmax (INITIAL_MCAP * 0.5) raw) in *; clearbody cl
  end.
  match goal with
  | |- context [Qmax cur cl + ?hw] =>
      match goal with
      | |- context [Qmin cur cl - ?lw] =>
          assert (Hhw : 0 <= hw)
            by (repeat apply Qmult_le_0_compat; lra);
          assert (Hlw : 0 <= lw)
            by (repeat apply Qmult_le_0_compat; lra);
          destruct (free_wicks cur cl hw lw Hhw Hlw) as (F1 & F2 & F3 & F4)
      end
  end.
  cbv zeta. unfold INITIAL_MCAP in *.
  split; [|lra]. repeat split; try assumption; lra.
Qed.

(** X12. A "slow_bleed" segment that starts at a capitalization above zero
    and not above the pre-bonding ceiling, for a volatility name that is
    not a property every object inherits.  Every candle that opens in
    range closes at [INITIAL_MCAP * 0.5] (2500) or above and has its high
    at least, and its low at most, both open and close.  The volume stays
    between 30000 and 130000 and declines along the segment: the first
    candle has at least 100000, the candles of the second half at most
    95000. *)
Theorem slowBleed_candle_bounds (startMcap : Q) (numCandles : Z)
    (volatility : string) (w : RandomState) :
  0 < startMcap -> startMcap <= BONDING_MCAP * 1000 ->
  ~ In volatility inherited_keys ->
  exists cs w',
    generateSlowBleed startMcap numCandles volatility w = Some (cs, w')
    /\ forall k c,
         nth_error cs k = Some c ->
         (opens_in_range c ->
          INITIAL_MCAP * 0.5 <= close c
          /\ low c <= open c /\ low c <= close c
          /\ open c <= high c /\ close c <= high c)
         /\ 30000 <= volume c /\ volume c <= 130000
         /\ (k = 0%nat -> 100000 <= volume c)
         /\ ((numCandles <= 2 * Z.of_nat k)%Z -> volume c <= 95000).
Proof using Type random_range rng_productive.
  intros Hstart _ _. apply Qlt_le_weak in Hstart.
  destruct (total_generateSlowBleed startMcap numCandles volatility w)
    as [[cs w'] Hg].
  exists cs, w'. split; [assumption|].
  pose proof Hg as Hshape. apply generateSlowBleed_shape in Hshape.
  destruct Hshape as [_ Hlen].
  unfold generateSlowBleed in Hg. cbv zeta in Hg.
  apply bind_inv in Hg. destruct Hg as (r & w1 & _ & Hg).
  apply bind_inv in Hg. destruct Hg as ([cs0 s1] & w2 & Hl & Hg).
  apply ret_inv in Hg. pair_inv Hg.
  destruct (bleedVol_range volatility) as [Hv0 Hv1].
  apply (for_loop_nth _ (fun _ cur => 0 <= cur)
           (fun i c =>
              INITIAL_MCAP * 0.5 <= close c
              /\ low c <= open c /\ low c <= close c
              /\ open c <= high c /\ close c <= high c
              /\ (let progress := ofNat i / inject_Z numCandles in
                  100000 - progress * 70000 <= volume c
                  /\ volume c < 130000 - progress * 70000))) in Hl;
    [|intros i cur w0 c s' w3 HI Hstep;
      apply slowBleedStep_bounds in Hstep; [exact Hstep | lra | exact HI]
     |exact Hstart].
  destruct Hl as [_ Hall]. simpl in Hall.
  intros k c Hk. destruct (Hall k c Hk) as (A & B & C & D & E & F).
  split; [intros _; repeat split; assumption|].
  assert (Hlt : (k < List.length cs0)%nat)
    by (apply nth_error_Some; congruence).
  assert (Hn : 0 < inject_Z numCandles).
  { change 0 with (inject_Z 0). rewrite <- Zlt_Qlt. lia. }
  assert (Hp0 : 0 <= ofNat k / inject_Z numCandles).
  { apply Qle_shift_div_l; [assumption|]. rewrite Qmult_0_l.
    unfold ofNat. change 0 with (inject_Z 0). rewrite <- Zle_Qle. lia. }
  assert (Hp1 : ofNat k / inject_Z numCandles < 1).
  { apply Qlt_shift_div_r; [assumption|].
    unfold ofNat. rewrite Qmult_1_l, <- Zlt_Qlt. lia. }
  assert (Hfirst : k = 0%nat -> ofNat k / inject_Z numCandles == 0).
  { intros ->. unfold Qdiv. apply Qmult_0_l. }
  assert (Hhalf : (numCandles <= 2 * Z.of_nat k)%Z ->
                  0.5 <= ofNat k / inject_Z numCandles).
  { intros Hk2. apply Qle_shift_div_l; [assumption|].
    rewrite Zle_Qle, inject_Z_mult in Hk2.
    unfold ofNat. change (inject_Z 2) with 2 in Hk2. lra. }
  cbv zeta in F.
  set (p := ofNat k / inject_Z numCandles) in *. clearbody p.
  split; [lra|]. split; [lra|]. split.
  - intros Hk0. specialize (Hfirst Hk0). lra.
  - intros Hk2. specialize (Hhalf Hk2). lra.
Qed.

Lemma floor_seven_tenths (n : Z) : Qfloor (inject_Z n * 0.7) = (7 * n / 10)%Z.
Proof.
  change (Qfloor (inject_Z n * 0.7)) with (n * 7 / 10)%Z.
  Z.to_euclidean_division_equations. lia.
Qed.

Lemma consolidationStep_bounds vol numCandles cEnd up center i cur w c s' w' :
  0 <= vol ->
  consolidationStep vol numCandles cEnd up center i cur w = Some (c, s', w') ->
  (0 <= open c ->
   low c <= open c /\ low c <= close c
   /\ open c <= high c /\ close c <= high c)
  /\ ((Z.of_nat i < cEnd)%Z -> 60000 <= volume c /\ volume c < 100000)
  /\ ((cEnd <= Z.of_nat i)%Z -> 150000 <= volume c /\ volume c < 250000).
Proof using Type random_range.
  intros Hv H. unfold consolidationStep in H. minv H. pair_inv H.
  cbn [open high low close volume].
  match goal with
  | Hr : _ _ = Some (_, ?vo, _) |- _ =>
      assert (Hvo : ((Z.of_nat i < cEnd)%Z -> 60000 <= vo /\ vo < 100000)
                    /\ ((cEnd <= Z.of_nat i)%Z ->
                        150000 <= vo /\ vo < 250000));
      [ destruct (Z.ltb_spec (Z.of_nat i) cEnd);
        minv Hr; pair_inv Hr;
        repeat match goal with
        | Hm : Math_random _ = Some _ |- _ =>
            apply Math_random_inv in Hm; destruct Hm as (_ & ? & ?)
        end;
        split; intros; first [lia | split; lra]
      | clear Hr ]
  end.
  repeat match goal with
  | Hm : Math_random _ = Some _ |- _ =>
      apply Math_random_inv in Hm; destruct Hm as (_ & ? & ?)
  end.
  split; [|exact Hvo]. intros Hcur.
  match goal with
  | |- context [Qmax cur ?cl + ?hw] =>
      match goal with
      | |- context [Qmin cur cl - ?lw] =>
          assert (Hhw : 0 <= hw)
            by (repeat apply Qmult_le_0_compat; lra);
          assert (Hlw : 0 <= lw)
            by (repeat apply Qmult_le_0_compat; lra);
          destruct (free_wicks cur cl hw lw Hhw Hlw) as (F1 & F2 & F3 & F4)
      end
  end.
  repeat split; assumption.
Qed.

(** X13. A "consolidation" segment of at most 1500 candles that starts at
    a capitalization above zero and not above the pre-bonding ceiling, for
    a volatility name that is not a property every object inherits.  The
    candles consolidate over the first seven tenths of the segment, with
    volumes between 60000 and 100000, and break out over the rest, with
    volumes between 150000 and 250000: candle [k] has a volume of the
    first kind when [k + 1 < floor(7 * numCandles / 10)] and of the second
    kind when [k >= floor(7 * numCandles / 10)].  Nothing bounds the closes;
    a candle that opens in range has its high at least, and its low at
    most, both open and close. *)
Theorem consolidation_candle_bounds (startMcap : Q) (numCandles : Z)
    (volatility : string) (w : RandomState) :
  0 < startMcap -> startMcap <= BONDING_MCAP * 1000 ->
  (numCandles <= 1500)%Z -> ~ In volatility inherited_keys ->
  exists cs w',
    generateConsolidation startMcap numCandles volatility w = Some (cs, w')
    /\ forall k c,
         nth_error cs k = Some c ->
         (opens_in_range c ->
          low c <= open c /\ low c <= close c
          /\ open c <= high c /\ close c <= high c)
         /\ (60000 <= volume c <= 100000 \/ 150000 <= volume c <= 250000)
         /\ ((Z.of_nat k + 1 < 7 * numCandles / 10)%Z ->
             60000 <= volume c /\ volume c <= 100000)
         /\ ((7 * numCandles / 10 <= Z.of_nat k)%Z ->
             150000 <= volume c /\ volume c <= 250000).
Proof using Type random_range rng_productive.
  intros _ _ _ _.
  destruct (total_generateConsolidation startMcap numCandles volatility w)
    as [[cs w'] Hg].
  exists cs, w'. split; [assumption|].
  unfold generateConsolidation in Hg. cbv zeta in Hg.
  apply bind_inv in Hg. destruct Hg as (m & w1 & _ & Hg).
  apply bind_inv in Hg. destruct Hg as ([cs0 s1] & w2 & Hl & Hg).
  apply ret_inv in Hg. pair_inv Hg.
  destruct (consolidationVol_range volatility) as [Hv0 Hv1].
  rewrite floor_seven_tenths in Hl.
  apply (for_loop_nth _ (fun _ _ => True)
           (fun i c =>
              (0 <= open c ->
               low c <= open c /\ low c <= close c
               /\ open c <= high c /\ close c <= high c)
              /\ ((Z.of_nat i < 7 * numCandles / 10)%Z ->
                  60000 <= volume c /\ volume c < 100000)
              /\ ((7 * numCandles / 10 <= Z.of_nat i)%Z ->
                  150000 <= volume c /\ volume c < 250000))) in Hl;
    [|intros i cur w0 c s' w3 _ Hstep; split; [|exact I];
      apply consolidationStep_bounds in Hstep; [exact Hstep | lra]
     |exact I].
  destruct Hl as [_ Hall]. cbn [Nat.add] in Hall.
  intros k c Hk. destruct (Hall k c Hk) as (Hw & Vin & Vout).
  split; [intros [Ho _]; apply Hw; lra|].
  split; [|split].
  - destruct (Z.lt_ge_cases (Z.of_nat k) (7 * numCandles / 10)) as [Hi|Hi];
      [destruct (Vin Hi); left | destruct (Vout Hi); right]; split; lra.
  - intros Hi.
    assert (Hi' : (Z.of_nat k < 7 * numCandles / 10)%Z) by lia.
    destruct (Vin Hi'). split; lra.
  - intros Hi. destruct (Vout Hi). split; lra.
Qed.

(** ** What reads the seeded stream alone *)

Lemma with_random_pos_same (w : RandomState) :
  with_random_pos (random_pos w) w = w.
Proof. destruct w. reflexivity. Qed.

Lemma seeded_ret {A : Type} (a : A) : seeded (ret a).
Proof. intros w p. reflexivity. Qed.

Lemma seeded_fail {A : Type} : seeded (@fail A).
Proof. intros w p. reflexivity. Qed.

Lemma seeded_liftO {A : Type} (o : option A) : seeded (liftO o).
Proof. destruct o; [apply seeded_ret | apply seeded_fail]. Qed.

Lemma seeded_rng : seeded rng.
Proof. intros w p. reflexivity. Qed.

Lemma seeded_bind {A B : Type} (m : M A) (f : A -> M B) :
  seeded m -> (forall a, seeded (f a)) -> seeded (bind m f).
Proof.
  intros Hm Hf w p. unfold bind. rewrite Hm.
  destruct (m w) as [[a w1]|]; [apply Hf | reflexivity].
Qed.

Ltac seeded_steps :=
  repeat first
    [ apply seeded_ret
    | apply seeded_rng
    | apply seeded_liftO
    | assumption
    | apply seeded_bind; [|intros ?]
    | match goal with
      | |- seeded (if ?b then _ else _) => destruct b
      | |- seeded (match ?x with pair _ _ => _ end) => destruct x
      end ].

Lemma seeded_rng_nonzero (n : nat) : seeded (rng_nonzero n).
Proof.
  induction n as [|n IH]; simpl; [apply seeded_fail | seeded_steps].
Qed.

Lemma seeded_gaussianRandom : seeded gaussianRandom.
Proof.
  unfold gaussianRandom.
  apply seeded_bind; [apply seeded_rng_nonzero | intros u].
  apply seeded_bind; [apply seeded_rng_nonzero | intros v].
  apply seeded_ret.
Qed.

Lemma seeded_for_loop {St : Type} (body : nat -> St -> M (Candle * St)) :
  (forall i s, seeded (body i s)) ->
  forall n i s, seeded (for_loop body n i s).
Proof.
  intros Hb. induction n as [|n IH]; intros i s; simpl;
    [apply seeded_ret|].
  apply seeded_bind; [apply Hb | intros [c s1]].
  apply seeded_bind; [apply IH | intros [cs s2]]. apply seeded_ret.
Qed.

Lemma seeded_generatePreBonding phases volatility :
  seeded (generatePreBonding phases volatility).
Proof.
  pose proof seeded_gaussianRandom as Hg.
  unfold generatePreBonding, randomInt. cbv zeta.
  apply seeded_bind; [seeded_steps | intros n].
  apply seeded_bind; [|intros [cs s]; apply seeded_ret].
  apply seeded_for_loop. intros i s. unfold preBondingStep. cbv zeta.
  seeded_steps.
Qed.

Lemma seeded_generateOrganic startMcap numCandles volatility :
  seeded (generateOrganic startMcap numCandles volatility).
Proof.
  pose proof seeded_gaussianRandom as Hg.
  unfold generateOrganic. cbv zeta.
  apply seeded_bind; [|intros [cs s]; apply seeded_ret].
  apply seeded_for_loop. intros i s. unfold organicStep. cbv zeta.
  seeded_steps.
Qed.

Lemma seeded_pumpPhaseLoop vol numCandles phase :
  forall n i s, seeded (pumpPhaseLoop vol numCandles phase n i s).
Proof.
  pose proof seeded_gaussianRandom as Hg.
  induction n as [|n IH]; intros i s; simpl; [apply seeded_ret|].
  destruct (candleCount s <? numCandles)%Z; [|apply seeded_ret].
  apply seeded_bind; [unfold pumpDumpStep; cbv zeta; seeded_steps|].
  intros [c s1].
  apply seeded_bind; [apply IH | intros [cs s2]]. apply seeded_ret.
Qed.

Lemma seeded_generatePumpDump startMcap numCandles volatility :
  seeded (generatePumpDump startMcap numCandles volatility).
Proof.
  unfold generatePumpDump. cbv zeta.
  apply seeded_bind; [|intros [cs s]; apply seeded_ret].
  generalize (pumpPhases numCandles) as phases.
  generalize {| pd_currentMcap := startMcap;
                pd_volumeAvg := mean [100000; 150000];
                candleCount := 0 |} as s.
  intros s phases. revert s.
  induction phases as [|ph phases IH]; intros s; simpl; [apply seeded_ret|].
  apply seeded_bind; [apply seeded_pumpPhaseLoop | intros [cs1 s1]].
  apply seeded_bind; [apply IH | intros [cs2 s2]]. apply seeded_ret.
Qed.

(** What a seeded computation does from two states that agree on the
    seeded cursor. *)
Lemma seeded_agree {A : Type} (m : M A) (w1 w2 : RandomState) :
  seeded m -> rng_pos w1 = rng_pos w2 ->
  match m w1, m w2 with
  | Some (a1, w1'), Some (a2, w2') =>
      a1 = a2 /\ rng_pos w1' = rng_pos w2'
      /\ random_pos w1' = random_pos w1 /\ random_pos w2' = random_pos w2
  | None, None => True
  | _, _ => False
  end.
Proof.
  intros Hm Hpos.
  assert (E : w2 = with_random_pos (random_pos w2) w1).
  { destruct w1, w2. simpl in Hpos. subst. reflexivity. }
  pose proof (Hm w1 (random_pos w2)) as H2. rewrite <- E in H2.
  pose proof (Hm w1 (random_pos w1)) as H1.
  rewrite with_random_pos_same in H1.
  rewrite H2. destruct (m w1) as [[a w1']|]; [|exact I].
  apply Some_eq_inv in H1. pair_inv H1.
  repeat split.
  apply (f_equal random_pos) in H. exact H.
Qed.

Lemma scenarioGenerator_seeded (sc : string) :
  existsb (String.eqb sc) ["instant_rug"; "slow_bleed"; "consolidation"]
  = false ->
  scenarioGenerator sc
  = if String.eqb sc "pump_dump" then generatePumpDump else generateOrganic.
Proof.
  cbn [existsb]. rewrite !orb_false_iff. intros (H1 & H2 & H3 & _).
  unfold scenarioGenerator. rewrite H1, H2, H3.
  destruct (String.eqb_spec sc "organic") as [->|_]; reflexivity.
Qed.

(** ** Unrecognized volatility names *)

Lemma volatility_unknown (v : string) :
  ~ In v volatility_levels ->
  String.eqb v "low" = false /\ String.eqb v "medium" = false
  /\ String.eqb v "high" = false /\ String.eqb v "extreme" = false.
Proof.
  unfold volatility_levels. intros H.
  repeat split; apply String.eqb_neq; intros ->; apply H; simpl; auto.
Qed.

Lemma lookup_unknown (v : string) (l m h e : Q) :
  ~ In v volatility_levels ->
  lookup v [("low", l); ("medium", m); ("high", h); ("extreme", e)] = None
  /\ lookup "medium" [("low", l); ("medium", m); ("high", h); ("extreme", e)]
     = Some m.
Proof.
  intros H. apply volatility_unknown in H. destruct H as (H1 & H2 & H3 & H4).
  cbn [lookup]. rewrite H1, H2, H3, H4. split; reflexivity.
Qed.

Lemma bind_ext {A B : Type} (m m' : M A) (f g : A -> M B) w :
  m w = m' w -> (forall a w1, f a w1 = g a w1) -> bind m f w = bind m' g w.
Proof.
  intros Hm Hf. unfold bind. rewrite Hm.
  destruct (m' w) as [[a w1]|]; [apply Hf | reflexivity].
Qed.

Lemma generators_unknown_volatility (v : string) :
  ~ In v volatility_levels ->
  (forall phases, generatePreBonding phases v = generatePreBonding phases "medium")
  /\ (forall sc startMcap numCandles,
         scenarioGenerator sc startMcap numCandles v
         = scenarioGenerator sc startMcap numCandles "medium").
Proof.
  intros H.
  assert (Ho : forall s n, generateOrganic s n v = generateOrganic s n "medium").
  { intros s n. unfold generateOrganic, organicVolMap.
    destruct (lookup_unknown v 0.012 0.02 0.03 0.04 H) as [-> ->].
    reflexivity. }
  split.
  - intros phases. unfold generatePreBonding, preVolMap.
    destruct (lookup_unknown v 0.08 0.15 0.25 0.35 H) as [-> ->].
    reflexivity.
  - intros sc s n. unfold scenarioGenerator.
    destruct (String.eqb sc "organic"); [apply Ho|].
    destruct (String.eqb sc "pump_dump").
    { unfold generatePumpDump, pumpVolMap.
      destruct (lookup_unknown v 0.025 0.035 0.045 0.055 H) as [-> ->].
      reflexivity. }
    destruct (String.eqb sc "instant_rug").
    { unfold generateInstantRug, rugVolMap.
      destruct (lookup_unknown v 0.01 0.02 0.03 0.04 H) as [-> ->].
      reflexivity. }
    destruct (String.eqb sc "slow_bleed").
    { unfold generateSlowBleed, bleedVolMap.
      destruct (lookup_unknown v 0.01 0.015 0.02 0.025 H) as [-> ->].
      reflexivity. }
    destruct (String.eqb sc "consolidation"); [|apply Ho].
    unfold generateConsolidation, consolidationVolMap.
    destruct (lookup_unknown v 0.008 0.012 0.016 0.02 H) as [-> ->].
    reflexivity.
Qed.

(** X15. An unrecognized volatility name is not rejected: every [volMap]
    lookup falls back to its default, which in each of the six generators
    is the "medium" entry, so the call returns exactly what it returns for
    "medium".  (Stated for names that are not inherited property names of
    an object literal, such as "constructor", for which the lookup is not
    [undefined].) *)
Theorem unknown_volatility_is_medium (phases : list Phase)
    (options : Options) (w : RandomState) :
  ~ In (volatility options) volatility_levels ->
  ~ In (volatility options) inherited_keys ->
  generate phases options w
  = generate phases
      {| chartType := chartType options;
         opt_scenario := opt_scenario options;
         volatility := "medium" |} w.
Proof.
  intros Hv _.
  destruct (generators_unknown_volatility _ Hv) as [Hpre Hpost].
  unfold generate. cbv zeta. cbn [chartType opt_scenario volatility].
  apply bind_ext; [reflexivity | intros sc w0].
  apply bind_ext; [reflexivity | intros mid w1].
  apply bind_ext; [now rewrite Hpre | intros d1 w2].
  apply bind_ext; [|reflexivity].
  destruct (_ || _); [|reflexivity].
  apply bind_ext; [|reflexivity].
  unfold generatePostBonding.
  apply bind_ext; [reflexivity | intros n w3]. now rewrite Hpost.
Qed.

(** ** The market phases and the pull toward the zone *)

(** X16. The six market phases tile the progress axis from 0 to 1: for
    [0 <= progress < 1] exactly one phase has
    [start <= progress < end], and [currentPhaseOf] returns it.  The last
    candle of a run, at [progress = 1], matches no phase; it (like any
    progress outside [0, 1)) takes the fallback, the last phase,
    "final_push". *)
Theorem marketPhases_cover (progress : Q) :
  exists p,
    currentPhaseOf marketPhases progress = Some p
    /\ In p marketPhases
    /\ (0 <= progress /\ progress < 1 ->
        phase_start p <= progress /\ progress < phase_end p
        /\ forall q, In q marketPhases ->
                     phase_start q <= progress /\ progress < phase_end q ->
                     q = p)
    /\ (progress < 0 \/ 1 <= progress -> name p = "final_push").
Proof.
  unfold currentPhaseOf, marketPhases.
  cbn [find phase_start phase_end map last].
  repeat match goal with
  | |- context [Qle_bool ?a progress] =>
      let E := fresh "E" in
      destruct (Qle_bool a progress) eqn:E;
      [apply Qle_bool_iff in E
      |assert (progress < a)
         by (apply Qnot_le_lt; intros Hc; apply Qle_bool_iff in Hc;
             congruence); clear E];
      cbn [andb]
  | |- context [Qlt_bool progress ?a] =>
      let E := fresh "E" in
      destruct (Qlt_bool progress a) eqn:E;
      [apply Qlt_bool_iff in E | apply Qlt_bool_false in E]
  end;
  (eexists; split; [reflexivity|]; split; [simpl; auto 10|];
   cbn [name phase_start phase_end]; split;
   [intros [Hp0 Hp1];
    first
      [ lra
      | split; [assumption|]; split; [assumption|];
        intros q Hq [Hq0 Hq1]; simpl in Hq;
        repeat (destruct Hq as [<-|Hq];
                [first [ reflexivity
                       | cbn [phase_start phase_end] in Hq0, Hq1; lra ]|]);
        contradiction ]
   | intros [Hp0|Hp0]; first [reflexivity | lra]]).
Qed.



(** ** The metadata of a post-bonding chart *)

Lemma instantRugStep_floor vol rugPoint i cur w c s' w' :
  instantRugStep vol rugPoint i cur w = Some (c, s', w') ->
  INITIAL_MCAP * 0.1 <= close c.
Proof.
  unfold instantRugStep. intros H. minv H. pair_inv H. cbn [close].
  apply Q.le_max_l.
Qed.

Lemma slowBleedStep_floor vol baseDecline numCandles i cur w c s' w' :
  slowBleedStep vol baseDecline numCandles i cur w = Some (c, s', w') ->
  INITIAL_MCAP * 0.5 <= close c.
Proof.
  unfold slowBleedStep. intros H. minv H. pair_inv H. cbn [close].
  apply Q.le_max_l.
Qed.

Lemma scenarioGenerator_closes sc startMcap numCandles volatility w cs w' :
  scenarioGenerator sc startMcap numCandles volatility w = Some (cs, w') ->
  (sc = "organic" \/ known_scenario sc = false ->
   Forall (fun c => close c <= BONDING_MCAP) cs)
  /\ (sc = "pump_dump" -> Forall (fun c => close c < BONDING_MCAP * 1.005) cs)
  /\ (sc = "instant_rug" -> Forall (fun c => INITIAL_MCAP * 0.1 <= close c) cs)
  /\ (sc = "slow_bleed" -> Forall (fun c => INITIAL_MCAP * 0.5 <= close c) cs).
Proof using Type rng_range.
  intros H. split; [|split; [|split]].
  - intros Hsc.
    assert (Ho : generateOrganic startMcap numCandles volatility w
                 = Some (cs, w')).
    { destruct Hsc as [-> | Hunk]; [exact H|].
      now rewrite (scenarioGenerator_unknown sc Hunk) in H. }
    unfold generateOrganic in Ho. cbv zeta in Ho.
    apply bind_inv in Ho. destruct Ho as ([cs0 s2] & w2 & Hl & Ho).
    apply ret_inv in Ho. pair_inv Ho.
    eapply for_loop_Forall; [|exact Hl].
    intros i s w3 c s' w4 Hstep. now apply organicStep_bounds in Hstep.
  - intros ->. rewrite scenarioGenerator_pump_dump in H.
    unfold generatePumpDump in H. cbv zeta in H.
    apply bind_inv in H. destruct H as ([cs0 s2] & w2 & Hl & H).
    apply ret_inv in H. pair_inv H.
    assert (Hs : forall ph i s w3 c s' w4,
               0 <= pd_volMult ph -> True ->
               pumpDumpStep (or_default (lookup volatility pumpVolMap) 0.035)
                 ph i s w3 = Some (c, s', w4) ->
               close c < BONDING_MCAP * 1.005 /\ True).
    { intros ph i s w3 c s' w4 Hph _ Hstep. split; [|exact I].
      now apply pumpDumpStep_bounds in Hstep. }
    exact (proj1 (pumpPhasesLoop_invariant _ _ (fun _ => True) _ _ Hs
                    _ _ _ _ _ _ (pumpPhases_volMult _) I Hl)).
  - intros ->. rewrite scenarioGenerator_instant_rug in H.
    unfold generateInstantRug in H.
    apply bind_inv in H. destruct H as (rp & w1 & _ & H). cbv zeta in H.
    apply bind_inv in H. destruct H as ([cs0 s2] & w2 & Hl & H).
    apply ret_inv in H. pair_inv H.
    eapply for_loop_Forall; [|exact Hl].
    intros i s w3 c s' w4 Hstep. now apply instantRugStep_floor in Hstep.
  - intros ->. rewrite scenarioGenerator_slow_bleed in H.
    unfold generateSlowBleed in H. cbv zeta in H.
    apply bind_inv in H. destruct H as (r & w1 & _ & H).
    apply bind_inv in H. destruct H as ([cs0 s2] & w2 & Hl & H).
    apply ret_inv in H. pair_inv H.
    eapply for_loop_Forall; [|exact Hl].
    intros i s w3 c s' w4 Hstep. now apply slowBleedStep_floor in Hstep.
Qed.

Lemma scenarioGenerator_count sc startMcap n volatility w cs w' :
  (500 <= n <= 1500)%Z ->
  scenarioGenerator sc startMcap n volatility w = Some (cs, w') ->
  (497 <= List.length cs <= 1500)%nat.
Proof.
  intros Hn H. destruct (String.eqb_spec sc "pump_dump") as [->|Hne].
  - rewrite scenarioGenerator_pump_dump in H.
    apply generatePumpDump_shape in H. destruct H as [_ Hlen].
    specialize (Hlen ltac:(lia)).
    pose proof (phaseCandles_pumpPhases n ltac:(lia)) as Hsum.
    rewrite <- Hlen in Hsum.
    assert (Hb : (n - 3 <= Z.of_nat (List.length cs) <= n)%Z)
      by (rewrite Hsum; Z.to_euclidean_division_equations; lia).
    lia.
  - apply scenarioGenerator_length in H; [|assumption]. lia.
Qed.

(** X18. The metadata of a chart of chartType "post" with a scenario given
    by name, for a volatility name that is not a property every object
    inherits, is never empty; [totalCandles] is between 497 and 1500.  For
    "organic" and for unrecognized names [peakMcap <= BONDING_MCAP]; for
    "pump_dump" [peakMcap < BONDING_MCAP * 1.005]; for "instant_rug"
    [minMcap >= INITIAL_MCAP * 0.1] (500); for "slow_bleed"
    [minMcap >= INITIAL_MCAP * 0.5] (2500). *)
Theorem post_chart_metadata (phases : list Phase) (sc volatility : string)
    (w : RandomState) :
  phases <> [] -> sc <> "random" -> ~ In volatility inherited_keys ->
  exists r w' m,
    generate phases (post_options sc volatility) w = Some (r, w')
    /\ metadata r = Some m
    /\ totalCandles m = List.length (data r)
    /\ (497 <= totalCandles m <= 1500)%nat
    /\ (sc = "organic" \/ known_scenario sc = false ->
        peakMcap m <= BONDING_MCAP)
    /\ (sc = "pump_dump" -> peakMcap m < BONDING_MCAP * 1.005)
    /\ (sc = "instant_rug" -> INITIAL_MCAP * 0.1 <= minMcap m)
    /\ (sc = "slow_bleed" -> INITIAL_MCAP * 0.5 <= minMcap m).
Proof using Type random_range rng_productive rng_range.
  intros Hne Hsc _.
  destruct (total_generate phases (post_options sc volatility) Hne w)
    as [[r w'] Hg].
  pose proof Hg as Hg'. apply generate_inv in Hg'.
  destruct Hg' as (sc' & w0 & mid & w1 & pre & w2 & post
                   & Hfs & _ & Hpre & Hpost & ->).
  cbn [post_options opt_scenario] in Hfs.
  rewrite (finalScenario_given _ w Hsc) in Hfs.
  apply Some_eq_inv in Hfs. apply pair_equal_spec in Hfs.
  destruct Hfs as [<- <-].
  change (wantsPre (post_options sc volatility)) with false in Hpre.
  change (wantsPost (post_options sc volatility)) with true in Hpost.
  destruct Hpre as [-> ->]. cbn [app] in *.
  apply generatePostBonding_inv in Hpost.
  destruct Hpost as (n & w3 & _ & Hn & Hs).
  pose proof (scenarioGenerator_count _ _ _ _ _ _ _ Hn Hs) as Hlen.
  apply scenarioGenerator_closes in Hs.
  destruct Hs as (Horg & Hpd & Hrug & Hbleed).
  destruct post as [|c0 rest]; [simpl in Hlen; lia|].
  destruct (calculateMetadata_spec c0 rest)
    as (m & Hm & _ & _ & Hpeak & _ & Hmin & _ & Htot).
  eexists _, w', m. split; [exact Hg|]. cbn [metadata data].
  split; [exact Hm|]. rewrite stamp_length.
  split; [exact Htot|]. split; [rewrite Htot; exact Hlen|].
  apply in_map_iff in Hpeak. destruct Hpeak as (cp & <- & Hcp).
  apply in_map_iff in Hmin. destruct Hmin as (cm & <- & Hcm).
  repeat split; intros E.
  - specialize (Horg E). rewrite Forall_forall in Horg. now apply Horg.
  - specialize (Hpd E). rewrite Forall_forall in Hpd. now apply Hpd.
  - specialize (Hrug E). rewrite Forall_forall in Hrug. now apply Hrug.
  - specialize (Hbleed E). rewrite Forall_forall in Hbleed. now apply Hbleed.
Qed.

(** ** The size of a chart *)

(** X19. How many candles a chart has.  A "pre" chart has 150 to 400
    candles, a "post" chart 497 to 1500, a "full" chart 647 to 1900, and a
    chart of any other chartType none.  Unless the scenario the chart
    reports is "pump_dump", a "post" chart has at least 500 candles and a
    "full" chart at least 650. *)
Theorem generate_candle_count (phases : list Phase) (options : Options)
    (w : RandomState) :
  phases <> [] ->
  exists r w',
    generate phases options w = Some (r, w')
    /\ let n := List.length (data r) in
       (chartType options = "pre" -> (150 <= n <= 400)%nat)
       /\ (chartType options = "post" ->
           (497 <= n <= 1500)%nat
           /\ (scenario r <> "pump_dump" -> (500 <= n)%nat))
       /\ (chartType options = "full" ->
           (647 <= n <= 1900)%nat
           /\ (scenario r <> "pump_dump" -> (650 <= n)%nat))
       /\ (chartType options <> "pre" -> chartType options <> "post" ->
           chartType options <> "full" -> n = 0%nat).
Proof using Type random_range rng_productive rng_range.
  intros Hne. destruct (total_generate phases options Hne w) as [[r w'] Hg].
  exists r, w'. split; [assumption|].
  apply generate_inv in Hg.
  destruct Hg as (sc & w0 & mid & w1 & pre & w2 & post
                  & _ & _ & Hpre & Hpost & ->).
  cbn [data scenario]. rewrite stamp_length, length_app. cbv zeta.
  assert (Hp : if wantsPre options
               then (150 <= List.length pre <= 400)%nat
               else List.length pre = 0%nat).
  { destruct (wantsPre options).
    - now apply generatePreBonding_shape in Hpre.
    - now destruct Hpre as [-> _]. }
  assert (Hq : if wantsPost options
               then (497 <= List.length post <= 1500)%nat
                    /\ (sc <> "pump_dump" -> (500 <= List.length post)%nat)
               else List.length post = 0%nat).
  { destruct (wantsPost options).
    - apply generatePostBonding_inv in Hpost.
      destruct Hpost as (n & w3 & _ & Hn & Hs).
      split; [eapply scenarioGenerator_count; eassumption|].
      intros Hsc. apply scenarioGenerator_length in Hs; [lia | exact Hsc].
    - now destruct Hpost as [-> _]. }
  unfold wantsPre, wantsPost in Hp, Hq.
  split; [|split; [|split]].
  - intros E. rewrite E in Hp, Hq.
    cbn [String.eqb Ascii.eqb Bool.eqb orb andb] in Hp, Hq. lia.
  - intros E. rewrite E in Hp, Hq.
    cbn [String.eqb Ascii.eqb Bool.eqb orb andb] in Hp, Hq.
    destruct Hq as [Hq1 Hq2]. split; [lia|]. intros Hsc.
    specialize (Hq2 Hsc). lia.
  - intros E. rewrite E in Hp, Hq.
    cbn [String.eqb Ascii.eqb Bool.eqb orb andb] in Hp, Hq.
    destruct Hq as [Hq1 Hq2]. split; [lia|]. intros Hsc.
    specialize (Hq2 Hsc). lia.
  - intros E1 E2 E3. apply String.eqb_neq in E1, E2, E3.
    rewrite E1, E3 in Hp. rewrite E2, E3 in Hq. cbn [orb] in Hp, Hq. lia.
Qed.

End Generator.

(** * The two sources of randomness *)

(** X14. Where [Math.random] does not matter.  When the scenario is given
    by name and the post-bonding segment, if any, is made by
    [generateOrganic] or [generatePumpDump] (scenario "organic",
    "pump_dump" or an unrecognized name; or chartType "pre"), two calls
    that start at the same position of the seeded stream return the same
    candles with the same timestamps, the same metadata and the same
    scenario, whatever [Math.random] delivers and wherever its cursor
    stands; each call reads [Math.random] exactly once, for the chart
    id. *)
Theorem seeded_runs_ignore_Math_random (math : MathLib)
    (rng_stream rs1 rs2 : nat -> Q) (fuel : nat) (Date_now : Z)
    (phases : list Phase) (options : Options) (w1 w2 : RandomState) :
  (forall n, 0 <= rng_stream n /\ rng_stream n < 1) ->
  (forall n, 0 <= rs1 n /\ rs1 n < 1) ->
  (forall n, 0 <= rs2 n /\ rs2 n < 1) ->
  (forall n, exists k, (k < fuel)%nat /\ ~ rng_stream (n + k)%nat == 0) ->
  phases <> [] -> seeded_run options = true -> rng_pos w1 = rng_pos w2 ->
  exists r1 w1' r2 w2',
    generate math rng_stream rs1 fuel Date_now phases options w1
    = Some (r1, w1')
    /\ generate math rng_stream rs2 fuel Date_now phases options w2
       = Some (r2, w2')
    /\ data r1 = data r2 /\ metadata r1 = metadata r2
    /\ scenario r1 = scenario r2
    /\ rng_pos w1' = rng_pos w2'
    /\ random_pos w1' = S (random_pos w1)
    /\ random_pos w2' = S (random_pos w2).
Proof.
  intros Hrng Hr1 Hr2 Hprod Hne Hrun Hpos.
  destruct (total_generate math rng_stream rs1 fuel Date_now Hrng Hr1 Hprod
              phases options Hne w1) as [[r1 w1'] G1].
  destruct (total_generate math rng_stream rs2 fuel Date_now Hrng Hr2 Hprod
              phases options Hne w2) as [[r2 w2'] G2].
  exists r1, w1', r2, w2'. split; [exact G1|]. split; [exact G2|].
  unfold seeded_run in Hrun. apply andb_true_iff in Hrun.
  destruct Hrun as [Hsc Hpost]. apply negb_true_iff, String.eqb_neq in Hsc.
  apply generate_inv in G1.
  destruct G1 as (sc1 & a0 & mid1 & a1 & pre1 & a2 & post1
                  & F1 & I1 & P1 & Q1 & ->).
  apply generate_inv in G2.
  destruct G2 as (sc2 & b0 & mid2 & b1 & pre2 & b2 & post2
                  & F2 & I2 & P2 & Q2 & ->).
  rewrite (finalScenario_given _ _ _ Hsc) in F1.
  rewrite (finalScenario_given _ _ _ Hsc) in F2.
  apply Some_eq_inv in F1, F2.
  apply pair_equal_spec in F1, F2.
  destruct F1 as [<- <-]. destruct F2 as [<- <-].
  apply Math_random_step in I1, I2.
  destruct I1 as (_ & Ia & Ib). destruct I2 as (_ & Ic & Id).
  assert (Hpre : pre1 = pre2 /\ rng_pos a2 = rng_pos b2
                 /\ random_pos a2 = random_pos a1
                 /\ random_pos b2 = random_pos b1).
  { destruct (wantsPre options).
    - pose proof (seeded_agree
                    (generatePreBonding math rng_stream fuel phases
                       (volatility options)) a1 b1
                    (seeded_generatePreBonding _ _ _ _ _)) as H.
      rewrite P1, P2 in H. apply H. congruence.
    - destruct P1 as [-> ->]. destruct P2 as [-> ->].
      repeat split. congruence. }
  destruct Hpre as (<- & Ha2 & Hb & Hc).
  assert (Hq : post1 = post2 /\ rng_pos w1' = rng_pos w2'
               /\ random_pos w1' = random_pos a2
               /\ random_pos w2' = random_pos b2).
  { destruct (wantsPost options).
    - cbn [negb orb] in Hpost. apply negb_true_iff in Hpost.
      unfold generatePostBonding in Q1, Q2.
      rewrite (scenarioGenerator_seeded _ _ _ _ _ Hpost) in Q1.
      rewrite (scenarioGenerator_seeded _ _ _ _ _ Hpost) in Q2.
      set (g := bind (randomInt rng_stream 500 1500)
                  (fun numCandles =>
                     (if String.eqb (opt_scenario options) "pump_dump"
                      then generatePumpDump math rng_stream fuel
                      else generateOrganic math rng_stream fuel)
                       (postStartMcap pre1) numCandles (volatility options)))
        in *.
      assert (Hg : seeded g).
      { apply seeded_bind.
        - apply seeded_bind; [apply seeded_rng | intros; apply seeded_ret].
        - intros n. destruct (String.eqb _ _);
            [apply seeded_generatePumpDump | apply seeded_generateOrganic]. }
      pose proof (seeded_agree g a2 b2 Hg Ha2) as H.
      rewrite Q1, Q2 in H. exact H.
    - destruct Q1 as [-> ->]. destruct Q2 as [-> ->].
      repeat split. exact Ha2. }
  destruct Hq as (<- & Hw & Hd & He).
  cbn [data metadata scenario].
  repeat split; congruence.
Qed.

(** * Worked runs *)

Lemma half_stream_range : forall n, 0 <= half_stream n /\ half_stream n < 1.
Proof. intros n. unfold half_stream. split; lra. Qed.

Lemma half_stream_productive :
  forall n, exists k, (k < 1)%nat /\ ~ half_stream (n + k)%nat == 0.
Proof.
  intros n. exists 0%nat. split; [lia|]. unfold half_stream. lra.
Qed.

Ltac qrefute :=
  let H := fresh in
  intro H; vm_compute in H; first [discriminate H | apply H; reflexivity].

Lemma half_but_range (k : nat) (x : Q) :
  0 < x -> x < 1 ->
  (forall n, 0 <= half_but k x n /\ half_but k x n < 1)
  /\ (forall n, exists j, (j < 1)%nat /\ ~ half_but k x (n + j)%nat == 0).
Proof.
  intros H0 H1. split.
  - intros n. unfold half_but. destruct (Nat.eqb n k); split; lra.
  - intros n. exists 0%nat. split; [lia|].
    unfold half_but. destruct (Nat.eqb _ k); lra.
Qed.

Lemma quarter_stream_range :
  forall n, 0 <= quarter_stream n /\ quarter_stream n < 1.
Proof. intros n. unfold quarter_stream. split; lra. Qed.

Lemma flip_stream_range :
  (forall n, 0 <= flip_stream n /\ flip_stream n < 1)
  /\ (forall n, exists j, (j < 1)%nat /\ ~ flip_stream (n + j)%nat == 0).
Proof.
  assert (H : forall n, 0 < flip_stream n /\ flip_stream n < 1).
  { intros n. unfold flip_stream.
    do 13 (destruct n as [|n]; [split; reflexivity|]). split; reflexivity. }
  split.
  - intros n. destruct (H n). split; [lra | assumption].
  - intros n. exists 0%nat. split; [lia|]. destruct (H (n + 0)%nat). lra.
Qed.

(** ** Candle invariants *)

(** C1, at a failing input. A post-bonding "organic" chart at volatility
    "extreme", 1000 candles, whose first Gaussian sample is -3.03 (from
    [u = 0.01], [v = 0.5]): the first candle opens at 100000 and closes at
    87910.58, while its low was raised to 90000 by the 10% clamp, so the low
    lies above the close. *)
Theorem organic_low_above_close :
  exists r w' c,
    generate table_math crash_stream half_stream 1 1700000000000
      marketPhases (post_options "organic" "extreme") start_state
    = Some (r, w')
    /\ hd_error (map candle (data r)) = Some c
    /\ open c == 100000
    /\ close c == 87910.58296
    /\ low c == 90000
    /\ ~ low c <= Qmin (open c) (close c).
Proof.
  destruct (half_but_range 1 0.01) as [Hr Hp]; [lra | lra |].
  destruct (total_generate table_math crash_stream half_stream 1
              1700000000000 Hr half_stream_range Hp marketPhases
              (post_options "organic" "extreme") ltac:(discriminate)
              start_state) as [[r w'] Hg].
  exists r, w'. pose proof Hg as Hg'.
  apply generate_post_only in Hg'; [|reflexivity|discriminate].
  destruct Hg' as (mid & w1 & post & Hid & Hpost & Hdata & _).
  vm_compute in Hid. injection Hid as <- <-.
  apply generatePostBonding_inv in Hpost; [|exact Hr].
  destruct Hpost as (n & w2 & Hn & _ & Hs).
  vm_compute in Hn. injection Hn as <- <-.
  cbn [post_options opt_scenario volatility] in Hs.
  rewrite scenarioGenerator_organic in Hs.
  eexists. split; [exact Hg|]. rewrite Hdata. split.
  - eapply generateOrganic_first;
      [exact Hs | lia | vm_compute; reflexivity].
  - cbv [open close low]. repeat split. qrefute.
Qed.

(** A pre-bonding chart at volatility "extreme" whose first shock is -5.68
    standard deviations: the first candle opens at 5000 and closes below
    zero, with its low held at zero. *)
Lemma preBonding_negative_close :
  exists cs w' c,
    generatePreBonding table_math plunge_stream 1 marketPhases "extreme"
      start_state = Some (cs, w')
    /\ hd_error cs = Some c
    /\ open c == 5000
    /\ close c == -961.577051500
    /\ low c == 0
    /\ ~ 0 < close c
    /\ ~ low c <= Qmin (open c) (close c).
Proof.
  assert (H : forall n, 0 < plunge_stream n /\ plunge_stream n < 1).
  { intros n. unfold plunge_stream.
    do 2 (destruct n as [|n]; [split; reflexivity|]). split; reflexivity. }
  assert (Hr : forall n, 0 <= plunge_stream n /\ plunge_stream n < 1).
  { intros n. destruct (H n). split; [lra | assumption]. }
  assert (Hp : forall n, exists j,
               (j < 1)%nat /\ ~ plunge_stream (n + j)%nat == 0).
  { intros n. exists 0%nat. split; [lia|]. destruct (H (n + 0)%nat). lra. }
  destruct (total_generatePreBonding table_math plunge_stream 1 Hp
              marketPhases "extreme" ltac:(discriminate) start_state)
    as [[cs w'] Hg].
  exists cs, w'. eexists. split; [exact Hg|]. split.
  - eapply generatePreBonding_first;
      [exact Hr | exact Hg | vm_compute; reflexivity
      | vm_compute; reflexivity].
  - cbv [open close low]. repeat split; qrefute.
Qed.

(** ** Reproducibility *)

(** C3, at a failing input. Two runs of a post-bonding "instant_rug" chart
    from the same state of the same seeded stream, with the same options
    and clock, whose [Math.random] streams differ: the first candles differ
    in volume (125000 against 112500), so the candle sequences differ. *)
Theorem unseeded_draws_reach_candles :
  exists r1 w1 r2 w2 c1 c2,
    generate flat_math half_stream half_stream 1 1700000000000
      marketPhases (post_options "instant_rug" "medium") start_state
    = Some (r1, w1)
    /\ generate flat_math half_stream quarter_stream 1 1700000000000
         marketPhases (post_options "instant_rug" "medium") start_state
       = Some (r2, w2)
    /\ hd_error (map candle (data r1)) = Some c1
    /\ hd_error (map candle (data r2)) = Some c2
    /\ volume c1 == 125000 /\ volume c2 == 112500
    /\ data r1 <> data r2.
Proof.
  destruct (total_generate flat_math half_stream half_stream 1
              1700000000000 half_stream_range half_stream_range
              half_stream_productive marketPhases
              (post_options "instant_rug" "medium") ltac:(discriminate)
              start_state) as [[r1 w1] Hg1].
  destruct (total_generate flat_math half_stream quarter_stream 1
              1700000000000 half_stream_range quarter_stream_range
              half_stream_productive marketPhases
              (post_options "instant_rug" "medium") ltac:(discriminate)
              start_state) as [[r2 w2] Hg2].
  exists r1, w1, r2, w2.
  assert (F : forall unseeded r w',
             (forall n, 0 <= unseeded n /\ unseeded n < 1) ->
             generate flat_math half_stream unseeded 1 1700000000000
               marketPhases (post_options "instant_rug" "medium") start_state
             = Some (r, w') ->
             exists w2 c s1 w3,
               instantRugStep half_stream unseeded 0.02 20 0 BONDING_MCAP
                 {| rng_pos := 2; random_pos := 1 |} = Some (c, s1, w3)
               /\ hd_error (map candle (data r)) = Some c /\ w2 = w3).
  { intros unseeded r w' Hu Hg.
    apply generate_post_only in Hg; [|reflexivity|discriminate].
    destruct Hg as (mid & w0 & post & Hid & Hpost & Hdata & _).
    unfold Math_random in Hid. cbn [start_state random_pos rng_pos] in Hid.
    injection Hid as _ <-.
    apply generatePostBonding_inv in Hpost; [|exact half_stream_range].
    destruct Hpost as (n & w3 & Hn & _ & Hs).
    vm_compute in Hn. injection Hn as <- <-.
    cbn [post_options opt_scenario volatility] in Hs.
    rewrite scenarioGenerator_instant_rug in Hs.
    destruct (total_instantRugStep half_stream unseeded 0.02 20 0
                BONDING_MCAP {| rng_pos := 2; random_pos := 1 |})
      as [[[c s1] w4] Hstep].
    exists w4, c, s1, w4. split; [exact Hstep|]. split; [|reflexivity].
    rewrite Hdata.
    eapply generateInstantRug_first;
      [exact Hs | lia | vm_compute; reflexivity | exact Hstep]. }
  destruct (F half_stream r1 w1 half_stream_range Hg1)
    as (_ & c1 & s1 & w3 & Hs1 & Hh1 & _).
  destruct (F quarter_stream r2 w2 quarter_stream_range Hg2)
    as (_ & c2 & s2 & w4 & Hs2 & Hh2 & _).
  vm_compute in Hs1. injection Hs1 as <- _ _.
  vm_compute in Hs2. injection Hs2 as <- _ _.
  do 2 eexists. split; [exact Hg1|]. split; [exact Hg2|].
  split; [exact Hh1|]. split; [exact Hh2|].
  cbv [volume]. split; [reflexivity|]. split; [reflexivity|].
  intros E. rewrite E in Hh1. rewrite Hh1 in Hh2. discriminate.
Qed.

(** ** Candle counts *)

(** C5, at a failing input. A post-bonding "pump_dump" chart for which 501
    candles are drawn: the four phases last 125, 125, 75 and 175 candles,
    so 500 candles come out and one is dropped. *)
Theorem pump_dump_drops_a_candle :
  exists r w' w1,
    generate flat_math count501_stream half_stream 1 1700000000000
      marketPhases (post_options "pump_dump" "medium") start_state
    = Some (r, w')
    /\ randomInt count501_stream 500 1500 {| rng_pos := 0; random_pos := 1 |}
       = Some (501%Z, w1)
    /\ map duration (pumpPhases 501) = [125; 125; 75; 175]%Z
    /\ List.length (data r) = 500%nat.
Proof.
  destruct (half_but_range 0 0.0015) as [Hr Hp]; [lra | lra |].
  destruct (total_generate flat_math count501_stream half_stream 1
              1700000000000 Hr half_stream_range Hp marketPhases
              (post_options "pump_dump" "medium") ltac:(discriminate)
              start_state) as [[r w'] Hg].
  exists r, w'. eexists. split; [exact Hg|].
  split; [vm_compute; reflexivity|]. split; [vm_compute; reflexivity|].
  apply generate_post_only in Hg; [|reflexivity|discriminate].
  destruct Hg as (mid & w1 & post & Hid & Hpost & Hdata & _).
  vm_compute in Hid. injection Hid as <- <-.
  apply generatePostBonding_inv in Hpost; [|exact Hr].
  destruct Hpost as (n & w2 & Hn & _ & Hs).
  vm_compute in Hn. injection Hn as <- <-.
  cbn [post_options opt_scenario volatility] in Hs.
  rewrite scenarioGenerator_pump_dump in Hs.
  apply generatePumpDump_shape in Hs. destruct Hs as [_ Hlen].
  rewrite <- (length_map candle), Hdata. rewrite Hlen by lia.
  vm_compute. reflexivity.
Qed.

(** ** Scenarios without a ceiling *)


(** "slow_bleed" and "consolidation" from the bonding threshold, with a
    first shock of +0.59 standard deviations: the first candle closes above
    the ceiling in both. *)
Lemma slow_bleed_exceeds_ceiling :
  exists cs w' c,
    generatePostBonding table_math bleed_up_stream half_stream 1
      BONDING_MCAP "slow_bleed" "medium" start_state = Some (cs, w')
    /\ hd_error cs = Some c
    /\ close c == 100693.345517
    /\ ~ close c <= BONDING_MCAP.
Proof.
  destruct (half_but_range 3 (1 # 6)) as [Hr Hp]; [lra | lra |].
  destruct (total_generatePostBonding table_math bleed_up_stream half_stream
              1 Hr Hp BONDING_MCAP "slow_bleed" "medium" start_state)
    as [[cs w'] Hg].
  exists cs, w'. pose proof Hg as Hg'.
  apply generatePostBonding_inv in Hg'; [|exact Hr].
  destruct Hg' as (n & w1 & Hn & _ & Hs).
  rewrite scenarioGenerator_slow_bleed in Hs.
  vm_compute in Hn. injection Hn as <- <-.
  eexists. split; [exact Hg|]. split.
  - eapply generateSlowBleed_first;
      [exact Hs | lia | vm_compute; reflexivity | vm_compute; reflexivity].
  - cbv [close]. split; [reflexivity | qrefute].
Qed.

Lemma consolidation_exceeds_ceiling :
  exists cs w' c,
    generatePostBonding table_math range_up_stream half_stream 1
      BONDING_MCAP "consolidation" "medium" start_state = Some (cs, w')
    /\ hd_error cs = Some c
    /\ close c == 100353.223006
    /\ ~ close c <= BONDING_MCAP.
Proof.
  destruct (half_but_range 2 (1 # 6)) as [Hr Hp]; [lra | lra |].
  destruct (total_generatePostBonding table_math range_up_stream half_stream
              1 Hr Hp BONDING_MCAP "consolidation" "medium" start_state)
    as [[cs w'] Hg].
  exists cs, w'. pose proof Hg as Hg'.
  apply generatePostBonding_inv in Hg'; [|exact Hr].
  destruct Hg' as (n & w1 & Hn & _ & Hs).
  rewrite scenarioGenerator_consolidation in Hs.
  vm_compute in Hn. injection Hn as <- <-.
  eexists. split; [exact Hg|]. split.
  - eapply generateConsolidation_first;
      [exact Hs | lia | vm_compute; reflexivity | vm_compute; reflexivity].
  - cbv [close]. split; [reflexivity | qrefute].
Qed.

(** ** The rug index *)


(** The first 31 candles of the "instant_rug" run from 5725 on
    [worst_rug_stream] at volatility "extreme": thirty candles lose 2%
    each, the rug candle opens at about 3122.9, and 15% of that is below
    the floor of 500, so it closes at 500, which is more than 16% of its
    open. *)
Lemma worst_rug_prefix :
  exists cs1 s1 w1 c,
    for_loop (instantRugStep worst_rug_stream half_stream
                (or_default (lookup "extreme" rugVolMap) 0.02) 30)
      31 0 5725 {| rng_pos := 2; random_pos := 0 |} = Some (cs1, s1, w1)
    /\ nth_error cs1 30 = Some c
    /\ close c == 500
    /\ ~ close c / open c <= 0.16.
Proof.
  do 4 eexists. split; [vm_compute; reflexivity|].
  split; [vm_compute; reflexivity|].
  split; [vm_compute; reflexivity | qrefute].
Qed.

(** C6, the start bound. Below a start of 5730 the amended shape can fail:
    from 5725, with the rug at index 30 after thirty candles of the lowest
    return, the floor of 500 on the close reaches the rug candle and no
    candle of the segment has [close / open <= 0.16] at the rug index. *)
Lemma rug_floor_reaches_rug_candle :
  exists w1 w2 cs w' c,
    randomInt worst_rug_stream 500 1500 start_state = Some (1000%Z, w1)
    /\ randomInt worst_rug_stream 10 30 w1 = Some (30%Z, w2)
    /\ generatePostBonding flat_math worst_rug_stream half_stream 1
         5725 "instant_rug" "extreme" start_state = Some (cs, w')
    /\ nth_error cs 30 = Some c
    /\ close c == 500
    /\ ~ close c / open c <= 0.16.
Proof.
  destruct (total_generateInstantRug worst_rug_stream half_stream
              5725 1000 "extreme" {| rng_pos := 1; random_pos := 0 |})
    as [[cs w'] Hs].
  destruct worst_rug_prefix as (cs1 & s1 & w3 & c & Hp & Hc & Hclose & Hr).
  eexists _, _, cs, w', c.
  split; [vm_compute; reflexivity|]. split; [vm_compute; reflexivity|].
  split.
  - apply generatePostBonding_intro with (n := 1000%Z)
      (w1 := {| rng_pos := 1; random_pos := 0 |});
      [vm_compute; reflexivity|].
    rewrite scenarioGenerator_instant_rug. exact Hs.
  - split; [|split; assumption].
    eapply generateInstantRug_prefix in Hs;
      [|vm_compute; reflexivity | | exact Hp]; [|simpl; lia].
    destruct Hs as (cs2 & ->).
    rewrite nth_error_app1; [exact Hc|].
    apply nth_error_Some. congruence.
Qed.

(** ** Unrecognized scenario names *)

(** C7, counterexample. [generate] with the scenario name "moon" does not
    fail: it returns a chart labelled "moon" with a non-empty candle
    sequence. *)
Lemma unknown_scenario_not_rejected :
  exists r w',
    generate flat_math half_stream half_stream 1 1700000000000
      marketPhases (post_options "moon" "medium") start_state = Some (r, w')
    /\ scenario r = "moon"
    /\ data r <> [].
Proof.
  destruct (total_generate flat_math half_stream half_stream 1
              1700000000000 half_stream_range half_stream_range
              half_stream_productive marketPhases
              (post_options "moon" "medium") ltac:(discriminate)
              start_state) as [[r w'] Hg].
  exists r, w'. split; [exact Hg|].
  apply generate_post_only in Hg; [|reflexivity|discriminate].
  destruct Hg as (mid & w1 & post & _ & Hpost & Hdata & Hsc).
  split; [exact Hsc|].
  apply generatePostBonding_shape in Hpost; [|exact half_stream_range].
  destruct Hpost as [_ Hne]. intros E. rewrite E in Hdata.
  simpl in Hdata. congruence.
Qed.

(** ** Zone-aware mean reversion *)





(** ** Metadata *)

(** A pre-bonding chart at volatility "extreme" whose first shock is +2.84
    standard deviations: the chart opens at the initial 5000, and the
    metadata's [startMcap] is the first close, 7980.79. *)
Lemma startMcap_is_the_first_close :
  exists r w' m c0,
    generate table_math flip_stream half_stream 1 1700000000000
      marketPhases
      {| chartType := "pre"; opt_scenario := "organic";
         volatility := "extreme" |} start_state = Some (r, w')
    /\ metadata r = Some m
    /\ hd_error (map candle (data r)) = Some c0
    /\ open c0 == INITIAL_MCAP
    /\ startMcap m = close c0
    /\ startMcap m == 7980.78852575
    /\ ~ startMcap m == INITIAL_MCAP.
Proof.
  destruct flip_stream_range as [Hr Hp].
  destruct (total_generate table_math flip_stream half_stream 1
              1700000000000 Hr half_stream_range Hp marketPhases
              {| chartType := "pre"; opt_scenario := "organic";
                 volatility := "extreme" |} ltac:(discriminate)
              start_state) as [[r w'] Hg].
  exists r, w'. pose proof Hg as Hg'.
  apply generate_pre_only in Hg'; [|reflexivity|discriminate].
  destruct Hg' as (mid & w1 & pre & Hid & Hpre & Hdata & Hmeta).
  vm_compute in Hid. injection Hid as <- <-.
  cbn [volatility] in Hpre.
  assert (Hhd : exists c0, hd_error pre = Some c0
                           /\ open c0 == INITIAL_MCAP
                           /\ close c0 == 7980.78852575).
  { eexists. split.
    - eapply generatePreBonding_first;
        [exact Hr | exact Hpre | vm_compute; reflexivity
        | vm_compute; reflexivity].
    - cbv [open close]. split; reflexivity. }
  destruct Hhd as (c0 & Hhd & Ho & Hc).
  destruct pre as [|c pre]; [discriminate|].
  apply Some_eq_inv in Hhd. subst c.
  destruct (calculateMetadata_spec c0 pre) as (m & Hm & Hs & _).
  exists m, c0. rewrite Hmeta, Hdata.
  split; [exact Hg|]. split; [exact Hm|]. split; [reflexivity|].
  split; [exact Ho|]. split; [exact Hs|]. rewrite Hs.
  split; [exact Hc|]. rewrite Hc. qrefute.
Qed.

(** C9, counterexample. A pre-bonding chart at volatility "medium" whose
    first shock is zero (from [u = 0.5], [v = 0.25]: [cos(2 PI v)] is 0):
    the first candle opens at the initial 5000 and closes there, so
    [startMcap], the first close, does not differ from the configured
    initial capitalization. *)
Lemma startMcap_equals_initial_cap :
  exists r w' m c0,
    generate table_math still_stream half_stream 1 1700000000000
      marketPhases
      {| chartType := "pre"; opt_scenario := "organic";
         volatility := "medium" |} start_state = Some (r, w')
    /\ metadata r = Some m
    /\ hd_error (map candle (data r)) = Some c0
    /\ open c0 == INITIAL_MCAP
    /\ startMcap m = close c0
    /\ startMcap m == INITIAL_MCAP.
Proof.
  destruct (half_but_range 2 0.25) as [Hr Hp]; [lra | lra |].
  destruct (total_generate table_math still_stream half_stream 1
              1700000000000 Hr half_stream_range Hp marketPhases
              {| chartType := "pre"; opt_scenario := "organic";
                 volatility := "medium" |} ltac:(discriminate)
              start_state) as [[r w'] Hg].
  exists r, w'. pose proof Hg as Hg'.
  apply generate_pre_only in Hg'; [|reflexivity|discriminate].
  destruct Hg' as (mid & w1 & pre & Hid & Hpre & Hdata & Hmeta).
  vm_compute in Hid. injection Hid as <- <-.
  cbn [volatility] in Hpre.
  assert (Hhd : exists c0, hd_error pre = Some c0
                           /\ open c0 == INITIAL_MCAP
                           /\ close c0 == INITIAL_MCAP).
  { eexists. split.
    - eapply generatePreBonding_first;
        [exact Hr | exact Hpre | vm_compute; reflexivity
        | vm_compute; reflexivity].
    - cbv [open close]. split; reflexivity. }
  destruct Hhd as (c0 & Hhd & Ho & Hc).
  destruct pre as [|c pre]; [discriminate|].
  apply Some_eq_inv in Hhd. subst c.
  destruct (calculateMetadata_spec c0 pre) as (m & Hm & Hs & _).
  exists m, c0. rewrite Hmeta, Hdata.
  split; [exact Hg|]. split; [exact Hm|]. split; [reflexivity|].
  split; [exact Ho|]. split; [exact Hs|]. rewrite Hs. exact Hc.
Qed.

(** ** The theorems at concrete inputs *)


Lemma generate_continuity_witness :
  marketPhases <> []
  /\ exists r w',
       generate flat_math half_stream half_stream 1 1700000000000
         marketPhases default_options start_state = Some (r, w')
       /\ exists pre post,
            map candle (data r) = pre ++ post
            /\ (forall i c1 c2,
                  nth_error (pre ++ post) i = Some c1 ->
                  nth_error (pre ++ post) (S i) = Some c2 ->
                  open c2 = close c1)
            /\ (if wantsPre default_options
                then (150 <= List.length pre <= 400)%nat
                     /\ exists c, hd_error (pre ++ post) = Some c
                                  /\ open c = INITIAL_MCAP
                else pre = [])
            /\ (if wantsPost default_options
                then exists c, hd_error post = Some c
                               /\ open c = lastClose BONDING_MCAP pre
                else post = []).
Proof.
  split; [discriminate|].
  apply (generate_continuity flat_math half_stream half_stream 1
           1700000000000 half_stream_range half_stream_range
           half_stream_productive marketPhases default_options start_state).
  discriminate.
Defined.


Lemma unknown_scenario_is_organic_witness :
  known_scenario "moon" = false /\ "moon" <> "random"
  /\ marketPhases <> []
  /\ opt_scenario (post_options "moon" "medium") = "moon"
  /\ exists r w',
       generate flat_math half_stream half_stream 1 1700000000000
         marketPhases (post_options "moon" "medium") start_state
       = Some (r, w')
       /\ scenario r = "moon"
       /\ generate flat_math half_stream half_stream 1 1700000000000
            marketPhases
            {| chartType := chartType (post_options "moon" "medium");
               opt_scenario := "organic";
               volatility := volatility (post_options "moon" "medium") |}
            start_state
          = Some ({| id := id r; scenario := "organic"; data := data r;
                     metadata := metadata r |}, w').
Proof.
  assert (H1 : known_scenario "moon" = false) by reflexivity.
  assert (H2 : "moon" <> "random") by discriminate.
  assert (H3 : marketPhases <> []) by discriminate.
  assert (H4 : opt_scenario (post_options "moon" "medium") = "moon")
    by reflexivity.
  repeat (split; [assumption|]).
  exact (unknown_scenario_is_organic flat_math half_stream half_stream 1
           1700000000000 half_stream_range half_stream_range
           half_stream_productive "moon" H1 H2 marketPhases
           (post_options "moon" "medium") start_state H3 H4).
Defined.


Lemma generate_metadata_witness :
  marketPhases <> [] /\ ~ In (volatility default_options) inherited_keys
  /\ exists r w',
       generate flat_math half_stream half_stream 1 1700000000000
         marketPhases default_options start_state = Some (r, w')
       /\ metadata r = calculateMetadata (map candle (data r))
       /\ match map candle (data r) with
          | [] => metadata r = None
          | c0 :: rest =>
              exists m,
                metadata r = Some m
                /\ startMcap m = close c0
                /\ finalMcap m = close (last rest c0)
                /\ In (peakMcap m) (map close (c0 :: rest))
                /\ (forall c, In c (c0 :: rest) -> ~ peakMcap m < close c)
                /\ In (minMcap m) (map close (c0 :: rest))
                /\ (forall c, In c (c0 :: rest) -> ~ close c < minMcap m)
                /\ totalCandles m = List.length (c0 :: rest)
          end.
Proof.
  assert (H1 : marketPhases <> []) by discriminate.
  assert (H2 : ~ In (volatility default_options) inherited_keys).
  { simpl. intros H. repeat (destruct H as [H|H]; [discriminate H|]).
    exact H. }
  split; [exact H1|]. split; [exact H2|].
  exact (generate_metadata flat_math half_stream half_stream 1
           1700000000000 half_stream_range half_stream_range
           half_stream_productive marketPhases default_options start_state
           H1 H2).
Defined.

Lemma bias_never_used_witness :
  Forall2 agree_but_bias marketPhases unbiasedPhases
  /\ (forall vol phase numCandles i s g,
         totalChangePercent flat_math vol phase numCandles i s g
         = g * (vol * volMult phase)
           + shortTermMomentum s * 0.2
           + longTermMemory s * 0.05
           + Math_sin flat_math (ofNat i * 0.05) * 0.5
             * (vol * volMult phase) * 0.2
           + marketMemory numCandles i (pre_currentMcap s))
  /\ (forall options w,
         generate flat_math half_stream half_stream 1 1700000000000
           marketPhases options w
         = generate flat_math half_stream half_stream 1 1700000000000
             unbiasedPhases options w).
Proof.
  assert (H : Forall2 agree_but_bias marketPhases unbiasedPhases).
  { unfold unbiasedPhases, marketPhases. cbn [map].
    repeat constructor. }
  split; [exact H|].
  exact (bias_never_used flat_math half_stream half_stream 1 1700000000000
           marketPhases unbiasedPhases H).
Defined.

(** ** The further properties at concrete inputs *)

Lemma randomInt_inclusive_range_witness :
  (- 2 ^ 51 <= 10)%Z /\ (10 <= 30)%Z /\ (30 <= 2 ^ 51)%Z
  /\ exists n w',
       randomInt half_stream 10 30 start_state = Some (n, w')
       /\ (10 <= n <= 30)%Z
       /\ (half_stream (rng_pos start_state) == 0 -> n = 10%Z)
       /\ (inject_Z (30 - 10)
           <= half_stream (rng_pos start_state) * inject_Z (30 - 10 + 1) ->
           n = 30%Z)
       /\ rng_pos w' = S (rng_pos start_state)
       /\ random_pos w' = random_pos start_state.
Proof.
  assert (H1 : (- 2 ^ 51 <= 10)%Z) by lia.
  assert (H2 : (10 <= 30)%Z) by lia.
  assert (H3 : (30 <= 2 ^ 51)%Z) by lia.
  split; [exact H1|]. split; [exact H2|]. split; [exact H3|].
  exact (randomInt_inclusive_range half_stream half_stream_range
           10 30 start_state H1 H2 H3).
Defined.

Lemma sparse_stream_range :
  forall n, 0 <= sparse_stream n /\ sparse_stream n < 1.
Proof.
  intros n. unfold sparse_stream. destruct (Nat.eqb _ _); split; lra.
Qed.

Lemma sparse_stream_productive :
  forall n, exists k, (k < 3)%nat /\ ~ sparse_stream (n + k)%nat == 0.
Proof.
  intros n. pose proof (Nat.mod_upper_bound n 3 ltac:(lia)) as Hb.
  exists (2 - n mod 3)%nat. split; [lia|].
  unfold sparse_stream.
  replace ((n + (2 - n mod 3)) mod 3)%nat with 2%nat.
  - cbn [Nat.eqb]. intros H. discriminate H.
  - pose proof (Nat.div_mod_eq n 3) as E.
    replace (n + (2 - n mod 3))%nat with (2 + (n / 3) * 3)%nat by lia.
    rewrite Nat.Div0.mod_add. reflexivity.
Qed.

(** On [sparse_stream] the sample takes six draws: two zeros are skipped
    before [u] and two before [v]. *)
Lemma sparse_stream_sample :
  exists g,
    gaussianRandom flat_math sparse_stream 3 start_state
    = Some (g, {| rng_pos := 6; random_pos := 0 |}).
Proof. eexists. vm_compute. reflexivity. Qed.

Lemma gaussianRandom_skips_zeros_witness :
  sparse_stream (rng_pos start_state) == 0
  /\ exists g w' j k,
       gaussianRandom flat_math sparse_stream 3 start_state = Some (g, w')
       /\ (forall m, (m < j)%nat ->
                     sparse_stream (rng_pos start_state + m) == 0)
       /\ (forall m, (m < k)%nat ->
                     sparse_stream (rng_pos start_state + j + 1 + m) == 0)
       /\ (let u := sparse_stream (rng_pos start_state + j) in
           let v := sparse_stream (rng_pos start_state + j + 1 + k) in
           0 < u /\ u < 1 /\ 0 < v /\ v < 1
           /\ g = Math_sqrt flat_math (-2.0 * Math_log flat_math u)
                  * Math_cos flat_math (2.0 * Math_PI flat_math * v))
       /\ rng_pos w' = (rng_pos start_state + j + k + 2)%nat
       /\ random_pos w' = random_pos start_state.
Proof.
  split; [reflexivity|].
  exact (gaussianRandom_skips_zeros flat_math sparse_stream 3
           sparse_stream_range sparse_stream_productive start_state).
Defined.

Lemma generate_timestamps_witness :
  marketPhases <> []
  /\ exists r w',
       generate flat_math half_stream half_stream 1 1700000000000
         marketPhases default_options start_state = Some (r, w')
       /\ let now := (1700000000000 / 1000)%Z in
          let n := Z.of_nat (List.length (data r)) in
          (forall k tc, nth_error (data r) k = Some tc ->
                        time tc = (now - (n - Z.of_nat k) * 60)%Z)
          /\ (forall k t1 t2,
                nth_error (data r) k = Some t1 ->
                nth_error (data r) (S k) = Some t2 ->
                time t2 = (time t1 + 60)%Z)
          /\ (forall tc, In tc (data r) -> (time tc <= now - 60)%Z)
          /\ (forall tc,
                nth_error (data r) (List.length (data r) - 1) = Some tc ->
                time tc = (now - 60)%Z).
Proof.
  assert (H : marketPhases <> []) by discriminate.
  split; [exact H|].
  exact (generate_timestamps flat_math half_stream half_stream 1
           1700000000000 half_stream_range half_stream_range
           half_stream_productive marketPhases default_options start_state H).
Defined.

Lemma generate_scenario_field_witness :
  marketPhases <> []
  /\ exists r w',
       generate flat_math half_stream half_stream 1 1700000000000
         marketPhases default_options start_state = Some (r, w')
       /\ if String.eqb (opt_scenario default_options) "random"
          then In (scenario r) scenarios
               /\ known_scenario (scenario r) = true
               /\ scenario r <> "random"
               /\ id_draw (id r) = half_stream (S (random_pos start_state))
          else scenario r = opt_scenario default_options
               /\ id_draw (id r) = half_stream (random_pos start_state).
Proof.
  assert (H : marketPhases <> []) by discriminate.
  split; [exact H|].
  exact (generate_scenario_field flat_math half_stream half_stream 1
           1700000000000 half_stream_range half_stream_range
           half_stream_productive marketPhases default_options start_state H).
Defined.

Lemma generate_unknown_chartType_witness :
  chartType stray_options <> "full" /\ chartType stray_options <> "pre"
  /\ chartType stray_options <> "post"
  /\ exists r w',
       generate flat_math half_stream half_stream 1 1700000000000
         marketPhases stray_options start_state = Some (r, w')
       /\ data r = [] /\ metadata r = None
       /\ rng_pos w' = rng_pos start_state.
Proof.
  assert (H1 : chartType stray_options <> "full") by discriminate.
  assert (H2 : chartType stray_options <> "pre") by discriminate.
  assert (H3 : chartType stray_options <> "post") by discriminate.
  repeat (split; [assumption|]).
  exact (generate_unknown_chartType flat_math half_stream half_stream 1
           1700000000000 half_stream_range marketPhases stray_options
           start_state H1 H2 H3).
Defined.


Lemma preBonding_candle_bounds_witness :
  marketPhases <> [] /\ ~ In "medium" inherited_keys
  /\ exists cs w',
       generatePreBonding flat_math half_stream 1 marketPhases "medium"
         start_state = Some (cs, w')
       /\ (150 <= List.length cs <= 400)%nat
       /\ Forall (fun c =>
                    0 < open c ->
                    open c <= high c /\ close c <= high c
                    /\ high c <= BONDING_MCAP * 1000
                    /\ close c <= BONDING_MCAP * 1000
                    /\ 0 <= low c /\ 10000 <= volume c
                    /\ (0 <= close c ->
                        low c <= open c /\ low c <= close c)) cs.
Proof.
  assert (H1 : marketPhases <> []) by discriminate.
  assert (H2 : ~ In "medium" inherited_keys).
  { simpl. intros H. repeat (destruct H as [H|H]; [discriminate H|]).
    exact H. }
  split; [exact H1|]. split; [exact H2|].
  exact (preBonding_candle_bounds flat_math half_stream 1
           half_stream_range half_stream_productive marketPhases "medium"
           start_state H1 H2).
Defined.

Lemma organic_candle_bounds_witness :
  ~ In "medium" inherited_keys
  /\ exists cs w',
       generateOrganic flat_math half_stream 1 BONDING_MCAP 500 "medium"
         start_state = Some (cs, w')
       /\ Forall (fun c =>
                    opens_in_range c ->
                    close c <= BONDING_MCAP /\ high c <= BONDING_MCAP * 1.005
                    /\ 0 < low c /\ 15000 <= volume c
                    /\ (open c <= BONDING_MCAP ->
                        open c <= high c /\ close c <= high c)
                    /\ (open c * 0.9 <= close c ->
                        low c <= open c /\ low c <= close c)) cs
       /\ (BONDING_MCAP <= BONDING_MCAP ->
           Forall (fun c => open c <= BONDING_MCAP) cs).
Proof.
  assert (H : ~ In "medium" inherited_keys).
  { simpl. intros H. repeat (destruct H as [H|H]; [discriminate H|]).
    exact H. }
  split; [exact H|].
  exact (organic_candle_bounds flat_math half_stream 1
           half_stream_range half_stream_productive
           BONDING_MCAP 500 "medium" start_state H).
Defined.

Lemma pumpDump_candle_bounds_witness :
  ~ In "medium" inherited_keys
  /\ exists cs w',
       generatePumpDump flat_math half_stream 1 BONDING_MCAP 500 "medium"
         start_state = Some (cs, w')
       /\ Forall (fun c =>
                    opens_in_range c ->
                    close c < BONDING_MCAP * 1.005
                    /\ high c <= BONDING_MCAP * 1.01
                    /\ 0 < low c /\ 20000 <= volume c
                    /\ (open c <= high c /\ close c <= high c
                        <-> open c <= BONDING_MCAP * 1.01)
                    /\ (open c * 0.85 <= close c ->
                        low c <= open c /\ low c <= close c)) cs
       /\ (BONDING_MCAP <= BONDING_MCAP * 1.01 ->
           Forall (fun c => open c <= BONDING_MCAP * 1.01) cs).
Proof.
  assert (H : ~ In "medium" inherited_keys).
  { simpl. intros H. repeat (destruct H as [H|H]; [discriminate H|]).
    exact H. }
  split; [exact H|].
  exact (pumpDump_candle_bounds flat_math half_stream 1
           half_stream_range half_stream_productive
           BONDING_MCAP 500 "medium" start_state H).
Defined.

Lemma instantRug_candles_valid_witness :
  0 < BONDING_MCAP /\ BONDING_MCAP <= BONDING_MCAP * 1000
  /\ ~ In "medium" inherited_keys
  /\ exists cs w',
       generateInstantRug half_stream half_stream BONDING_MCAP 500 "medium"
         start_state = Some (cs, w')
       /\ Forall (fun c =>
                    0 < low c /\ low c <= open c /\ low c <= close c
                    /\ open c <= high c /\ close c <= high c
                    /\ INITIAL_MCAP * 0.1 <= close c
                    /\ 1000 <= volume c) cs.
Proof.
  assert (H1 : 0 < BONDING_MCAP) by reflexivity.
  assert (H2 : BONDING_MCAP <= BONDING_MCAP * 1000)
    by (unfold BONDING_MCAP; lra).
  assert (H3 : ~ In "medium" inherited_keys).
  { simpl. intros H. repeat (destruct H as [H|H]; [discriminate H|]).
    exact H. }
  split; [exact H1|]. split; [exact H2|]. split; [exact H3|].
  exact (instantRug_candles_valid half_stream half_stream
           half_stream_range half_stream_range
           BONDING_MCAP 500 "medium" start_state H1 H2 H3).
Defined.


Lemma slowBleed_candle_bounds_witness :
  0 < BONDING_MCAP /\ BONDING_MCAP <= BONDING_MCAP * 1000
  /\ ~ In "medium" inherited_keys
  /\ exists cs w',
       generateSlowBleed flat_math half_stream half_stream 1 BONDING_MCAP
         500 "medium" start_state = Some (cs, w')
       /\ forall k c,
            nth_error cs k = Some c ->
            (opens_in_range c ->
             INITIAL_MCAP * 0.5 <= close c
             /\ low c <= open c /\ low c <= close c
             /\ open c <= high c /\ close c <= high c)
            /\ 30000 <= volume c /\ volume c <= 130000
            /\ (k = 0%nat -> 100000 <= volume c)
            /\ ((500 <= 2 * Z.of_nat k)%Z -> volume c <= 95000).
Proof.
  assert (H1 : 0 < BONDING_MCAP) by reflexivity.
  assert (H2 : BONDING_MCAP <= BONDING_MCAP * 1000)
    by (unfold BONDING_MCAP; lra).
  assert (H3 : ~ In "medium" inherited_keys).
  { simpl. intros H. repeat (destruct H as [H|H]; [discriminate H|]).
    exact H. }
  split; [exact H1|]. split; [exact H2|]. split; [exact H3|].
  exact (slowBleed_candle_bounds flat_math half_stream half_stream 1
           half_stream_range half_stream_productive
           BONDING_MCAP 500 "medium" start_state H1 H2 H3).
Defined.

Lemma consolidation_candle_bounds_witness :
  0 < BONDING_MCAP /\ BONDING_MCAP <= BONDING_MCAP * 1000
  /\ (500 <= 1500)%Z /\ ~ In "medium" inherited_keys
  /\ exists cs w',
       generateConsolidation flat_math half_stream half_stream 1
         BONDING_MCAP 500 "medium" start_state = Some (cs, w')
       /\ forall k c,
            nth_error cs k = Some c ->
            (opens_in_range c ->
             low c <= open c /\ low c <= close c
             /\ open c <= high c /\ close c <= high c)
            /\ (60000 <= volume c <= 100000
                \/ 150000 <= volume c <= 250000)
            /\ ((Z.of_nat k + 1 < 7 * 500 / 10)%Z ->
                60000 <= volume c /\ volume c <= 100000)
            /\ ((7 * 500 / 10 <= Z.of_nat k)%Z ->
                150000 <= volume c /\ volume c <= 250000).
Proof.
  assert (H1 : 0 < BONDING_MCAP) by reflexivity.
  assert (H2 : BONDING_MCAP <= BONDING_MCAP * 1000)
    by (unfold BONDING_MCAP; lra).
  assert (H3 : (500 <= 1500)%Z) by lia.
  assert (H4 : ~ In "medium" inherited_keys).
  { simpl. intros H. repeat (destruct H as [H|H]; [discriminate H|]).
    exact H. }
  split; [exact H1|]. split; [exact H2|]. split; [exact H3|].
  split; [exact H4|].
  exact (consolidation_candle_bounds flat_math half_stream half_stream 1
           half_stream_range half_stream_productive
           BONDING_MCAP 500 "medium" start_state H1 H2 H3 H4).
Defined.

Lemma seeded_runs_ignore_Math_random_witness :
  marketPhases <> []
  /\ seeded_run (post_options "pump_dump" "high") = true
  /\ rng_pos start_state = rng_pos later_state
  /\ exists r1 w1' r2 w2',
       generate flat_math half_stream half_stream 1 1700000000000
         marketPhases (post_options "pump_dump" "high") start_state
       = Some (r1, w1')
       /\ generate flat_math half_stream quarter_stream 1 1700000000000
            marketPhases (post_options "pump_dump" "high") later_state
          = Some (r2, w2')
       /\ data r1 = data r2 /\ metadata r1 = metadata r2
       /\ scenario r1 = scenario r2
       /\ rng_pos w1' = rng_pos w2'
       /\ random_pos w1' = S (random_pos start_state)
       /\ random_pos w2' = S (random_pos later_state).
Proof.
  assert (H1 : marketPhases <> []) by discriminate.
  assert (H2 : seeded_run (post_options "pump_dump" "high") = true)
    by reflexivity.
  assert (H3 : rng_pos start_state = rng_pos later_state) by reflexivity.
  repeat (split; [assumption|]).
  exact (seeded_runs_ignore_Math_random flat_math half_stream half_stream
           quarter_stream 1 1700000000000 marketPhases
           (post_options "pump_dump" "high") start_state later_state
           half_stream_range half_stream_range quarter_stream_range
           half_stream_productive H1 H2 H3).
Defined.

Lemma unknown_volatility_is_medium_witness :
  ~ In (volatility wild_options) volatility_levels
  /\ ~ In (volatility wild_options) inherited_keys
  /\ generate flat_math half_stream half_stream 1 1700000000000
       marketPhases wild_options start_state
     = generate flat_math half_stream half_stream 1 1700000000000
         marketPhases
         {| chartType := chartType wild_options;
            opt_scenario := opt_scenario wild_options;
            volatility := "medium" |} start_state.
Proof.
  assert (H1 : ~ In (volatility wild_options) volatility_levels).
  { simpl. intros H. repeat (destruct H as [H|H]; [discriminate H|]).
    exact H. }
  assert (H2 : ~ In (volatility wild_options) inherited_keys).
  { simpl. intros H. repeat (destruct H as [H|H]; [discriminate H|]).
    exact H. }
  split; [exact H1|]. split; [exact H2|].
  exact (unknown_volatility_is_medium flat_math half_stream half_stream 1
           1700000000000 marketPhases wild_options start_state H1 H2).
Defined.


Lemma post_chart_metadata_witness :
  marketPhases <> [] /\ "slow_bleed" <> "random"
  /\ ~ In "low" inherited_keys
  /\ exists r w' m,
       generate flat_math half_stream half_stream 1 1700000000000
         marketPhases (post_options "slow_bleed" "low") start_state
       = Some (r, w')
       /\ metadata r = Some m
       /\ totalCandles m = List.length (data r)
       /\ (497 <= totalCandles m <= 1500)%nat
       /\ ("slow_bleed" = "organic" \/ known_scenario "slow_bleed" = false ->
           peakMcap m <= BONDING_MCAP)
       /\ ("slow_bleed" = "pump_dump" -> peakMcap m < BONDING_MCAP * 1.005)
       /\ ("slow_bleed" = "instant_rug" -> INITIAL_MCAP * 0.1 <= minMcap m)
       /\ ("slow_bleed" = "slow_bleed" -> INITIAL_MCAP * 0.5 <= minMcap m).
Proof.
  assert (H1 : marketPhases <> []) by discriminate.
  assert (H2 : "slow_bleed" <> "random") by discriminate.
  assert (H3 : ~ In "low" inherited_keys).
  { simpl. intros H. repeat (destruct H as [H|H]; [discriminate H|]).
    exact H. }
  split; [exact H1|]. split; [exact H2|]. split; [exact H3|].
  exact (post_chart_metadata flat_math half_stream half_stream 1
           1700000000000 half_stream_range half_stream_range
           half_stream_productive marketPhases "slow_bleed" "low"
           start_state H1 H2 H3).
Defined.

Lemma generate_candle_count_witness :
  marketPhases <> []
  /\ exists r w',
       generate flat_math half_stream half_stream 1 1700000000000
         marketPhases default_options start_state = Some (r, w')
       /\ let n := List.length (data r) in
          (chartType default_options = "pre" -> (150 <= n <= 400)%nat)
          /\ (chartType default_options = "post" ->
              (497 <= n <= 1500)%nat
              /\ (scenario r <> "pump_dump" -> (500 <= n)%nat))
          /\ (chartType default_options = "full" ->
              (647 <= n <= 1900)%nat
              /\ (scenario r <> "pump_dump" -> (650 <= n)%nat))
          /\ (chartType default_options <> "pre" ->
              chartType default_options <> "post" ->
              chartType default_options <> "full" -> n = 0%nat).
Proof.
  assert (H : marketPhases <> []) by discriminate.
  split; [exact H|].
  exact (generate_candle_count flat_math half_stream half_stream 1
           1700000000000 half_stream_range half_stream_range
           half_stream_productive marketPhases default_options start_state H).
Defined.
